(** * audio-stitching: storage engine, catalog and gapless playback scheduler

    A shallow embedding of [src/utils/storage.ts] (OpfsStorage),
    [src/utils/audio.ts], the [useOpfsDirectories] hook, the [AddNew]
    upload handler and the [StitchAudio] component, together with the
    properties the design document states about them and further
    properties of the code: deleting, paths, failures, the way from an
    upload to the player, pause and resume.

    Conventions.
    - A JS string is a Rocq [string]; its UTF-8 bytes are the bytes of the
      Rocq string.
    - An [ArrayBuffer] is a [list byte].
    - Every [async] function runs to completion once started (handlers are
      atomic); a rejected promise or a [throw] is an [Err] result.  The
      store is threaded explicitly, and a failing call still returns the
      store it left behind.
    - The origin-private file system is the platform's: its handles are
      paths from the root, its contents a finite map from paths to nodes. *)

From Stdlib Require Import ZArith QArith List Bool Lia.
From Stdlib Require Import Strings.String Strings.Ascii Strings.Byte.
From Stdlib Require Import DecimalString.
From Corelib Require Import Floats.PrimFloat.
From Stdlib Require Import Numbers.Cyclic.Int63.Uint63.
From Stdlib Require Import Sorting.Sorted Sorting.Permutation.
From stdpp Require Import base option list gmap strings.

Close Scope Q_scope.
Local Open Scope string_scope.
Local Open Scope list_scope.

(** ** Errors and the store-passing error monad *)

Inductive Error : Type :=
| UnsupportedContext      (* Error("Unsupported execution context for OPFS") *)
| OpfsNotSupported        (* Error("OPFS is not supported in this browser") *)
| OpfsNotInitialized      (* Error("OPFS not initialized") *)
| InvalidFilePath         (* Error("Invalid file path") *)
| NotFoundError           (* DOMException of the file system *)
| TypeMismatchError       (* DOMException of the file system *)
| InvalidNameError        (* TypeError: not a valid file name *)
| EncodingError           (* decodeAudioData rejects *)
| SyntaxError             (* JSON.parse throws *)
| InvalidStateError.      (* suspend() or close() on a closed AudioContext *)

Inductive Result (A : Type) : Type :=
| Ok (a : A)
| Err (e : Error).
Arguments Ok {A} a.
Arguments Err {A} e.

(** A computation over a store [S]: it may fail, and returns the store
    either way. *)
Definition Eff (S A : Type) : Type := S -> Result A * S.

Definition ret {S A} (a : A) : Eff S A := fun s => (Ok a, s).
Definition throw {S A} (e : Error) : Eff S A := fun s => (Err e, s).
Definition bind {S A B} (m : Eff S A) (k : A -> Eff S B) : Eff S B :=
  fun s => match m s with
           | (Ok a, s') => k a s'
           | (Err e, s') => (Err e, s')
           end.
Definition get {S} : Eff S S := fun s => (Ok s, s).
Definition modify {S} (f : S -> S) : Eff S unit := fun s => (Ok tt, f s).

Notation "'let!' x ':=' m 'in' k" := (bind m (fun x => k))
  (at level 10, x name, m at level 100, k at level 200).
Notation "'let!' ' p ':=' m 'in' k" := (bind m (fun p => k))
  (at level 10, p strict pattern, m at level 100, k at level 200).
Notation "'run!' m 'in' k" := (bind m (fun _ => k))
  (at level 10, m at level 100, k at level 200).

(** [for (const x of xs) { acc = await f(acc, x) }] *)
Fixpoint forEachM {S A B} (f : B -> A -> Eff S B) (xs : list A) (acc : B)
  : Eff S B :=
  match xs with
  | [] => ret acc
  | x :: xs' => let! acc' := f acc x in forEachM f xs' acc'
  end.

(** [await Promise.all(xs.map(async x => f x))]: the results in the order
    of [xs]; the first failure rejects the whole. *)
Fixpoint promiseAll {S A B} (f : A -> Eff S B) (xs : list A) : Eff S (list B) :=
  match xs with
  | [] => ret []
  | x :: xs' => let! y := f x in let! ys := promiseAll f xs' in ret (y :: ys)
  end.

(** ** Strings *)

(** [s.split(sep)] for a one-character separator. *)
Fixpoint String_split (sep : ascii) (s : string) : list string :=
  match s with
  | EmptyString => [EmptyString]
  | String c r =>
      if Ascii.eqb c sep then EmptyString :: String_split sep r
      else match String_split sep r with
           | seg :: segs => String c seg :: segs
           | [] => [String c EmptyString]
           end
  end.

(** [Boolean(s)] on a string: the empty string is falsy. *)
Definition truthy (s : string) : bool :=
  match s with EmptyString => false | _ => true end.

(** [path.split("/").filter(Boolean)] *)
Definition pathParts (path : string) : list string :=
  List.filter truthy (String_split "/" path).

(** [parts.pop()]: the last element, and what is left of the array. *)
Fixpoint pop {A} (l : list A) : option A * list A :=
  match l with
  | [] => (None, [])
  | [x] => (Some x, [])
  | x :: l' => let '(o, r) := pop l' in (o, x :: r)
  end.

Fixpoint contains (c : ascii) (s : string) : bool :=
  match s with
  | EmptyString => false
  | String d r => Ascii.eqb d c || contains c r
  end.

(** ASCII part of [s.toLowerCase()]: the letters A to Z are mapped, every
    other character is left as it is (the real function also maps letters
    outside ASCII, a few of them to ASCII letters). *)
Definition lowerAscii (c : ascii) : ascii :=
  let n := nat_of_ascii c in
  if (65 <=? n)%nat && (n <=? 90)%nat then ascii_of_nat (n + 32) else c.

Fixpoint toLowerCase (s : string) : string :=
  match s with
  | EmptyString => EmptyString
  | String c r => String (lowerAscii c) (toLowerCase r)
  end.

(** [new TextEncoder().encode(s)] and [new TextDecoder().decode(b)]. *)
Definition TextEncoder_encode (s : string) : list byte := list_byte_of_string s.
Definition TextDecoder_decode (b : list byte) : string := string_of_list_byte b.

(** ** The origin-private file system (platform)

    A handle is the path of its entry from the root.  [getDirectoryHandle],
    [getFileHandle], [entries], the synchronous access handle and the
    writable stream follow the File System standard. *)

Inductive Node : Type :=
| FileNode (content : list byte)
| DirNode.

Abbreviation Handle := (list string) (only parsing).
Abbreviation Disk := (gmap (list string) Node) (only parsing).

(** A valid file name is not empty, is neither "." nor "..", and holds no
    path separator: neither a slash nor a backslash (the browsers reject
    both, on every platform, with "Name is not allowed"). *)
Definition validName (n : string) : bool :=
  truthy n && negb (String.eqb n ".") && negb (String.eqb n "..")
  && negb (contains "/" n) && negb (contains "\" n).

(** [await dir.getDirectoryHandle(name, { create })] *)
Definition getDirectoryHandle (dir : Handle) (name : string) (create : bool)
  : Eff Disk Handle :=
  fun d =>
    if negb (validName name) then (Err InvalidNameError, d)
    else match d !! (dir ++ [name]) with
         | Some DirNode => (Ok (dir ++ [name]), d)
         | Some (FileNode _) => (Err TypeMismatchError, d)
         | None =>
             if create then (Ok (dir ++ [name]), <[dir ++ [name] := DirNode]> d)
             else (Err NotFoundError, d)
         end.

(** [await dir.getFileHandle(name, { create })] *)
Definition getFileHandle (dir : Handle) (name : string) (create : bool)
  : Eff Disk Handle :=
  fun d =>
    if negb (validName name) then (Err InvalidNameError, d)
    else match d !! (dir ++ [name]) with
         | Some (FileNode _) => (Ok (dir ++ [name]), d)
         | Some DirNode => (Err TypeMismatchError, d)
         | None =>
             if create then (Ok (dir ++ [name]), <[dir ++ [name] := FileNode []]> d)
             else (Err NotFoundError, d)
         end.

(** [k] names a child of [dir]: [k = dir ++ [name]]. *)
Fixpoint childName (dir k : list string) : option string :=
  match dir, k with
  | [], [name] => Some name
  | a :: dir', b :: k' => if String.eqb a b then childName dir' k' else None
  | _, _ => None
  end.

(** [dir.entries()]: the children of [dir], in the order of the file
    system (here the order of the finite map). *)
Definition children (dir : Handle) (d : Disk) : list (string * Node) :=
  omap (fun kv => match childName dir (fst kv) with
                  | Some name => Some (name, snd kv)
                  | None => None
                  end) (map_to_list d).

Definition entries (dir : Handle) : Eff Disk (list (string * Node)) :=
  fun d => (Ok (children dir d), d).

Definition fileContent (file : Handle) : Eff Disk (list byte) :=
  fun d => match d !! file with
           | Some (FileNode c) => (Ok c, d)
           | _ => (Err NotFoundError, d)
           end.

Definition zeros (n : nat) : list byte := repeat x00 n.

(** Synchronous access handle of [file]: [getSize()], [truncate(n)],
    [write(buf, { at })], [read(new ArrayBuffer(size), { at })]. *)
Definition sync_getSize (file : Handle) : Eff Disk nat :=
  let! c := fileContent file in ret (length c).

Definition sync_truncate (file : Handle) (n : nat) : Eff Disk unit :=
  let! c := fileContent file in
  modify (insert file (FileNode (firstn n c ++ zeros (n - length c)))).

Definition sync_write (file : Handle) (buf : list byte) (at_ : nat)
  : Eff Disk nat :=
  let! c := fileContent file in
  run! modify (insert file
         (FileNode (firstn at_ c ++ zeros (at_ - length c) ++ buf
                    ++ skipn (at_ + length buf) c))) in
  ret (length buf).

Definition sync_read (file : Handle) (size : nat) (at_ : nat)
  : Eff Disk (list byte) :=
  let! c := fileContent file in
  let got := firstn size (skipn at_ c) in
  ret (got ++ zeros (size - length got)).

(** What can be handed to [saveFile]. *)
Inductive Data : Type :=
| DString (s : string)
| DArrayBuffer (b : list byte)
| DBlob (b : list byte)
| DView (buffer : list byte) (byteOffset byteLength : nat).

(** [buffer.slice(begin, end)] *)
Definition ArrayBuffer_slice (b : list byte) (begin end_ : nat) : list byte :=
  firstn (end_ - begin) (skipn begin b).

(** [await blob.arrayBuffer()] *)
Definition Blob_arrayBuffer (b : list byte) : list byte := b.

(** The bytes of a payload: the UTF-8 encoding of a string, the content of
    a buffer or a blob, the bytes a view covers.  This is also what the
    platform's writable stream writes for each kind of chunk. *)
Definition dataBytes (data : Data) : list byte :=
  match data with
  | DString s => TextEncoder_encode s
  | DArrayBuffer b => b
  | DBlob b => b
  | DView b off len => firstn len (skipn off b)
  end.

(** A writable stream: its target and the swap file that replaces the
    target's content on [close()]. *)
Record Writable : Type := { target : list string; swap : list byte }.

(** [await file.createWritable()], without [keepExistingData]: the swap
    file starts empty. *)
Definition createWritable (file : Handle) : Eff Disk Writable :=
  let! _ := fileContent file in ret {| target := file; swap := [] |}.

(** [await writable.write(data)], at the start of a fresh stream. *)
Definition Writable_write (w : Writable) (data : Data) : Eff Disk Writable :=
  ret {| target := target w; swap := swap w ++ dataBytes data |}.

(** [await writable.close()] *)
Definition Writable_close (w : Writable) : Eff Disk unit :=
  modify (insert (target w) (FileNode (swap w))).

(** [await file.getFile()] then [await f.arrayBuffer()] *)
Definition File_arrayBuffer (file : Handle) : Eff Disk (list byte) :=
  fileContent file.

(** [(await file.getFile()).size] *)
Definition getFile_size (file : Handle) : Eff Disk nat :=
  let! c := fileContent file in ret (length c).

(** [k] is [dir] or lies below it. *)
Fixpoint isPrefix (dir k : list string) : bool :=
  match dir, k with
  | [], _ => true
  | a :: dir', b :: k' => String.eqb a b && isPrefix dir' k'
  | _ :: _, [] => false
  end.

(** What the deleting operations can throw: an error of the calls they
    share with the other operations, or one of their own. *)
Inductive DeleteError : Type :=
| Raised (e : Error)
| InvalidDirectoryPath        (* Error("Invalid directory path") *)
| InvalidModificationError.   (* DOMException: the directory is not empty *)

(** [await dir.removeEntry(name, { recursive })]: the error thrown, if any.
    A directory that is not empty goes only with [recursive]; it then goes
    with everything below it. *)
Definition removeEntry (dir : Handle) (name : string) (recursive : bool)
    (d : Disk) : option DeleteError * Disk :=
  if negb (validName name) then (Some (Raised InvalidNameError), d)
  else match d !! (dir ++ [name]) with
       | None => (Some (Raised NotFoundError), d)
       | Some (FileNode _) => (None, delete (dir ++ [name]) d)
       | Some DirNode =>
           match children (dir ++ [name]) d with
           | _ :: _ =>
               if recursive
               then (None,
                     filter (fun kv => isPrefix (dir ++ [name]) (fst kv) = false)
                            d)
               else (Some InvalidModificationError, d)
           | [] =>
               (None,
                filter (fun kv => isPrefix (dir ++ [name]) (fst kv) = false) d)
           end
       end.

(** ** OpfsStorage ([src/utils/storage.ts]) *)

Inductive ChangeType : Type :=
| file_added | file_deleted | directory_added | directory_deleted.

Record OpfsChangeDetail : Type :=
  { type_ : ChangeType; path_ : string }.

(** Where the code runs: a worker has [WorkerGlobalScope] and no [window];
    a page has [window]; anything else has neither. *)
Inductive Realm : Type := WorkerRealm | WindowRealm | OtherRealm.

Definition isWorkerGlobalScope (r : Realm) : bool :=
  match r with WorkerRealm => true | _ => false end.

Definition windowDefined (r : Realm) : bool :=
  match r with WindowRealm => true | _ => false end.

Inductive Context : Type := worker | window | unknown.

Record World : Type :=
  { realm : Realm;
    getDirectorySupported : bool;       (* navigator?.storage?.getDirectory *)
    disk : gmap (list string) Node;     (* the origin-private file system *)
    dispatched : list OpfsChangeDetail; (* events dispatched on window *)
    rootDir : option (list string);     (* OpfsStorage.rootDir *)
    context : Context;                  (* OpfsStorage.context *)
    initPromise : option (Result unit)  (* OpfsStorage.initPromise, settled *)
  }.

Definition setDisk (d : gmap (list string) Node) (w : World) : World :=
  {| realm := realm w; getDirectorySupported := getDirectorySupported w;
     disk := d; dispatched := dispatched w; rootDir := rootDir w;
     context := context w; initPromise := initPromise w |}.

Definition setDispatched (evs : list OpfsChangeDetail) (w : World) : World :=
  {| realm := realm w; getDirectorySupported := getDirectorySupported w;
     disk := disk w; dispatched := evs; rootDir := rootDir w;
     context := context w; initPromise := initPromise w |}.

Definition setInit (root : option (list string)) (c : Context)
    (p : option (Result unit)) (w : World) : World :=
  {| realm := realm w; getDirectorySupported := getDirectorySupported w;
     disk := disk w; dispatched := dispatched w; rootDir := root;
     context := c; initPromise := p |}.

(** A call into the platform's file system. *)
Definition fsCall {A} (m : Eff (gmap (list string) Node) A) : Eff World A :=
  fun w => let '(r, d) := m (disk w) in (r, setDisk d w).

Module OpfsStorage.

(** [window.dispatchEvent(new CustomEvent(OPFS_CHANGE_EVENT, { detail }))],
    only where [window] exists. *)
Definition emitChange (detail : OpfsChangeDetail) : Eff World unit :=
  fun w =>
    if windowDefined (realm w)
    then (Ok tt, setDispatched (dispatched w ++ [detail]) w)
    else (Ok tt, w).

Definition _getExecutionContext (r : Realm) : Context :=
  if isWorkerGlobalScope r then worker
  else if windowDefined r then window
  else unknown.

Definition _ensureInit : Eff World unit :=
  fun w =>
    match rootDir w with
    | Some _ => (Ok tt, w)
    | None =>
        match initPromise w with
        | Some settled => (settled, w)
        | None =>
            let c := _getExecutionContext (realm w) in
            match c with
            | unknown =>
                (Err UnsupportedContext,
                 setInit None c (Some (Err UnsupportedContext)) w)
            | _ =>
                if negb (getDirectorySupported w)
                then (Err OpfsNotSupported,
                      setInit None c (Some (Err OpfsNotSupported)) w)
                else (Ok tt, setInit (Some []) c (Some (Ok tt)) w)
            end
        end
    end.

(** [if (!this.rootDir) throw new Error("OPFS not initialized")] *)
Definition requireRoot : Eff World (list string) :=
  fun w => match rootDir w with
           | Some root => (Ok root, w)
           | None => (Err OpfsNotInitialized, w)
           end.

Definition _ensureDirectory (path : string) (create : bool)
  : Eff World (list string * string) :=
  let! root := requireRoot in
  let '(fileName, parts) := pop (pathParts path) in
  match fileName with
  | None => throw InvalidFilePath
  | Some fileName =>
      let! dirHandle :=
        forEachM (fun dirHandle part =>
                    fsCall (getDirectoryHandle dirHandle part create))
                 parts root in
      ret (dirHandle, fileName)
  end.

Definition saveFile (path : string) (data : Data) : Eff World unit :=
  run! _ensureInit in
  let! _ := requireRoot in
  let! '(dirHandle, fileName) := _ensureDirectory path true in
  let! fileHandle := fsCall (getFileHandle dirHandle fileName true) in
  let! w := get in
  run! match context w with
       | worker =>
           let buffer :=
             match data with
             | DString s => TextEncoder_encode s
             | DArrayBuffer b => b
             | DView b off len => ArrayBuffer_slice b off (off + len)
             | DBlob b => Blob_arrayBuffer b
             end in
           run! fsCall (sync_truncate fileHandle 0) in
           let! _ := fsCall (sync_write fileHandle buffer 0) in
           ret tt
       | _ =>
           let! writable := fsCall (createWritable fileHandle) in
           let! writable := fsCall (Writable_write writable data) in
           fsCall (Writable_close writable)
       end in
  emitChange {| type_ := file_added; path_ := path |}.

Definition readFile (path : string) : Eff World (list byte) :=
  run! _ensureInit in
  let! _ := requireRoot in
  let! '(dirHandle, fileName) := _ensureDirectory path false in
  let! fileHandle := fsCall (getFileHandle dirHandle fileName false) in
  let! w := get in
  match context w with
  | worker =>
      let! size := fsCall (sync_getSize fileHandle) in
      fsCall (sync_read fileHandle size 0)
  | _ => fsCall (File_arrayBuffer fileHandle)
  end.

(** The handle of [path], from the root, without creating anything. *)
Definition navigate (path : string) : Eff World (list string) :=
  let! root := requireRoot in
  if truthy path
  then forEachM (fun dirHandle part =>
                   fsCall (getDirectoryHandle dirHandle part false))
                (pathParts path) root
  else ret root.

Definition isDirectory (e : string * Node) : bool :=
  match snd e with DirNode => true | FileNode _ => false end.

Definition isFile (e : string * Node) : bool :=
  match snd e with FileNode _ => true | DirNode => false end.

Definition listDirectories (path : string) : Eff World (list string) :=
  run! _ensureInit in
  let! dirHandle := navigate path in
  let! es := fsCall (entries dirHandle) in
  ret (map fst (List.filter isDirectory es)).

Definition listFiles (path : string) : Eff World (list string) :=
  run! _ensureInit in
  let! dirHandle := navigate path in
  let! es := fsCall (entries dirHandle) in
  ret (map fst (List.filter isFile es)).

Record FileDetails : Type := { exists_ : bool; size_ : nat }.

(** The [try] block of [getFileDetails]. *)
Definition getFileDetailsTry (path : string) : Eff World FileDetails :=
  run! _ensureInit in
  let! w := get in
  match rootDir w with
  | None => ret {| exists_ := false; size_ := 0 |}
  | Some _ =>
      let! '(dirHandle, fileName) := _ensureDirectory path false in
      let! fileHandle := fsCall (getFileHandle dirHandle fileName false) in
      let! w := get in
      match context w with
      | worker =>
          let! size := fsCall (sync_getSize fileHandle) in
          ret {| exists_ := true; size_ := size |}
      | _ =>
          let! size := fsCall (getFile_size fileHandle) in
          ret {| exists_ := true; size_ := size |}
      end
  end.

(** [try { ... } catch { return { exists: false, size: 0 } }] *)
Definition getFileDetails (path : string) (w : World) : FileDetails * World :=
  match getFileDetailsTry path w with
  | (Ok details, w') => (details, w')
  | (Err _, w') => ({| exists_ := false; size_ := 0 |}, w')
  end.

(** The calls that a deleting operation shares with the others. *)
Definition raising {A} (m : Eff World A) (w : World)
    (k : A -> World -> option DeleteError * World)
  : option DeleteError * World :=
  match m w with
  | (Ok a, w') => k a w'
  | (Err e, w') => (Some (Raised e), w')
  end.

Definition deleteFile (path : string) (w : World)
  : option DeleteError * World :=
  raising _ensureInit w (fun _ w =>
  raising requireRoot w (fun _ w =>
  raising (_ensureDirectory path false) w (fun '(dirHandle, fileName) w =>
  match removeEntry dirHandle fileName false (disk w) with
  | (Some e, d) => (Some e, setDisk d w)
  | (None, d) =>
      (None,
       snd (emitChange {| type_ := file_deleted; path_ := path |}
              (setDisk d w)))
  end))).

Definition deleteDirectory (path : string) (w : World)
  : option DeleteError * World :=
  raising _ensureInit w (fun _ w =>
  raising requireRoot w (fun root w =>
  let '(dirName, parts) := pop (pathParts path) in
  match dirName with
  | None => (Some InvalidDirectoryPath, w)
  | Some dirName =>
      raising (forEachM (fun parentHandle part =>
                           fsCall (getDirectoryHandle parentHandle part false))
                        parts root) w (fun parentHandle w =>
      match removeEntry parentHandle dirName true (disk w) with
      | (Some e, d) => (Some e, setDisk d w)
      | (None, d) =>
          (None,
           snd (emitChange {| type_ := directory_deleted; path_ := path |}
                  (setDisk d w)))
      end)
  end)).

End OpfsStorage.

(** ** Audio metadata ([src/utils/audio.ts]) *)

(** The sidecar record.  The optional [duration] and [metadata] fields are
    never written by this program and are left out. *)
Record AudioMetadata : Type :=
  { name : string;
    folderName : string;
    fileName : string;
    color : string;
    cover : string;
    size : Z;
    mimeType : string;
    uploadedAt : Z;
    lastModified : Z }.

(** A [File] handed over by the picker or a drop. *)
Record File : Type :=
  { file_name : string;
    file_type : string;
    file_lastModified : Z;
    file_content : list byte }.

Definition file_size (f : File) : Z := Z.of_nat (length (file_content f)).

Definition AUDIO_MIME_TYPES : list (string * string) :=
  [ ("mp3", "audio/mpeg"); ("wav", "audio/wav");
    ("ogg", "audio/ogg"); ("oga", "audio/ogg");
    ("aac", "audio/aac"); ("m4a", "audio/mp4");
    ("m4b", "audio/mp4"); ("m4p", "audio/mp4");
    ("flac", "audio/flac"); ("alac", "audio/x-alac");
    ("weba", "audio/webm"); ("aiff", "audio/aiff");
    ("aif", "audio/aiff"); ("aifc", "audio/aiff");
    ("opus", "audio/opus"); ("wma", "audio/x-ms-wma");
    ("au", "audio/basic"); ("snd", "audio/basic");
    ("mid", "audio/midi"); ("midi", "audio/midi");
    ("kar", "audio/midi"); ("rmi", "audio/midi");
    ("3gp", "audio/3gpp"); ("3ga", "audio/3gpp");
    ("m3u", "audio/x-mpegurl"); ("m3u8", "audio/x-mpegurl");
    ("mp1", "audio/mpeg"); ("mp2", "audio/mpeg");
    ("mpa", "audio/mpeg"); ("ra", "audio/x-realaudio");
    ("ram", "audio/x-pn-realaudio"); ("rm", "audio/x-pn-realaudio");
    ("ape", "audio/x-monkeys-audio"); ("wv", "audio/x-wavpack");
    ("tta", "audio/x-tta"); ("dts", "audio/vnd.dts");
    ("dtshd", "audio/vnd.dts.hd"); ("ac3", "audio/ac3");
    ("eac3", "audio/eac3"); ("amr", "audio/amr");
    ("awb", "audio/amr-wb"); ("voc", "audio/x-voc");
    ("spx", "audio/ogg") ].

Fixpoint lookupKey (k : string) (t : list (string * string)) : option string :=
  match t with
  | [] => None
  | (k', v) :: t' => if String.eqb k k' then Some v else lookupKey k t'
  end.

(** [s.split(".").pop()]: the part after the last dot, or all of [s]. *)
Definition lastSegment (s : string) : string :=
  match fst (pop (String_split "." s)) with
  | Some ext => ext
  | None => EmptyString
  end.

(** [AUDIO_MIME_TYPES[ext || ""] || "audio/mp3"].  (For an extension that
    spells an inherited key the table yields an object that is no string;
    the model answers the default there.) *)
Definition getMimeTypeFromExtension (fileName : string) : string :=
  let ext := lastSegment (toLowerCase fileName) in
  match lookupKey ext AUDIO_MIME_TYPES with
  | Some m => m
  | None => "audio/mp3"
  end.

(** [Object.values(AUDIO_MIME_TYPES)] *)
Definition validMimeTypes : list string := map snd AUDIO_MIME_TYPES.

(** [ext in AUDIO_MIME_TYPES]: own keys, and the keys every object
    inherits that a lower-case extension can spell. *)
Definition inAudioMimeTypes (ext : string) : bool :=
  match lookupKey ext AUDIO_MIME_TYPES with Some _ => true | None => false end
  || String.eqb ext "constructor" || String.eqb ext "__proto__".

Definition isValidAudioFile (file : File) : bool :=
  let mimeType := file_type file in
  let fileName := toLowerCase (file_name file) in
  let ext := lastSegment fileName in
  if truthy mimeType
  then String.prefix "audio/" mimeType
       || existsb (String.eqb mimeType) validMimeTypes
  else truthy ext && inAudioMimeTypes ext.

(** [s.replace(/\.[^/.]+$/, "")]: [Some] of the string without its
    extension when the pattern matches, that is when a last dot is followed
    by at least one character, none of them a slash. *)
Fixpoint stripExtension (s : string) : option string :=
  match s with
  | EmptyString => None
  | String c r =>
      match stripExtension r with
      | Some r' => Some (String c r')
      | None =>
          if Ascii.eqb c "." && truthy r
             && negb (contains "/" r) && negb (contains "." r)
          then Some EmptyString
          else None
      end
  end.

Definition withoutExtension (s : string) : string :=
  match stripExtension s with Some s' => s' | None => s end.

(** What the environment supplies to an upload: [Date.now()], the three
    [Math.floor(Math.random() * k)] draws of [generateAudioColor], and
    [window.location.origin]. *)
Record Ambient : Type :=
  { Date_now : Z;
    draw360 : Z;
    draw20 : Z;
    draw20' : Z;
    location_origin : string }.

Definition Z_toString (z : Z) : string :=
  DecimalString.NilZero.string_of_int (Z.to_int z).

Definition generateAudioColor (env : Ambient) : string :=
  let hue := draw360 env in
  let saturation := (70 + draw20 env)%Z in
  let lightness := (50 + draw20' env)%Z in
  "hsl(" +:+ Z_toString hue +:+ ", " +:+ Z_toString saturation +:+ "%, "
  +:+ Z_toString lightness +:+ "%)".

Definition createAudioMetadata (env : Ambient) (file : File)
    (folderName thumbnail : string) : AudioMetadata :=
  {| name := withoutExtension (file_name file);
     folderName := folderName;
     fileName := file_name file;
     color := generateAudioColor env;
     size := file_size file;
     mimeType := if truthy (file_type file) then file_type file
                 else getMimeTypeFromExtension (file_name file);
     uploadedAt := Date_now env;
     lastModified := file_lastModified file;
     cover := thumbnail |}.

(** [JSON.stringify(metadata, null, 2)] and
    [JSON.parse(text) as AudioMetadata] ([None] when it throws). *)
Class Json : Type :=
  { JSON_stringify : AudioMetadata -> string;
    JSON_parse : string -> option AudioMetadata }.

(** ** Upload ([src/components/AddNew/AddNew.tsx]) *)

Module AddNew.

Definition getAudioFolderName (file : File) : string :=
  withoutExtension (file_name file).

(** Returns the notices shown with [alert], and the store.  [isUploading]
    is true during the call and false again when it returns. *)
Definition handleFileUpload `{Json} (env : Ambient) (file : File) (w : World)
  : list string * World :=
  if negb (isValidAudioFile file)
  then (["Please upload a valid audio file"], w)
  else
    let folderName := getAudioFolderName file in
    let filePath := folderName +:+ "/" +:+ file_name file in
    let metadata :=
      createAudioMetadata env file folderName
        (location_origin env +:+ "/audio-thumbnail.jpg") in
    let metadataPath := folderName +:+ "/metadata.json" in
    let metadataJson := JSON_stringify metadata in
    match (run! OpfsStorage.saveFile filePath (DBlob (file_content file)) in
           OpfsStorage.saveFile metadataPath (DString metadataJson)) w with
    | (Ok _, w') => ([], w')
    | (Err _, w') => (["Failed to upload audio. Please try again."], w')
    end.

(** Any sequence of uploads. *)
Fixpoint uploadAll `{Json} (ups : list (Ambient * File)) (w : World) : World :=
  match ups with
  | [] => w
  | (env, file) :: ups' => uploadAll ups' (snd (handleFileUpload env file w))
  end.

End AddNew.

(** ** [Array.prototype.sort] (stable) with a comparator

    [cmp a b < 0] puts [a] first; elements that compare equal keep their
    order. *)

Fixpoint sortInsert {A} (cmp : A -> A -> Z) (x : A) (l : list A) : list A :=
  match l with
  | [] => [x]
  | y :: l' => if (cmp x y <=? 0)%Z then x :: y :: l'
               else y :: sortInsert cmp x l'
  end.

Fixpoint Array_sort {A} (cmp : A -> A -> Z) (l : list A) : list A :=
  match l with
  | [] => []
  | x :: l' => sortInsert cmp x (Array_sort cmp l')
  end.

(** ** The catalog hook ([useOpfsDirectories]) *)

Module useOpfsDirectories.

Record State : Type :=
  { folders : list AudioMetadata;
    isLoading : bool;
    error : option Error }.

Definition initialState : State :=
  {| folders := []; isLoading := true; error := None |}.

(** Read and parse the sidecar of one folder. *)
Definition readMetadata `{Json} (folder : string) : Eff World AudioMetadata :=
  let metadataPath := folder +:+ "/metadata.json" in
  let! buffer := OpfsStorage.readFile metadataPath in
  let text := TextDecoder_decode buffer in
  match JSON_parse text with
  | Some m => ret m
  | None => throw SyntaxError
  end.

(** [(a, b) => b.uploadedAt - a.uploadedAt] *)
Definition byUploadedAtDesc (a b : AudioMetadata) : Z :=
  (uploadedAt b - uploadedAt a)%Z.

(** The [try] block of [loadFolders]. *)
Definition loadFoldersTry `{Json} : Eff World (list AudioMetadata) :=
  let! directories := OpfsStorage.listDirectories "" in
  let! foldersWithMetadata := promiseAll readMetadata directories in
  ret (Array_sort byUploadedAtDesc foldersWithMetadata).

Definition loadFolders `{Json} (st : State) (w : World) : State * World :=
  match loadFoldersTry w with
  | (Ok foldersWithMetadata, w') =>
      ({| folders := foldersWithMetadata; isLoading := false; error := None |},
       w')
  | (Err err, w') =>
      ({| folders := folders st; isLoading := false; error := Some err |}, w')
  end.

(** Every kind of change event reloads. *)
Definition handleOpfsChange `{Json} (event : OpfsChangeDetail) (st : State)
    (w : World) : State * World :=
  match type_ event with
  | file_added | directory_added | file_deleted | directory_deleted =>
      loadFolders st w
  end.

(** The body of the per-folder [try] of [getAllFiles]. *)
Definition readFolder `{Json} (folderName : string)
  : Eff World (option (AudioMetadata * list byte)) :=
  let! files := OpfsStorage.listFiles folderName in
  match List.find (fun file => negb (String.eqb file "metadata.json")) files with
  | None => ret None
  | Some audioFile =>
      let! metadata := readMetadata folderName in
      let audioPath := folderName +:+ "/" +:+ audioFile in
      let! buffer := OpfsStorage.readFile audioPath in
      ret (Some (metadata, buffer))
  end.

(** [try { ... } catch (err) { return null }] *)
Definition catchNull {S A} (m : Eff S (option A)) : Eff S (option A) :=
  fun s => match m s with
           | (Ok x, s') => (Ok x, s')
           | (Err _, s') => (Ok None, s')
           end.

Definition getAllFiles `{Json} : Eff World (list (AudioMetadata * list byte)) :=
  let! directories := OpfsStorage.listDirectories "" in
  let! buffers := promiseAll (fun folderName => catchNull (readFolder folderName))
                             directories in
  ret (Array_sort (fun a b => (uploadedAt (fst b) - uploadedAt (fst a))%Z)
                  (omap id buffers)).

(** What one folder gives to [getAllFiles]: its entry, or nothing when the
    folder has no payload or anything in it fails to read. *)
Definition folderItem `{Json} (w : World) (folderName : string)
  : option (AudioMetadata * list byte) :=
  match fst (readFolder folderName w) with
  | Ok item => item
  | Err _ => None
  end.


End useOpfsDirectories.

(** ** Numbers and the audio engine (platform)

    The scheduler computes with JS numbers.  The model is generic in the
    arithmetic: whatever is proved holds for IEEE doubles as well as for
    exact rationals.  [a > b] is [ltb b a], [a >= b] is [leb b a]. *)

Class Number : Type :=
  { num : Type;
    ofZ : Z -> num;                 (* integer literals *)
    add : num -> num -> num;
    sub : num -> num -> num;
    div : num -> num -> num;
    leb : num -> num -> bool;
    ltb : num -> num -> bool }.

Definition zero `{Number} : num := ofZ 0.

Module AudioBuffer.
Record t `{Number} : Type := { duration : num }.
End AudioBuffer.

(** [audioCtx.decodeAudioData(buffer)]: [None] when the promise rejects. *)
Class AudioEngine `{Number} : Type :=
  { decodeAudioData : list byte -> option AudioBuffer.t }.

Inductive AudioContextState : Type := running | suspended | closed.

(** A started [AudioBufferSourceNode]: its buffer, the gain node it is
    connected to, the time given to [start], and whether an [onended]
    handler is attached. *)
Record SourceNode `{Number} : Type :=
  { buffer : AudioBuffer.t;
    destination : nat;
    when : num;
    onended : bool }.

Record AudioContext `{Number} : Type :=
  { state : AudioContextState;
    sources : list SourceNode }.

(** ** The playback scheduler ([StitchAudio]) *)

Module StitchAudio.

Module Timer.
Record t `{Number} : Type :=
  { duration : num;
    startTime : num;
    volume : num;
    filesLen : nat }.
End Timer.

Section Scheduler.
Context `{Engine : AudioEngine}.
Context `{Codec : Json}.

(** The refs and the React state of the component.  A [GainNode] is its
    index in [gainNodes], so that the ref and the sources share it. *)
Record Store : Type :=
  { audioCtxRef : option AudioContext;
    gainNodes : list num;
    gainNodeRef : option nat;
    animationRef : option nat;
    frames : nat;                    (* ids given by requestAnimationFrame *)
    playbackTimerRef : Timer.t;
    isPlaying : bool;
    currTime : num;
    duration : num;
    isStitching : bool }.

Definition initialStore : Store :=
  {| audioCtxRef := None; gainNodes := []; gainNodeRef := None;
     animationRef := None; frames := 0;
     playbackTimerRef :=
       {| Timer.duration := ofZ 0; Timer.startTime := ofZ 0;
          Timer.volume := ofZ 80; Timer.filesLen := 0 |};
     isPlaying := false; currTime := ofZ 0; duration := ofZ 0;
     isStitching := false |}.

Definition setAudioCtx (c : option AudioContext) (s : Store) : Store :=
  {| audioCtxRef := c; gainNodes := gainNodes s; gainNodeRef := gainNodeRef s;
     animationRef := animationRef s; frames := frames s;
     playbackTimerRef := playbackTimerRef s; isPlaying := isPlaying s;
     currTime := currTime s; duration := duration s;
     isStitching := isStitching s |}.

Definition setGain (nodes : list num) (ref : option nat) (s : Store) : Store :=
  {| audioCtxRef := audioCtxRef s; gainNodes := nodes; gainNodeRef := ref;
     animationRef := animationRef s; frames := frames s;
     playbackTimerRef := playbackTimerRef s; isPlaying := isPlaying s;
     currTime := currTime s; duration := duration s;
     isStitching := isStitching s |}.

Definition setAnimation (a : option nat) (n : nat) (s : Store) : Store :=
  {| audioCtxRef := audioCtxRef s; gainNodes := gainNodes s;
     gainNodeRef := gainNodeRef s; animationRef := a; frames := n;
     playbackTimerRef := playbackTimerRef s; isPlaying := isPlaying s;
     currTime := currTime s; duration := duration s;
     isStitching := isStitching s |}.

Definition setTimer (t : Timer.t) (s : Store) : Store :=
  {| audioCtxRef := audioCtxRef s; gainNodes := gainNodes s;
     gainNodeRef := gainNodeRef s; animationRef := animationRef s;
     frames := frames s; playbackTimerRef := t; isPlaying := isPlaying s;
     currTime := currTime s; duration := duration s;
     isStitching := isStitching s |}.

Definition setIsPlaying (b : bool) (s : Store) : Store :=
  {| audioCtxRef := audioCtxRef s; gainNodes := gainNodes s;
     gainNodeRef := gainNodeRef s; animationRef := animationRef s;
     frames := frames s; playbackTimerRef := playbackTimerRef s;
     isPlaying := b; currTime := currTime s; duration := duration s;
     isStitching := isStitching s |}.

Definition setCurrTime (t : num) (s : Store) : Store :=
  {| audioCtxRef := audioCtxRef s; gainNodes := gainNodes s;
     gainNodeRef := gainNodeRef s; animationRef := animationRef s;
     frames := frames s; playbackTimerRef := playbackTimerRef s;
     isPlaying := isPlaying s; currTime := t; duration := duration s;
     isStitching := isStitching s |}.

Definition setDuration (t : num) (s : Store) : Store :=
  {| audioCtxRef := audioCtxRef s; gainNodes := gainNodes s;
     gainNodeRef := gainNodeRef s; animationRef := animationRef s;
     frames := frames s; playbackTimerRef := playbackTimerRef s;
     isPlaying := isPlaying s; currTime := currTime s; duration := t;
     isStitching := isStitching s |}.

Definition setIsStitching (b : bool) (s : Store) : Store :=
  {| audioCtxRef := audioCtxRef s; gainNodes := gainNodes s;
     gainNodeRef := gainNodeRef s; animationRef := animationRef s;
     frames := frames s; playbackTimerRef := playbackTimerRef s;
     isPlaying := isPlaying s; currTime := currTime s; duration := duration s;
     isStitching := b |}.

(** [new AudioContext()] *)
Definition newAudioContext : AudioContext :=
  {| state := running; sources := [] |}.

Definition withState (st : AudioContextState) (c : AudioContext)
  : AudioContext :=
  {| state := st; sources := sources c |}.

Definition createNewAudioContext (s : Store) : Store :=
  setAudioCtx (Some newAudioContext) s.

Definition getAudioContext (s : Store) : AudioContext * Store :=
  match audioCtxRef s with
  | Some c => (c, s)
  | None => (newAudioContext, createNewAudioContext s)
  end.

(** The gain node of a session: created in the current context, set from
    the stored volume, and kept in [gainNodeRef]. *)
Definition getGainNode (s : Store) : nat * Store :=
  let '(_, s) := getAudioContext s in
  let gainNode := length (gainNodes s) in
  let value := div (Timer.volume (playbackTimerRef s)) (ofZ 100) in
  (gainNode, setGain (gainNodes s ++ [value]) (Some gainNode) s).

(** [if (animationRef.current) { cancelAnimationFrame(...); ... = null }] *)
Definition cancelFrame (s : Store) : Store :=
  match animationRef s with
  | Some (S _) => setAnimation None (frames s) s
  | _ => s
  end.

(** [await audioCtx.suspend()]: rejects on a closed context. *)
Definition suspend : Eff Store unit :=
  fun s =>
    let '(c, s) := getAudioContext s in
    match state c with
    | closed => (Err InvalidStateError, s)
    | _ => (Ok tt, setAudioCtx (Some (withState suspended c)) s)
    end.

Definition stopPlayback : Eff Store unit :=
  run! modify (fun s => snd (getAudioContext s)) in
  run! modify (setIsPlaying false) in
  run! suspend in
  modify cancelFrame.

Definition endPlayback (s : Store) : Store :=
  let s := setIsPlaying false s in
  let s :=
    match audioCtxRef s with
    | Some c =>
        match state c with
        | closed => s
        | _ => setAudioCtx (Some (withState closed c)) s
        end
    | None => s
    end in
  let s := createNewAudioContext s in
  let t := playbackTimerRef s in
  let s := setTimer {| Timer.duration := ofZ 0; Timer.filesLen := 0;
                       Timer.startTime := ofZ 0;
                       Timer.volume := Timer.volume t |} s in
  let s := setCurrTime (ofZ 0) s in
  let s := setDuration (ofZ 0) s in
  cancelFrame s.

(** [animationRef.current = requestAnimationFrame(...)] *)
Definition requestFrame (s : Store) : Store :=
  setAnimation (Some (S (frames s))) (S (frames s)) s.

(** One run of the polling loop; [now] is [audioCtx.currentTime]. *)
Definition updatePlaybackTime (now : num) : Eff Store unit :=
  run! modify (fun s => snd (getAudioContext s)) in
  let! s := get in
  let duration := Timer.duration (playbackTimerRef s) in
  let startTime := Timer.startTime (playbackTimerRef s) in
  let elapsedTime := sub now startTime in
  if ltb duration elapsedTime
  then stopPlayback
  else
    run! (if leb elapsedTime duration && leb zero elapsedTime
          then modify (setCurrTime elapsedTime)
          else ret tt) in
    modify requestFrame.

(** The scheduling loop: each buffer starts at the running [startTime],
    which then grows by the buffer's duration. *)
Fixpoint scheduleAll (gainNode : nat) (audioBuffers : list AudioBuffer.t)
    (startTime : num) : list SourceNode :=
  match audioBuffers with
  | [] => []
  | b :: rest =>
      {| buffer := b; destination := gainNode; when := startTime;
         onended := false |}
      :: scheduleAll gainNode rest (add startTime (AudioBuffer.duration b))
  end.

(** [if (lastSourceNode) lastSourceNode.onended = ...] *)
Fixpoint attachOnended (l : list SourceNode) : list SourceNode :=
  match l with
  | [] => []
  | [n] => [{| buffer := buffer n; destination := destination n;
               when := when n; onended := true |}]
  | n :: l' => n :: attachOnended l'
  end.

Definition decodeAll (data : list (AudioMetadata * list byte))
  : Eff Store (list AudioBuffer.t) :=
  promiseAll (fun item => match decodeAudioData (snd item) with
                          | Some b => ret b
                          | None => throw EncodingError
                          end) data.

(** [audioBuffers.reduce((sum, buffer) => sum + buffer.duration, 0)] *)
Definition totalDurationOf (audioBuffers : list AudioBuffer.t) : num :=
  fold_left (fun sum b => add sum (AudioBuffer.duration b)) audioBuffers zero.

Definition inWorld {A} (m : Eff World A) : Eff (World * Store) A :=
  fun ws => let '(r, w) := m (fst ws) in (r, (w, snd ws)).

Definition inStore {A} (m : Eff Store A) : Eff (World * Store) A :=
  fun ws => let '(r, s) := m (snd ws) in (r, (fst ws, s)).

(** The play button.  [t0] is [audioCtx.currentTime] as read when the
    timeline is laid out (or by the resumed loop), [t1] as read by the
    first run of the polling loop after it. *)
Definition onPlayClick (t0 t1 : num) : Eff (World * Store) unit :=
  run! inStore (modify (fun s => snd (getAudioContext s))) in
  let! ws := get in
  let audioCtx := fst (getAudioContext (snd ws)) in
  match state audioCtx with
  | suspended =>
      run! inStore (modify (setAudioCtx (Some (withState running audioCtx)))) in
      run! inStore (modify (setIsPlaying true)) in
      inStore (updatePlaybackTime t0)
  | _ =>
      if isPlaying (snd ws) then inStore stopPlayback
      else
        run! inStore (modify endPlayback) in
        run! inStore (modify (setIsStitching true)) in
        let! data := inWorld useOpfsDirectories.getAllFiles in
        run! inStore (modify (fun s =>
               let t := playbackTimerRef s in
               setTimer {| Timer.duration := Timer.duration t;
                           Timer.startTime := Timer.startTime t;
                           Timer.volume := Timer.volume t;
                           Timer.filesLen := length data |} s)) in
        let! audioBuffers := inStore (decodeAll data) in
        let totalDuration := totalDurationOf audioBuffers in
        run! inStore (modify (setDuration totalDuration)) in
        let startTime := t0 in
        run! inStore (modify (fun s =>
               let t := playbackTimerRef s in
               setTimer {| Timer.duration := totalDuration;
                           Timer.startTime := startTime;
                           Timer.volume := Timer.volume t;
                           Timer.filesLen := Timer.filesLen t |} s)) in
        let! gainNode := inStore (fun s => let '(g, s) := getGainNode s in
                                           (Ok g, s)) in
        run! inStore (modify (fun s =>
               let '(c, s) := getAudioContext s in
               setAudioCtx
                 (Some {| state := state c;
                          sources := sources c ++ attachOnended
                            (scheduleAll gainNode audioBuffers startTime) |})
                 s)) in
        run! inStore (modify (setIsPlaying true)) in
        run! inStore (modify (setIsStitching false)) in
        inStore (updatePlaybackTime t1)
  end.

(** The slider. *)
Definition handleVolumeChange (newVolume : num) (s : Store) : Store :=
  let t := playbackTimerRef s in
  let s := setTimer {| Timer.duration := Timer.duration t;
                       Timer.startTime := Timer.startTime t;
                       Timer.volume := newVolume;
                       Timer.filesLen := Timer.filesLen t |} s in
  match gainNodeRef s with
  | Some g => setGain (<[g := div newVolume (ofZ 100)]> (gainNodes s))
                      (gainNodeRef s) s
  | None => s
  end.

(** The effect that runs when [folders] changes. *)
Definition foldersEffect (folders : list AudioMetadata) (s : Store) : Store :=
  if (Timer.filesLen (playbackTimerRef s) =? 0)%nat
     || (length folders =? Timer.filesLen (playbackTimerRef s))%nat
  then s
  else endPlayback s.

(** The [onended] handler of the last source. *)
Definition sourceEnded : Eff Store unit :=
  run! stopPlayback in
  fun s =>
    let '(c, s) := getAudioContext s in
    match state c with
    | closed => (Err InvalidStateError, s)
    | _ => (Ok tt, setAudioCtx (Some (withState closed c)) s)
    end.

End Scheduler.
End StitchAudio.

(** ** Derived notions used to state the properties *)

Section Notions.
Context `{Engine : AudioEngine}.
Import StitchAudio.


(** The store when the timeline of [bufs] has been laid out at [t0] for [n]
    tracked entries, before the first run of the polling loop. *)
Definition laidOut (t0 : num) (n : nat) (bufs : list AudioBuffer.t)
    (s : Store) : Store :=
  {| audioCtxRef :=
       Some {| state := running;
               sources := attachOnended
                            (scheduleAll (length (gainNodes s)) bufs t0) |};
     gainNodes := gainNodes s
                  ++ [div (Timer.volume (playbackTimerRef s)) (ofZ 100)];
     gainNodeRef := Some (length (gainNodes s));
     animationRef := animationRef (endPlayback s);
     frames := frames s;
     playbackTimerRef :=
       {| Timer.duration := totalDurationOf bufs; Timer.startTime := t0;
          Timer.volume := Timer.volume (playbackTimerRef s);
          Timer.filesLen := n |};
     isPlaying := true;
     currTime := ofZ 0;
     duration := totalDurationOf bufs;
     isStitching := false |}.

(** The store a failed decode leaves behind. *)
Definition abandoned (n : nat) (s : Store) : Store :=
  {| audioCtxRef := Some newAudioContext;
     gainNodes := gainNodes s;
     gainNodeRef := gainNodeRef s;
     animationRef := animationRef (endPlayback s);
     frames := frames s;
     playbackTimerRef :=
       {| Timer.duration := ofZ 0; Timer.startTime := ofZ 0;
          Timer.volume := Timer.volume (playbackTimerRef s);
          Timer.filesLen := n |};
     isPlaying := false;
     currTime := ofZ 0;
     duration := ofZ 0;
     isStitching := true |}.

Definition startOffsets (c : AudioContext) : list num := map when (sources c).

(** [d1 + ... + dn], added from the left, starting from 0. *)
Definition sumOf (ds : list num) : num := fold_left add ds zero.

End Notions.

(** Walking down from [dir] through [parts], as the loops of
    [_ensureDirectory], [listDirectories] and [listFiles] do. *)
Definition walk (create : bool) (parts : list string) (dir : list string)
  : Eff (gmap (list string) Node) (list string) :=
  forEachM (fun dirHandle part => getDirectoryHandle dirHandle part create)
           parts dir.

(** Every directory of [d] is a directory of [d']. *)
Definition keepsDirs (d d' : gmap (list string) Node) : Prop :=
  forall k, d !! k = Some DirNode -> d' !! k = Some DirNode.

(** The file system takes [parts] below [dir] as the path of a file: every
    name is valid, no directory segment names a file, and the last segment
    does not name a directory. *)
Fixpoint accepts (d : gmap (list string) Node) (dir : list string)
    (parts : list string) : bool :=
  match parts with
  | [] => false
  | [fileName] =>
      validName fileName
      && match d !! (dir ++ [fileName]) with
         | Some DirNode => false
         | _ => true
         end
  | p :: ps =>
      validName p
      && match d !! (dir ++ [p]) with
         | Some (FileNode _) => false
         | _ => true
         end
      && accepts d (dir ++ [p]) ps
  end.

(** The files of a folder that are the sidecar, and those that are not. *)
Definition sidecars (files : list string) : list string :=
  List.filter (fun f => String.eqb f "metadata.json") files.

Definition payloadFiles (files : list string) : list string :=
  List.filter (fun f => negb (String.eqb f "metadata.json")) files.

(** The engine has no root yet, or the root of the file system. *)
Definition wellRooted (w : World) : Prop :=
  rootDir w = None \/ rootDir w = Some [].

(** The shape of the store that uploads build: files at the root, folders
    at the root, and files in these folders. *)
Definition shallow (d : gmap (list string) Node) : Prop :=
  forall k v, d !! k = Some v ->
    (exists n, k = [n])
    \/ (exists dir n c, k = [dir; n] /\ v = FileNode c
                        /\ d !! [dir] = Some DirNode).

(** Every folder at the root has a valid name. *)
Definition validFolders (d : gmap (list string) Node) : Prop :=
  forall dir, d !! [dir] = Some DirNode -> validName dir = true.

(** Every folder holds its sidecar and a file that was uploaded under the
    folder's name, and nothing but the sidecar and such files. *)
Definition furnished (d : gmap (list string) Node) (names : list string)
  : Prop :=
  forall dir, d !! [dir] = Some DirNode ->
    (exists c, d !! [dir; "metadata.json"] = Some (FileNode c))
    /\ (exists n, In n names /\ withoutExtension n = dir
                  /\ d !! [dir; n] <> None)
    /\ (forall n, d !! [dir; n] <> None ->
           n = "metadata.json"
           \/ (In n names /\ withoutExtension n = dir)).

(** ** The component as a transition system

    What can happen to the player: a click on the play button, a run of
    the polling loop, a move of the slider, a new [folders] value, the end
    of the last source, and anything another component does to the
    store of files. *)

Section Transitions.
Context `{Engine : AudioEngine}.
Context `{Codec : Json}.
Import StitchAudio.

Inductive step : World * Store -> World * Store -> Prop :=
| step_click (t0 t1 : num) (ws : World * Store) :
    step ws (snd (onPlayClick t0 t1 ws))
| step_tick (now : num) (w : World) (s : Store) :
    step (w, s) (w, snd (updatePlaybackTime now s))
| step_volume (v : num) (w : World) (s : Store) :
    step (w, s) (w, handleVolumeChange v s)
| step_folders (folders : list AudioMetadata) (w : World) (s : Store) :
    step (w, s) (w, foldersEffect folders s)
| step_ended (w : World) (s : Store) :
    step (w, s) (w, snd (sourceEnded s))
| step_storage (w w' : World) (s : Store) :
    step (w, s) (w', s).

Inductive reachable : World * Store -> Prop :=
| reachable_start (w : World) : reachable (w, initialStore)
| reachable_step (ws ws' : World * Store) :
    reachable ws -> step ws ws' -> reachable ws'.

(** The reported time lies between 0 and the reported total duration. *)
Definition withinDuration (s : Store) : Prop :=
  leb zero (currTime s) = true /\ leb (currTime s) (duration s) = true.

(** The invariant behind [withinDuration]: the polling loop compares with
    the duration kept in [playbackTimerRef], which is the one shown. *)
Definition timeInvariant (s : Store) : Prop :=
  withinDuration s /\ Timer.duration (playbackTimerRef s) = duration s.

(** The sources started in the current context. *)
Definition scheduled (s : Store) : list SourceNode :=
  match audioCtxRef s with
  | Some c => sources c
  | None => []
  end.

(** Every source of the current context is connected to the gain node
    that [gainNodeRef] holds, the one the slider writes. *)
Definition wired (s : Store) : Prop :=
  Forall (fun src => gainNodeRef s = Some (destination src)
                     /\ (destination src < length (gainNodes s))%nat)
         (scheduled s).

End Transitions.

(** What the proofs about all reachable states need of the arithmetic and
    of the decoder: 0 <= 0, a sum of non-negative numbers is non-negative,
    and a decoded buffer has a non-negative duration. *)
Class NonNegative `{Engine : AudioEngine} : Prop :=
  { zero_le_zero : leb zero zero = true;
    add_nonneg : forall a b : num,
      leb zero a = true -> leb zero b = true -> leb zero (add a b) = true;
    decoded_nonneg : forall bytes b,
      decodeAudioData bytes = Some b ->
      leb zero (AudioBuffer.duration b) = true }.

(** ** Instances of the platform, to run the model on examples

    [Double]: JS numbers proper, IEEE 754 binary64.  [Sample]: exact
    rational arithmetic, where the order laws of [NonNegative] are proved;
    a stand-in decoder that gives half a second per byte and rejects an
    empty buffer; a stand-in codec that writes the fields of the sidecar
    one per line.  The general theorems below depend on none of them. *)

Module Double.

(** The integer literals of the program; exact below 2^53. *)
Definition fromZ (z : Z) : float :=
  if (z <? 0)%Z
  then PrimFloat.opp (PrimFloat.of_uint63 (Uint63.of_Z (- z)))
  else PrimFloat.of_uint63 (Uint63.of_Z z).

#[export] Instance number : Number :=
  {| num := float;
     ofZ := fromZ;
     add := PrimFloat.add;
     sub := PrimFloat.sub;
     div := PrimFloat.div;
     leb := PrimFloat.leb;
     ltb := PrimFloat.ltb |}.

(** Buffers of 1.5 and of 2.5 seconds. *)
Definition buffers : list (@AudioBuffer.t number) :=
  [ {| AudioBuffer.duration := 1.5%float |};
    {| AudioBuffer.duration := 2.5%float |} ].

End Double.

Module Sample.

#[export] Instance rational : Number :=
  {| num := Q;
     ofZ := inject_Z;
     add := Qplus;
     sub := Qminus;
     div := Qdiv;
     leb := Qle_bool;
     ltb := fun a b => negb (Qle_bool b a) |}.

#[export] Instance engine : AudioEngine :=
  {| decodeAudioData := fun b =>
       match b with
       | [] => None
       | _ => Some {| AudioBuffer.duration :=
                        Qmake (Z.of_nat (length b)) 2 |}
       end |}.

Definition newline : string := String (ascii_of_nat 10) EmptyString.

Definition parseZ (s : string) : option Z :=
  match DecimalString.NilZero.int_of_string s with
  | Some i => Some (Z.of_int i)
  | None => None
  end.

Definition stringify (m : AudioMetadata) : string :=
  String.concat newline
    [name m; folderName m; fileName m; color m; cover m; Z_toString (size m);
     mimeType m; Z_toString (uploadedAt m); Z_toString (lastModified m)].

Definition parse (s : string) : option AudioMetadata :=
  match String_split (ascii_of_nat 10) s with
  | [n; fo; fi; co; cv; sz; mt; up; lm] =>
      match parseZ sz, parseZ up, parseZ lm with
      | Some sz, Some up, Some lm =>
          Some {| name := n; folderName := fo; fileName := fi; color := co;
                  cover := cv; size := sz; mimeType := mt; uploadedAt := up;
                  lastModified := lm |}
      | _, _, _ => None
      end
  | _ => None
  end.

#[export] Instance codec : Json :=
  {| JSON_stringify := stringify; JSON_parse := parse |}.

Definition freshWorld (r : Realm) : World :=
  {| realm := r; getDirectorySupported := true; disk := ∅; dispatched := [];
     rootDir := None; context := unknown; initPromise := None |}.

(** A page in a browser without [navigator.storage.getDirectory]. *)
Definition unsupported : World :=
  {| realm := WindowRealm; getDirectorySupported := false; disk := ∅;
     dispatched := []; rootDir := None; context := unknown;
     initPromise := None |}.

Definition ambient (now : Z) : Ambient :=
  {| Date_now := now; draw360 := 200; draw20 := 5; draw20' := 7;
     location_origin := "https://example.org" |}.

Definition audioFile (n : string) (bytes : list byte) : File :=
  {| file_name := n; file_type := "audio/mpeg"; file_lastModified := 1;
     file_content := bytes |}.

(** Two uploads, of three and of five bytes. *)
Definition libraryUploads : list (Ambient * File) :=
  [(ambient 10, audioFile "first.mp3" [x01; x02; x03]);
   (ambient 20, audioFile "second.mp3" [x04; x05; x06; x07; x08])].

Definition library : World :=
  AddNew.uploadAll libraryUploads (freshWorld WindowRealm).

(** The sidecars of [library]. *)
Definition firstMeta : AudioMetadata :=
  createAudioMetadata (ambient 10) (audioFile "first.mp3" [x01; x02; x03])
    "first" "https://example.org/audio-thumbnail.jpg".

Definition secondMeta : AudioMetadata :=
  createAudioMetadata (ambient 20)
    (audioFile "second.mp3" [x04; x05; x06; x07; x08])
    "second" "https://example.org/audio-thumbnail.jpg".

(** Two uploads whose names differ in the extension only. *)
Definition namesakes : World :=
  AddNew.uploadAll
    [(ambient 10, audioFile "song.mp3" [x01]);
     (ambient 20, audioFile "song.wav" [x02])]
    (freshWorld WindowRealm).


(** [library] in the middle of a third upload: the payload is saved, the
    sidecar is not yet. *)
Definition halfUploaded : World :=
  snd (OpfsStorage.saveFile "third/third.mp3" (DBlob [x09]) library).

(** An upload of a file of no bytes next to a good one. *)
Definition brokenLibrary : World :=
  AddNew.uploadAll
    [(ambient 10, audioFile "first.mp3" [x01; x02; x03]);
     (ambient 20, audioFile "empty.mp3" [])]
    (freshWorld WindowRealm).

Definition payloadsOf (w : World) : list (AudioMetadata * list byte) :=
  match fst (useOpfsDirectories.getAllFiles w) with
  | Ok data => data
  | Err _ => []
  end.

(** [n] half seconds. *)
Definition halves (n : Z) : @num rational := Qmake n 2.

(** What [library] decodes to, newest upload first. *)
Definition libraryBuffers : list (@AudioBuffer.t rational) :=
  [ {| AudioBuffer.duration := halves 5 |};
    {| AudioBuffer.duration := halves 3 |} ].

(** The player after a click on the play button over [library], at audio
    time 7. *)
Definition playing : StitchAudio.Store :=
  {| StitchAudio.audioCtxRef :=
       Some {| state := running;
               sources :=
                 [ {| buffer := {| AudioBuffer.duration := halves 5 |};
                      destination := 0; when := ofZ 7; onended := false |};
                   {| buffer := {| AudioBuffer.duration := halves 3 |};
                      destination := 0; when := add (ofZ 7) (halves 5);
                      onended := true |} ] |};
     StitchAudio.gainNodes := [div (ofZ 80) (ofZ 100)];
     StitchAudio.gainNodeRef := Some 0%nat;
     StitchAudio.animationRef := Some 1%nat;
     StitchAudio.frames := 1;
     StitchAudio.playbackTimerRef :=
       {| StitchAudio.Timer.duration := add (add zero (halves 5)) (halves 3);
          StitchAudio.Timer.startTime := ofZ 7;
          StitchAudio.Timer.volume := ofZ 80;
          StitchAudio.Timer.filesLen := 2 |};
     StitchAudio.isPlaying := true;
     StitchAudio.currTime := ofZ 0;
     StitchAudio.duration := add (add zero (halves 5)) (halves 3);
     StitchAudio.isStitching := false |}.


(** The player after a click on the play button while the store of files
    is empty, at audio time 7. *)
Definition emptySession : StitchAudio.Store :=
  snd (snd (StitchAudio.onPlayClick (ofZ 7) (ofZ 7)
              (freshWorld WindowRealm, StitchAudio.initialStore))).

End Sample.

(** * Properties *)

(** ** The storage engine *)

Section StorageFacts.
Import OpfsStorage.

Lemma setDisk_same (w : World) : setDisk (disk w) w = w.
Proof. destruct w; reflexivity. Qed.

(** A loop of file-system calls is one file-system call. *)
Lemma forEachM_fsCall {A B} (f : B -> A -> Eff (gmap (list string) Node) B)
    (xs : list A) (acc : B) (w : World) :
  forEachM (fun b a => fsCall (f b a)) xs acc w
  = fsCall (forEachM f xs acc) w.
Proof.
  revert acc w. induction xs as [|x xs IH]; intros acc w.
  - unfold fsCall. simpl. unfold ret. rewrite setDisk_same. reflexivity.
  - simpl. unfold bind. unfold fsCall at 1 3.
    destruct (f acc x (disk w)) as [[b|e] d]; [|reflexivity].
    rewrite IH. unfold fsCall. simpl.
    destruct (forEachM f xs b d) as [r d']. reflexivity.
Qed.

(** *** Initialisation *)

Lemma ensureInit_frame (w : World) :
  let w1 := snd (_ensureInit w) in
  realm w1 = realm w /\ disk w1 = disk w /\ dispatched w1 = dispatched w
  /\ getDirectorySupported w1 = getDirectorySupported w.
Proof.
  unfold _ensureInit.
  destruct (rootDir w); [simpl; auto|].
  destruct (initPromise w); [simpl; auto|].
  destruct (_getExecutionContext (realm w));
    try destruct (getDirectorySupported w) eqn:G; simpl; auto.
Qed.

Lemma ensureInit_idem (w w1 : World) :
  _ensureInit w = (Ok tt, w1) -> _ensureInit w1 = (Ok tt, w1).
Proof.
  unfold _ensureInit.
  destruct (rootDir w) as [root|] eqn:R.
  - intros [= <-]. rewrite R. reflexivity.
  - destruct (initPromise w) as [[[]|e]|] eqn:P.
    + intros [= <-]. rewrite R, P. reflexivity.
    + discriminate.
    + destruct (_getExecutionContext (realm w));
        try destruct (getDirectorySupported w); simpl;
        try discriminate; intros [= <-]; reflexivity.
Qed.

(** *** Handles *)

Lemma keepsDirs_refl (d : gmap (list string) Node) : keepsDirs d d.
Proof. intros k Hk. exact Hk. Qed.

Lemma keepsDirs_trans (d1 d2 d3 : gmap (list string) Node) :
  keepsDirs d1 d2 -> keepsDirs d2 d3 -> keepsDirs d1 d3.
Proof. intros H12 H23 k Hk. apply H23, H12, Hk. Qed.

Lemma keepsDirs_insert_free (d : gmap (list string) Node) (k : list string)
    (n : Node) :
  d !! k = None -> keepsDirs d (<[k := n]> d).
Proof.
  intros Hnone k' Hk'. rewrite lookup_insert_ne; [exact Hk'|].
  intros ->. congruence.
Qed.

Lemma keepsDirs_insert_file (d : gmap (list string) Node) (k : list string)
    (c c' : list byte) :
  d !! k = Some (FileNode c) -> keepsDirs d (<[k := FileNode c']> d).
Proof.
  intros Hf k' Hk'. rewrite lookup_insert_ne; [exact Hk'|].
  intros ->. congruence.
Qed.

Lemma getDirectoryHandle_ok (dir : list string) (n : string) (create : bool)
    (d d' : gmap (list string) Node) (h : list string) :
  getDirectoryHandle dir n create d = (Ok h, d') ->
  h = dir ++ [n] /\ validName n = true /\ d' !! h = Some DirNode
  /\ (d' = d \/ (create = true /\ d !! h = None /\ d' = <[h := DirNode]> d)).
Proof.
  unfold getDirectoryHandle.
  destruct (validName n); simpl; [|discriminate].
  destruct (d !! (dir ++ [n])) as [[c|]|] eqn:L; try discriminate.
  - intros [= <- <-]. auto.
  - destruct create; [|discriminate]. intros [= <- <-].
    rewrite lookup_insert_eq. auto 7.
Qed.

Lemma getDirectoryHandle_found (dir : list string) (n : string)
    (create : bool) (d : gmap (list string) Node) :
  validName n = true -> d !! (dir ++ [n]) = Some DirNode ->
  getDirectoryHandle dir n create d = (Ok (dir ++ [n]), d).
Proof.
  intros Hv Hd. unfold getDirectoryHandle. rewrite Hv, Hd. reflexivity.
Qed.

Lemma getDirectoryHandle_pure (dir : list string) (n : string)
    (d : gmap (list string) Node) :
  snd (getDirectoryHandle dir n false d) = d.
Proof.
  unfold getDirectoryHandle.
  destruct (validName n); simpl; [|reflexivity].
  destruct (d !! (dir ++ [n])) as [[c|]|]; reflexivity.
Qed.

Lemma getFileHandle_ok (dir : list string) (n : string) (create : bool)
    (d d' : gmap (list string) Node) (f : list string) :
  getFileHandle dir n create d = (Ok f, d') ->
  f = dir ++ [n] /\ validName n = true
  /\ (exists c, d' !! f = Some (FileNode c))
  /\ (d' = d \/ (create = true /\ d !! f = None /\ d' = <[f := FileNode []]> d)).
Proof.
  unfold getFileHandle.
  destruct (validName n); simpl; [|discriminate].
  destruct (d !! (dir ++ [n])) as [[c|]|] eqn:L; try discriminate.
  - intros [= <- <-]. eauto 7.
  - destruct create; [|discriminate]. intros [= <- <-].
    rewrite lookup_insert_eq. eauto 9.
Qed.

Lemma getFileHandle_found (dir : list string) (n : string) (create : bool)
    (d : gmap (list string) Node) (c : list byte) :
  validName n = true -> d !! (dir ++ [n]) = Some (FileNode c) ->
  getFileHandle dir n create d = (Ok (dir ++ [n]), d).
Proof.
  intros Hv Hd. unfold getFileHandle. rewrite Hv, Hd. reflexivity.
Qed.

Lemma getFileHandle_pure (dir : list string) (n : string)
    (d : gmap (list string) Node) :
  snd (getFileHandle dir n false d) = d.
Proof.
  unfold getFileHandle.
  destruct (validName n); simpl; [|reflexivity].
  destruct (d !! (dir ++ [n])) as [[c|]|]; reflexivity.
Qed.

Lemma getFileHandle_keeps (dir : list string) (n : string) (create : bool)
    (d d' : gmap (list string) Node) (f : list string) :
  getFileHandle dir n create d = (Ok f, d') -> keepsDirs d d'.
Proof.
  intros G. apply getFileHandle_ok in G as (_ & _ & _ & [->|(_ & Hn & ->)]).
  - apply keepsDirs_refl.
  - apply keepsDirs_insert_free, Hn.
Qed.

(** *** Walks *)

Lemma walk_cons (create : bool) (p : string) (ps : list string)
    (dir : list string) (d : gmap (list string) Node) :
  walk create (p :: ps) dir d
  = match getDirectoryHandle dir p create d with
    | (Ok h, d1) => walk create ps h d1
    | (Err e, d1) => (Err e, d1)
    end.
Proof. reflexivity. Qed.

Lemma walk_ok (create : bool) (parts : list string) (dir : list string)
    (d d' : gmap (list string) Node) (h : list string) :
  walk create parts dir d = (Ok h, d') ->
  h = dir ++ parts /\ keepsDirs d d' /\ Forall (fun n => validName n = true) parts.
Proof.
  revert dir d. induction parts as [|p ps IH]; intros dir d.
  - intros [= <- <-]. rewrite app_nil_r.
    split; [reflexivity|]. split; [apply keepsDirs_refl|constructor].
  - rewrite walk_cons.
    destruct (getDirectoryHandle dir p create d) as [[h1|e] d1] eqn:G;
      [|discriminate].
    intros W. apply IH in W as (-> & K & F).
    apply getDirectoryHandle_ok in G as (-> & Hv & _ & Hd).
    rewrite <- app_assoc. split; [reflexivity|]. split; [|constructor; assumption].
    eapply keepsDirs_trans; [|exact K].
    destruct Hd as [->|(_ & Hn & ->)];
      [apply keepsDirs_refl|apply keepsDirs_insert_free, Hn].
Qed.

Lemma walk_pure (parts : list string) (dir : list string)
    (d : gmap (list string) Node) :
  snd (walk false parts dir d) = d.
Proof.
  revert dir d. induction parts as [|p ps IH]; intros dir d; [reflexivity|].
  rewrite walk_cons.
  pose proof (getDirectoryHandle_pure dir p d) as P.
  destruct (getDirectoryHandle dir p false d) as [[h1|e] d1]; simpl in P;
    subst d1; [apply IH|reflexivity].
Qed.

(** What a creating walk has made, a later walk finds again, on any disk
    that kept the directories. *)
Lemma walk_again (create create' : bool) (parts : list string)
    (dir : list string) (d d' d'' : gmap (list string) Node) (h : list string) :
  walk create parts dir d = (Ok h, d') ->
  keepsDirs d' d'' ->
  walk create' parts dir d'' = (Ok h, d'').
Proof.
  revert dir d. induction parts as [|p ps IH]; intros dir d.
  - intros [= <- <-] _. reflexivity.
  - rewrite !walk_cons.
    destruct (getDirectoryHandle dir p create d) as [[h1|e] d1] eqn:G;
      [|discriminate].
    intros W K.
    apply getDirectoryHandle_ok in G as (-> & Hv & Hd & _).
    pose proof (walk_ok _ _ _ _ _ _ W) as (_ & K1 & _).
    rewrite (getDirectoryHandle_found dir p create' d'' Hv (K _ (K1 _ Hd))).
    eapply IH; eassumption.
Qed.

(** *** [saveFile] and [readFile], step by step *)

Lemma slice_view (b : list byte) (off len : nat) :
  ArrayBuffer_slice b off (off + len) = firstn len (skipn off b).
Proof.
  unfold ArrayBuffer_slice. replace (off + len - off)%nat with len by lia.
  reflexivity.
Qed.

Lemma skipn_nil_byte (n : nat) : skipn n (@nil byte) = [].
Proof. destruct n; reflexivity. Qed.

(** The worker's write: truncate to nothing, then write at the start. *)
Lemma worker_write (f : list string) (buf c : list byte)
    (d : gmap (list string) Node) (w : World) :
  d !! f = Some (FileNode c) ->
  (run! fsCall (sync_truncate f 0) in
   let! _ := fsCall (sync_write f buf 0) in ret tt) (setDisk d w)
  = (Ok tt, setDisk (<[f := FileNode buf]> d) w).
Proof.
  intros Hc.
  unfold bind, fsCall, sync_truncate, sync_write, fileContent, bind, modify,
    ret. simpl. rewrite Hc. simpl. rewrite lookup_insert_eq. simpl.
  rewrite skipn_nil_byte, app_nil_r, insert_insert_eq. reflexivity.
Qed.

(** The page's write: a fresh stream, one chunk, close. *)
Lemma stream_write (f : list string) (data : Data) (c : list byte)
    (d : gmap (list string) Node) (w : World) :
  d !! f = Some (FileNode c) ->
  (let! writable := fsCall (createWritable f) in
   let! writable0 := fsCall (Writable_write writable data) in
   fsCall (Writable_close writable0)) (setDisk d w)
  = (Ok tt, setDisk (<[f := FileNode (dataBytes data)]> d) w).
Proof.
  intros Hc.
  unfold bind, fsCall, createWritable, Writable_write, Writable_close,
    fileContent, bind, modify, ret. simpl. rewrite Hc. reflexivity.
Qed.

(** In both contexts the write replaces the content of the file by the
    bytes of the payload. *)
Lemma saveFile_eq (path : string) (data : Data) (w : World) :
  saveFile path data w
  = match _ensureInit w with
    | (Err e, w1) => (Err e, w1)
    | (Ok _, w1) =>
        match rootDir w1 with
        | None => (Err OpfsNotInitialized, w1)
        | Some root =>
            match pop (pathParts path) with
            | (None, _) => (Err InvalidFilePath, w1)
            | (Some fileName, dirs) =>
                match walk true dirs root (disk w1) with
                | (Err e, d1) => (Err e, setDisk d1 w1)
                | (Ok h, d1) =>
                    match getFileHandle h fileName true d1 with
                    | (Err e, d2) => (Err e, setDisk d2 w1)
                    | (Ok f, d2) =>
                        emitChange {| type_ := file_added; path_ := path |}
                          (setDisk (<[f := FileNode (dataBytes data)]> d2) w1)
                    end
                end
            end
        end
    end.
Proof.
  unfold saveFile. unfold bind at 1.
  destruct (_ensureInit w) as [[[]|e] w1]; [|reflexivity].
  unfold bind at 1. unfold requireRoot at 1.
  destruct (rootDir w1) as [root|] eqn:R; [|reflexivity].
  unfold bind at 1. unfold _ensureDirectory. unfold bind at 1.
  unfold requireRoot at 1. rewrite R.
  destruct (pop (pathParts path)) as [[fileName|] dirs]; [|reflexivity].
  unfold bind at 1. rewrite forEachM_fsCall. fold (walk true dirs root).
  unfold fsCall at 1.
  destruct (walk true dirs root (disk w1)) as [[h|e] d1]; [|reflexivity].
  unfold ret at 1. unfold bind at 1. unfold fsCall at 1. simpl disk.
  destruct (getFileHandle h fileName true d1) as [[f|e] d2] eqn:G;
    [|reflexivity].
  apply getFileHandle_ok in G as (_ & _ & [c Hc] & _).
  unfold bind at 1. unfold get at 1. simpl context.
  change (setDisk d2 (setDisk d1 w1)) with (setDisk d2 w1).
  unfold bind at 1.
  destruct (context w1).
  - rewrite (worker_write f _ c d2 w1 Hc).
    destruct data; simpl; rewrite ?slice_view; reflexivity.
  - rewrite (stream_write f data c d2 w1 Hc). reflexivity.
  - rewrite (stream_write f data c d2 w1 Hc). reflexivity.
Qed.

Lemma readFile_eq (path : string) (w : World) :
  readFile path w
  = match _ensureInit w with
    | (Err e, w1) => (Err e, w1)
    | (Ok _, w1) =>
        match rootDir w1 with
        | None => (Err OpfsNotInitialized, w1)
        | Some root =>
            match pop (pathParts path) with
            | (None, _) => (Err InvalidFilePath, w1)
            | (Some fileName, dirs) =>
                match walk false dirs root (disk w1) with
                | (Err e, _) => (Err e, w1)
                | (Ok h, _) =>
                    match getFileHandle h fileName false (disk w1) with
                    | (Err e, _) => (Err e, w1)
                    | (Ok f, _) =>
                        match disk w1 !! f with
                        | Some (FileNode c) => (Ok c, w1)
                        | _ => (Err NotFoundError, w1)
                        end
                    end
                end
            end
        end
    end.
Proof.
  unfold readFile. unfold bind at 1.
  destruct (_ensureInit w) as [[[]|e] w1]; [|reflexivity].
  unfold bind at 1. unfold requireRoot at 1.
  destruct (rootDir w1) as [root|] eqn:R; [|reflexivity].
  unfold bind at 1. unfold _ensureDirectory. unfold bind at 1.
  unfold requireRoot at 1. rewrite R.
  destruct (pop (pathParts path)) as [[fileName|] dirs]; [|reflexivity].
  unfold bind at 1. rewrite forEachM_fsCall. fold (walk false dirs root).
  unfold fsCall at 1.
  pose proof (walk_pure dirs root (disk w1)) as P.
  destruct (walk false dirs root (disk w1)) as [[h|e] d1]; simpl in P;
    subst d1; rewrite setDisk_same; [|reflexivity].
  unfold ret at 1. unfold bind at 1. unfold fsCall at 1.
  pose proof (getFileHandle_pure h fileName (disk w1)) as P.
  destruct (getFileHandle h fileName false (disk w1)) as [[f|e] d2];
    simpl in P; subst d2; rewrite setDisk_same; [|reflexivity].
  unfold bind at 1. unfold get at 1.
  destruct (context w1);
    unfold bind, fsCall, sync_getSize, sync_read, File_arrayBuffer,
      fileContent, bind, ret;
    destruct (disk w1 !! f) as [[c|]|] eqn:L; simpl; rewrite ?L; simpl;
    rewrite ?setDisk_same; try reflexivity.
  rewrite firstn_all, Nat.sub_diag, app_nil_r. reflexivity.
Qed.

Lemma emitChange_frame (detail : OpfsChangeDetail) (w : World) :
  fst (emitChange detail w) = Ok tt
  /\ realm (snd (emitChange detail w)) = realm w
  /\ disk (snd (emitChange detail w)) = disk w
  /\ rootDir (snd (emitChange detail w)) = rootDir w
  /\ context (snd (emitChange detail w)) = context w
  /\ initPromise (snd (emitChange detail w)) = initPromise w
  /\ dispatched (snd (emitChange detail w))
     = if windowDefined (realm w) then dispatched w ++ [detail]
       else dispatched w.
Proof.
  unfold emitChange. destruct (windowDefined (realm w)); simpl; auto 10.
Qed.

Lemma ensureInit_rooted (w : World) (root : list string) :
  rootDir w = Some root -> _ensureInit w = (Ok tt, w).
Proof. intros R. unfold _ensureInit. rewrite R. reflexivity. Qed.

Lemma ensureInit_gives_root (w : World) (root : list string) :
  rootDir (snd (_ensureInit w)) = Some root -> fst (_ensureInit w) = Ok tt.
Proof.
  unfold _ensureInit.
  destruct (rootDir w) as [r|] eqn:R; [reflexivity|].
  destruct (initPromise w) as [settled|]; [simpl; congruence|].
  destruct (_getExecutionContext (realm w));
    try destruct (getDirectorySupported w); simpl; congruence.
Qed.

(** What a successful [saveFile] leaves behind. *)
Lemma saveFile_ok (path : string) (data : Data) (w w' : World) :
  saveFile path data w = (Ok tt, w') ->
  exists w1 root fileName dirs d1 d2,
    _ensureInit w = (Ok tt, w1)
    /\ rootDir w1 = Some root
    /\ pop (pathParts path) = (Some fileName, dirs)
    /\ walk true dirs root (disk w1) = (Ok (root ++ dirs), d1)
    /\ getFileHandle (root ++ dirs) fileName true d1
       = (Ok (root ++ dirs ++ [fileName]), d2)
    /\ w' = snd (emitChange {| type_ := file_added; path_ := path |}
                   (setDisk (<[root ++ dirs ++ [fileName]
                               := FileNode (dataBytes data)]> d2) w1)).
Proof.
  rewrite saveFile_eq.
  destruct (_ensureInit w) as [[[]|e] w1] eqn:I; [|discriminate].
  destruct (rootDir w1) as [root|] eqn:R; [|discriminate].
  destruct (pop (pathParts path)) as [[fileName|] dirs] eqn:P; [|discriminate].
  destruct (walk true dirs root (disk w1)) as [[h|e] d1] eqn:W; [|discriminate].
  destruct (getFileHandle h fileName true d1) as [[f|e] d2] eqn:G;
    [|discriminate].
  intros E.
  pose proof (walk_ok _ _ _ _ _ _ W) as (-> & _).
  pose proof (getFileHandle_ok _ _ _ _ _ _ G) as (-> & _).
  rewrite <- app_assoc in *.
  exists w1, root, fileName, dirs, d1, d2.
  repeat split; try assumption. rewrite E. reflexivity.
Qed.

Lemma accepts_agree (d d' : gmap (list string) Node) (dir : list string)
    (parts : list string) :
  (forall k, (length dir < length k)%nat -> d' !! k = d !! k) ->
  accepts d' dir parts = accepts d dir parts.
Proof.
  revert dir. induction parts as [|p ps IH]; intros dir A; [reflexivity|].
  assert (L : d' !! (dir ++ [p]) = d !! (dir ++ [p])).
  { apply A. rewrite length_app. simpl. lia. }
  simpl. rewrite L. destruct ps as [|q ps]; [reflexivity|].
  rewrite (IH (dir ++ [p])); [reflexivity|].
  intros k Hk. apply A. rewrite length_app in Hk. simpl in Hk. lia.
Qed.

Lemma accepts_walk (d : gmap (list string) Node) (dir : list string)
    (parts : list string) :
  accepts d dir parts = true ->
  exists fileName dirs d1 d2,
    pop parts = (Some fileName, dirs)
    /\ walk true dirs dir d = (Ok (dir ++ dirs), d1)
    /\ getFileHandle (dir ++ dirs) fileName true d1
       = (Ok (dir ++ dirs ++ [fileName]), d2).
Proof.
  revert d dir. induction parts as [|p ps IH]; intros d dir A; [discriminate|].
  destruct ps as [|q ps].
  - simpl in A. apply andb_true_iff in A as [Hv Hk].
    exists p, [], d. rewrite app_nil_r. simpl.
    unfold getFileHandle. rewrite Hv. simpl.
    destruct (d !! (dir ++ [p])) as [[c|]|]; try discriminate; eauto.
  - change (accepts d dir (p :: q :: ps))
      with (validName p
            && match d !! (dir ++ [p]) with
               | Some (FileNode _) => false
               | _ => true
               end
            && accepts d (dir ++ [p]) (q :: ps)) in A.
    apply andb_true_iff in A as [A Hrest].
    apply andb_true_iff in A as [Hv Hk].
    assert (G : exists d1, getDirectoryHandle dir p true d = (Ok (dir ++ [p]), d1)
                           /\ forall k, (length (dir ++ [p]) < length k)%nat ->
                                        d1 !! k = d !! k).
    { unfold getDirectoryHandle. rewrite Hv. simpl.
      destruct (d !! (dir ++ [p])) as [[c|]|] eqn:L; try discriminate.
      - exists d. auto.
      - eexists. split; [reflexivity|]. intros k Hk'.
        apply lookup_insert_ne. intros E. rewrite E in Hk'. lia. }
    destruct G as (d1 & G & Agree).
    rewrite <- (accepts_agree d d1 (dir ++ [p]) (q :: ps) Agree) in Hrest.
    destruct (IH d1 (dir ++ [p]) Hrest) as (fileName & dirs & d2 & d3 & P & W & F).
    exists fileName, (p :: dirs), d2, d3.
    split; [|split].
    + change (pop (p :: q :: ps))
        with (let '(o, r) := pop (q :: ps) in (o, p :: r)).
      rewrite P. reflexivity.
    + rewrite walk_cons, G. rewrite <- app_assoc in W. exact W.
    + rewrite <- !app_assoc in F. exact F.
Qed.

End StorageFacts.

(** ** The storage engine: the properties of the design document *)

Section StorageProperties.
Import OpfsStorage.

(** C2 (round trip).  In the worker as in the page, and for every kind of
    payload, a [readFile] that follows a completed [saveFile] of the same
    path returns exactly the bytes of the payload, whatever the file held
    before; and [saveFile] does complete whenever the engine is or can be
    initialised and the file system takes the path. *)
Theorem save_then_read (path : string) (data : Data) (w : World) :
  (forall w', saveFile path data w = (Ok tt, w') ->
              readFile path w' = (Ok (dataBytes data), w'))
  /\ (forall root,
        rootDir (snd (_ensureInit w)) = Some root ->
        accepts (disk w) root (pathParts path) = true ->
        exists w', saveFile path data w = (Ok tt, w')).
Proof.
  split.
  - intros w' S.
    apply saveFile_ok in S
      as (w1 & root & fileName & dirs & d1 & d2 & I & R & P & W & G & ->).
    match goal with |- context [emitChange ?ev ?x] =>
      destruct (emitChange_frame ev x) as (_ & _ & Hd & Hr & _);
      set (w' := snd (emitChange ev x)) in *
    end.
    simpl in Hd, Hr. rewrite R in Hr.
    rewrite readFile_eq, (ensureInit_rooted w' root Hr), Hr, P, Hd.
    pose proof (getFileHandle_ok _ _ _ _ _ _ G) as (_ & Hv & [c Hc] & _).
    assert (K : keepsDirs d1 (<[root ++ dirs ++ [fileName]
                                := FileNode (dataBytes data)]> d2)).
    { eapply keepsDirs_trans; [eapply getFileHandle_keeps, G|].
      eapply keepsDirs_insert_file, Hc. }
    rewrite (walk_again true false dirs root (disk w1) d1 _ _ W K).
    rewrite (getFileHandle_found (root ++ dirs) fileName false _
               (dataBytes data) Hv);
      rewrite <- app_assoc, lookup_insert_eq; reflexivity.
  - intros root R A.
    rewrite saveFile_eq.
    pose proof (ensureInit_gives_root w root R) as I.
    destruct (ensureInit_frame w) as (_ & Hd & _).
    destruct (_ensureInit w) as [r w1]. simpl in *. subst r.
    rewrite R. rewrite <- Hd in A.
    destruct (accepts_walk _ _ _ A) as (fileName & dirs & d1 & d2 & P & W & G).
    rewrite P, W, G.
    match goal with |- context [emitChange ?ev ?x] =>
      destruct (emitChange_frame ev x) as (E & _);
      destruct (emitChange ev x) as [r w']
    end.
    simpl in E. subst r. eauto.
Qed.

(** C6, as stated, fails in the worker: [emitChange] dispatches only where
    [window] exists, and a worker has none.  A save that completes in a
    worker publishes nothing. *)
Lemma worker_save_publishes_nothing :
  fst (saveFile "song/song.mp3" (DString "abc") (Sample.freshWorld WorkerRealm))
  = Ok tt
  /\ ~ In {| type_ := file_added; path_ := "song/song.mp3" |}
          (dispatched
             (snd (saveFile "song/song.mp3" (DString "abc")
                     (Sample.freshWorld WorkerRealm)))).
Proof. vm_compute. split; [reflexivity|tauto]. Qed.

(** C6, amended.  Every [saveFile] that completes in the page publishes
    one [file-added] event that carries the path, after the events already
    published; one that completes in a worker publishes nothing. *)
Theorem save_publishes_in_window (path : string) (data : Data)
    (w w' : World) :
  saveFile path data w = (Ok tt, w') ->
  (realm w = WindowRealm ->
   dispatched w'
   = dispatched w ++ [{| type_ := file_added; path_ := path |}])
  /\ (realm w = WorkerRealm -> dispatched w' = dispatched w).
Proof.
  intros S.
  apply saveFile_ok in S
    as (w1 & root & fileName & dirs & d1 & d2 & I & R & P & W & G & ->).
  destruct (ensureInit_frame w) as (Hr & _ & Hev & _).
  rewrite I in Hr, Hev. simpl in Hr, Hev.
  match goal with |- context [emitChange ?ev ?x] =>
    destruct (emitChange_frame ev x) as (_ & _ & _ & _ & _ & _ & ->)
  end.
  simpl. rewrite Hr, Hev.
  split; intros ->; reflexivity.
Qed.

End StorageProperties.

(** ** Sorting by a key, largest first *)

Section SortFacts.
Context {A : Type} (key : A -> Z).

Local Abbreviation cmp := (fun a b : A => (key b - key a)%Z).

Lemma sortInsert_perm (c : A -> A -> Z) (x : A) (l : list A) :
  Permutation (sortInsert c x l) (x :: l).
Proof.
  induction l as [|y l IH]; simpl; [reflexivity|].
  destruct (c x y <=? 0)%Z; [reflexivity|].
  rewrite IH. apply perm_swap.
Qed.

Lemma Array_sort_perm (c : A -> A -> Z) (l : list A) :
  Permutation (Array_sort c l) l.
Proof.
  induction l as [|x l IH]; simpl; [reflexivity|].
  rewrite sortInsert_perm, IH. reflexivity.
Qed.

Lemma sortInsert_sorted (x : A) (l : list A) :
  StronglySorted (fun a b => (key b <= key a)%Z) l ->
  StronglySorted (fun a b => (key b <= key a)%Z) (sortInsert cmp x l).
Proof.
  induction 1 as [|y l S IH F]; simpl.
  - constructor; constructor.
  - destruct (Z.leb_spec (key y - key x) 0) as [L|L].
    + constructor; [constructor; assumption|].
      constructor; [lia|].
      eapply Forall_impl; [exact F|]. simpl. intros z Hz. lia.
    + constructor; [exact IH|].
      eapply Permutation_Forall; [symmetry; apply sortInsert_perm|].
      constructor; [lia|exact F].
Qed.

Lemma Array_sort_sorted (l : list A) :
  StronglySorted (fun a b => (key b <= key a)%Z) (Array_sort cmp l).
Proof.
  induction l as [|x l IH]; simpl; [constructor|].
  apply sortInsert_sorted, IH.
Qed.

(** Stability: the elements of one key keep their order. *)
Lemma sortInsert_stable (t : Z) (x : A) (l : list A) :
  List.filter (fun a => (key a =? t)%Z) (sortInsert cmp x l)
  = List.filter (fun a => (key a =? t)%Z) (x :: l).
Proof.
  induction l as [|y l IH]; [reflexivity|].
  simpl sortInsert.
  destruct (Z.leb_spec (key y - key x) 0) as [L|L]; [reflexivity|].
  simpl List.filter at 1. rewrite IH. simpl.
  destruct (Z.eqb_spec (key x) t) as [Ex|Ex];
    destruct (Z.eqb_spec (key y) t) as [Ey|Ey]; try reflexivity.
  lia.
Qed.

Lemma Array_sort_stable (t : Z) (l : list A) :
  List.filter (fun a => (key a =? t)%Z) (Array_sort cmp l)
  = List.filter (fun a => (key a =? t)%Z) l.
Proof.
  induction l as [|x l IH]; [reflexivity|].
  simpl Array_sort. rewrite sortInsert_stable. simpl. rewrite IH. reflexivity.
Qed.

(** With distinct keys, largest first is strictly decreasing. *)
Lemma sorted_distinct_strict (l : list A) :
  NoDup (map key l) ->
  StronglySorted (fun a b => (key b <= key a)%Z) l ->
  StronglySorted (fun a b => (key b < key a)%Z) l.
Proof.
  intros N S. induction S as [|x l S IH F]; [constructor|].
  simpl in N. apply NoDup_cons in N as [Nx N].
  constructor; [apply IH, N|].
  rewrite Forall_forall in F |- *. intros y Hy.
  pose proof (F y Hy) as Le.
  assert (key y <> key x).
  { intros E. apply Nx. rewrite <- E.
    apply list_elem_of_fmap. exists y. auto. }
  lia.
Qed.

End SortFacts.

(** ** The catalog *)

Section CatalogFacts.
Context `{Codec : Json}.
Import OpfsStorage useOpfsDirectories.

(** Once the engine has its root, reading changes nothing. *)
Lemma readFile_pure (path : string) (w : World) (root : list string) :
  rootDir w = Some root -> snd (readFile path w) = w.
Proof.
  intros R. rewrite readFile_eq, (ensureInit_rooted w root R), R.
  destruct (pop (pathParts path)) as [[fileName|] dirs]; [|reflexivity].
  destruct (walk false dirs root (disk w)) as [[h|e] d1]; [|reflexivity].
  destruct (getFileHandle h fileName false (disk w)) as [[f|e] d2];
    [|reflexivity].
  destruct (disk w !! f) as [[c|]|]; reflexivity.
Qed.

Lemma readMetadata_pure (folder : string) (w : World) (root : list string) :
  rootDir w = Some root -> snd (readMetadata folder w) = w.
Proof.
  intros R. unfold readMetadata, bind.
  pose proof (readFile_pure (folder +:+ "/metadata.json") w root R) as P.
  destruct (readFile _ w) as [[b|e] w1]; simpl in P; subst w1; [|reflexivity].
  destruct (JSON_parse _); reflexivity.
Qed.

Lemma promiseAll_ok {S X Y} (f : X -> Eff S Y) (xs : list X) (ys : list Y)
    (s : S) :
  Forall2 (fun x y => f x s = (Ok y, s)) xs ys ->
  promiseAll f xs s = (Ok ys, s).
Proof.
  induction 1 as [|x y xs ys Hx F IH]; [reflexivity|].
  simpl. unfold bind at 1. rewrite Hx. unfold bind at 1. rewrite IH.
  reflexivity.
Qed.

Lemma promiseAll_fails {S X Y} (f : X -> Eff S Y) (xs : list X) (x : X)
    (e : Error) (s : S) :
  (forall x', snd (f x' s) = s) ->
  In x xs -> fst (f x s) = Err e ->
  exists e', promiseAll f xs s = (Err e', s).
Proof.
  intros P. induction xs as [|x0 xs IH]; intros I E; [destruct I|].
  simpl. unfold bind at 1.
  pose proof (P x0) as P0.
  destruct (f x0 s) as [[y|e0] s0] eqn:F0; simpl in P0; subst s0;
    [|eauto].
  unfold bind at 1.
  destruct I as [->|I]; [rewrite F0 in E; discriminate|].
  destruct (IH I E) as [e' ->]. eauto.
Qed.

(** A listing of the root that succeeds leaves the engine with its root
    and the store of files as it was. *)
Lemma listDirectories_root (w w1 : World) (dirs : list string) :
  listDirectories "" w = (Ok dirs, w1) ->
  exists root, rootDir w1 = Some root /\ disk w1 = disk w.
Proof.
  unfold listDirectories, navigate, bind, requireRoot. simpl.
  destruct (ensureInit_frame w) as (_ & Hd & _).
  destruct (_ensureInit w) as [[[]|e] w0]; [|discriminate].
  destruct (rootDir w0) as [root|] eqn:R; [|discriminate].
  unfold ret, fsCall, entries. simpl. rewrite setDisk_same.
  intros [= _ <-]. eauto.
Qed.

End CatalogFacts.

(** ** The catalog: the properties of the design document *)

Section CatalogProperties.
Context `{Codec : Json}.
Import OpfsStorage useOpfsDirectories.

(** C3, the general shape of the failing inputs: if the sidecar of one
    listed folder cannot be read or parsed, [loadFolders] as a whole fails:
    it records an error and leaves [folders] as it was, so that none of the
    other entries is returned either. *)
Theorem one_bad_sidecar_fails_the_load (st : State) (w w1 : World)
    (dirs : list string) (d : string) (e : Error) :
  listDirectories "" w = (Ok dirs, w1) ->
  In d dirs ->
  fst (readMetadata d w1) = Err e ->
  exists e',
    loadFolders st w
    = ({| folders := folders st; isLoading := false; error := Some e' |}, w1).
Proof.
  intros L I E.
  destruct (listDirectories_root w w1 dirs L) as (root & R & _).
  destruct (promiseAll_fails readMetadata dirs d e w1
              (fun x => readMetadata_pure x w1 root R) I E) as [e' F].
  exists e'. unfold loadFolders, loadFoldersTry, bind. rewrite L, F.
  reflexivity.
Qed.

(** C5.  When every sidecar reads and parses, [loadFolders] succeeds and
    returns the entries largest [uploadedAt] first: a permutation of the
    listed entries, in descending order, strictly descending when the
    values are distinct, and with the entries of one [uploadedAt] value in
    the order of the directory listing. *)
Theorem load_sorts_by_upload_time (st : State) (w w1 : World)
    (dirs : list string) (ms : list AudioMetadata) :
  listDirectories "" w = (Ok dirs, w1) ->
  Forall2 (fun d m => fst (readMetadata d w1) = Ok m) dirs ms ->
  let st' := fst (loadFolders st w) in
  error st' = None
  /\ isLoading st' = false
  /\ Permutation (folders st') ms
  /\ StronglySorted (fun a b => (uploadedAt b <= uploadedAt a)%Z) (folders st')
  /\ (NoDup (map uploadedAt ms) ->
      StronglySorted (fun a b => (uploadedAt b < uploadedAt a)%Z) (folders st'))
  /\ (forall t,
        List.filter (fun m => (uploadedAt m =? t)%Z) (folders st')
        = List.filter (fun m => (uploadedAt m =? t)%Z) ms).
Proof.
  intros L F.
  destruct (listDirectories_root w w1 dirs L) as (root & R & _).
  assert (P : promiseAll readMetadata dirs w1 = (Ok ms, w1)).
  { apply promiseAll_ok. eapply Forall2_impl; [exact F|].
    intros d m Hd. simpl in Hd.
    pose proof (readMetadata_pure d w1 root R) as Hp.
    destruct (readMetadata d w1) as [r w2]. simpl in *. congruence. }
  unfold loadFolders, loadFoldersTry, bind. rewrite L, P. simpl.
  unfold byUploadedAtDesc.
  split; [reflexivity|]. split; [reflexivity|].
  split; [apply Array_sort_perm|].
  split; [apply (Array_sort_sorted uploadedAt)|].
  split; [|intros t; apply (Array_sort_stable uploadedAt)].
  intros N. apply sorted_distinct_strict; [|apply (Array_sort_sorted uploadedAt)].
  rewrite (Permutation_map uploadedAt (Array_sort_perm _ ms)). exact N.
Qed.

End CatalogProperties.

(** ** The scheduler: what [endPlayback] and [stopPlayback] do *)

Section SchedulerFacts.
Context `{Engine : AudioEngine}.
Context `{Codec : Json}.
Import StitchAudio.

Lemma cancelFrame_fields (s : Store) :
  audioCtxRef (cancelFrame s) = audioCtxRef s
  /\ gainNodes (cancelFrame s) = gainNodes s
  /\ gainNodeRef (cancelFrame s) = gainNodeRef s
  /\ playbackTimerRef (cancelFrame s) = playbackTimerRef s
  /\ isPlaying (cancelFrame s) = isPlaying s
  /\ currTime (cancelFrame s) = currTime s
  /\ duration (cancelFrame s) = duration s
  /\ isStitching (cancelFrame s) = isStitching s.
Proof.
  unfold cancelFrame. destruct (animationRef s) as [[|n]|]; simpl; tauto.
Qed.

Lemma endPlayback_fields (s : Store) :
  audioCtxRef (endPlayback s) = Some newAudioContext
  /\ gainNodes (endPlayback s) = gainNodes s
  /\ gainNodeRef (endPlayback s) = gainNodeRef s
  /\ playbackTimerRef (endPlayback s)
     = {| Timer.duration := ofZ 0; Timer.startTime := ofZ 0;
          Timer.volume := Timer.volume (playbackTimerRef s);
          Timer.filesLen := 0 |}
  /\ isPlaying (endPlayback s) = false
  /\ currTime (endPlayback s) = ofZ 0
  /\ duration (endPlayback s) = ofZ 0
  /\ isStitching (endPlayback s) = isStitching s.
Proof.
  unfold endPlayback.
  match goal with |- context [cancelFrame ?x] =>
    destruct (cancelFrame_fields x) as (-> & -> & -> & -> & -> & -> & -> & ->)
  end.
  simpl. destruct (audioCtxRef s) as [c|]; [destruct (state c)|]; simpl; tauto.
Qed.

Lemma getAudioContext_fields (s : Store) :
  audioCtxRef (snd (getAudioContext s)) = Some (fst (getAudioContext s))
  /\ gainNodes (snd (getAudioContext s)) = gainNodes s
  /\ gainNodeRef (snd (getAudioContext s)) = gainNodeRef s
  /\ animationRef (snd (getAudioContext s)) = animationRef s
  /\ frames (snd (getAudioContext s)) = frames s
  /\ playbackTimerRef (snd (getAudioContext s)) = playbackTimerRef s
  /\ isPlaying (snd (getAudioContext s)) = isPlaying s
  /\ currTime (snd (getAudioContext s)) = currTime s
  /\ duration (snd (getAudioContext s)) = duration s
  /\ isStitching (snd (getAudioContext s)) = isStitching s.
Proof.
  unfold getAudioContext. destruct (audioCtxRef s) eqn:E; simpl; tauto.
Qed.

Lemma getAudioContext_idem (s : Store) :
  getAudioContext (snd (getAudioContext s))
  = (fst (getAudioContext s), snd (getAudioContext s)).
Proof.
  unfold getAudioContext. destruct (audioCtxRef s) eqn:E; simpl.
  - rewrite E. reflexivity.
  - reflexivity.
Qed.

(** [stopPlayback], in one step: it fails on a closed context, and suspends
    the context and clears the frame otherwise. *)
Lemma stopPlayback_eq (s : Store) :
  stopPlayback s
  = let '(c, s1) := getAudioContext s in
    match state c with
    | closed => (Err InvalidStateError, setIsPlaying false s1)
    | _ => (Ok tt, cancelFrame (setAudioCtx (Some (withState suspended c))
                                  (setIsPlaying false s1)))
    end.
Proof.
  destruct s as [[[st srcs]|] gn gr ar fr t ip ct d ist];
    [destruct st|]; reflexivity.
Qed.

(** Only the context, the playing flag and the frame can differ after
    [stopPlayback]. *)
Lemma stopPlayback_fields (s : Store) :
  let s' := snd (stopPlayback s) in
  gainNodes s' = gainNodes s
  /\ gainNodeRef s' = gainNodeRef s
  /\ playbackTimerRef s' = playbackTimerRef s
  /\ isPlaying s' = false
  /\ currTime s' = currTime s
  /\ duration s' = duration s
  /\ isStitching s' = isStitching s.
Proof.
  destruct s as [[[st srcs]|] gn gr ar fr t ip ct d ist];
    [destruct st|]; destruct ar as [[|n]|]; simpl; tauto.
Qed.

Lemma stopPlayback_running_ok (s : Store) :
  state (fst (getAudioContext s)) <> closed ->
  fst (stopPlayback s) = Ok tt
  /\ exists c, audioCtxRef (snd (stopPlayback s)) = Some c
               /\ state c = suspended
               /\ sources c = sources (fst (getAudioContext s)).
Proof.
  destruct s as [[[st srcs]|] gn gr ar fr t ip ct d ist];
    [destruct st|]; destruct ar as [[|n]|]; simpl; intros Hc;
    try congruence; (split; [reflexivity|]); eexists; repeat split.
Qed.

(** Decoding all payloads: every one decodes, or the whole step fails. *)
Lemma decodeAll_ok (data : list (AudioMetadata * list byte))
    (bufs : list AudioBuffer.t) (s : Store) :
  Forall2 (fun item b => decodeAudioData (snd item) = Some b) data bufs ->
  decodeAll data s = (Ok bufs, s).
Proof.
  intros F. induction F as [|item b data bufs Hd F IH]; [reflexivity|].
  unfold decodeAll in *. simpl. unfold bind at 1. rewrite Hd. simpl.
  unfold bind at 1. rewrite IH. reflexivity.
Qed.

Lemma decodeAll_fails (data : list (AudioMetadata * list byte)) (s : Store) :
  Exists (fun item => decodeAudioData (snd item) = None) data ->
  decodeAll data s = (Err EncodingError, s).
Proof.
  induction data as [|item data IH]; intros E; [inversion E|].
  unfold decodeAll in *. simpl. unfold bind at 1.
  destruct (decodeAudioData (snd item)) as [b|] eqn:Hd; [|reflexivity].
  simpl. unfold bind at 1. rewrite IH; [reflexivity|].
  inversion E; subst; [congruence|assumption].
Qed.

Lemma onPlayClick_prepares (t0 t1 : num) (w w' : World) (s : Store)
    (data : list (AudioMetadata * list byte)) (bufs : list AudioBuffer.t) :
  state (fst (getAudioContext s)) <> suspended ->
  isPlaying s = false ->
  useOpfsDirectories.getAllFiles w = (Ok data, w') ->
  Forall2 (fun item b => decodeAudioData (snd item) = Some b) data bufs ->
  onPlayClick t0 t1 (w, s)
  = let '(r, s') := updatePlaybackTime t1 (laidOut t0 (length data) bufs s) in
    (r, (w', s')).
Proof.
  intros Hs Hp Hg Hd.
  unfold onPlayClick, bind, inStore, inWorld, modify, get. cbn [fst snd].
  destruct s as [[[st srcs]|] gn gr [[|n]|] fr t ip ct d ist];
    simpl in *; subst ip; try (destruct st; try congruence);
    simpl; rewrite Hg; simpl; erewrite decodeAll_ok by eassumption;
    reflexivity.
Qed.

Lemma onPlayClick_decode_fails (t0 t1 : num) (w w' : World) (s : Store)
    (data : list (AudioMetadata * list byte)) :
  state (fst (getAudioContext s)) <> suspended ->
  isPlaying s = false ->
  useOpfsDirectories.getAllFiles w = (Ok data, w') ->
  Exists (fun item => decodeAudioData (snd item) = None) data ->
  onPlayClick t0 t1 (w, s)
  = (Err EncodingError, (w', abandoned (length data) s)).
Proof.
  intros Hs Hp Hg Hd.
  unfold onPlayClick, bind, inStore, inWorld, modify, get. cbn [fst snd].
  destruct s as [[[st srcs]|] gn gr [[|n]|] fr t ip ct d ist];
    simpl in *; subst ip; try (destruct st; try congruence);
    simpl; rewrite Hg; simpl; rewrite decodeAll_fails by assumption;
    reflexivity.
Qed.

(** One run of the polling loop, in one step. *)
Lemma updatePlaybackTime_eq (now : num) (s : Store) :
  updatePlaybackTime now s
  = let s1 := snd (getAudioContext s) in
    let total := Timer.duration (playbackTimerRef s) in
    let elapsed := sub now (Timer.startTime (playbackTimerRef s)) in
    if ltb total elapsed then stopPlayback s1
    else (Ok tt, requestFrame (if leb elapsed total && leb zero elapsed
                               then setCurrTime elapsed s1 else s1)).
Proof.
  unfold updatePlaybackTime, bind, modify, get, ret. simpl.
  destruct (getAudioContext_fields s) as (_ & _ & _ & _ & _ & -> & _).
  destruct (ltb _ _); [reflexivity|].
  destruct (leb _ _ && leb _ _); reflexivity.
Qed.

(** The polling loop leaves the timeline and the session data alone; it
    changes at most the reported time, the playing flag, the state of the
    context and the frame. *)
Lemma updatePlaybackTime_frame (now : num) (s : Store) :
  let s' := snd (updatePlaybackTime now s) in
  gainNodes s' = gainNodes s
  /\ gainNodeRef s' = gainNodeRef s
  /\ playbackTimerRef s' = playbackTimerRef s
  /\ duration s' = duration s
  /\ isStitching s' = isStitching s
  /\ exists c, audioCtxRef s' = Some c
               /\ sources c = sources (fst (getAudioContext s)).
Proof.
  rewrite updatePlaybackTime_eq.
  destruct s as [[[st srcs]|] gn gr [[|n]|] fr t ip ct d ist]; simpl;
    try destruct st; simpl;
    destruct (ltb _ _); simpl; try destruct (leb _ _ && leb _ _); simpl;
    repeat split; eexists; split; reflexivity.
Qed.

Lemma updatePlaybackTime_ok (now : num) (s : Store) :
  state (fst (getAudioContext s)) <> closed ->
  fst (updatePlaybackTime now s) = Ok tt.
Proof.
  intros Hc. rewrite updatePlaybackTime_eq. simpl.
  destruct (ltb _ _); [|reflexivity].
  apply stopPlayback_running_ok. rewrite getAudioContext_idem. exact Hc.
Qed.

(** *** The scheduling loop *)

Lemma attachOnended_map {B} (f : SourceNode -> B) (l : list SourceNode) :
  (forall n, f {| buffer := buffer n; destination := destination n;
                  when := when n; onended := true |} = f n) ->
  map f (attachOnended l) = map f l.
Proof.
  intros Hf. induction l as [|n l IH]; [reflexivity|].
  destruct l as [|m l]; [simpl; rewrite Hf; reflexivity|].
  change (f n :: map f (attachOnended (m :: l)) = f n :: map f (m :: l)).
  rewrite IH. reflexivity.
Qed.

Lemma attachOnended_buffer (l : list SourceNode) :
  map buffer (attachOnended l) = map buffer l.
Proof. apply attachOnended_map. reflexivity. Qed.

Lemma attachOnended_when (l : list SourceNode) :
  map when (attachOnended l) = map when l.
Proof. apply attachOnended_map. reflexivity. Qed.

Lemma attachOnended_destination (l : list SourceNode) :
  map destination (attachOnended l) = map destination l.
Proof. apply attachOnended_map. reflexivity. Qed.

Lemma attachOnended_connected (g : nat) (l : list SourceNode) :
  Forall (fun n => destination n = g) l ->
  Forall (fun n => destination n = g) (attachOnended l).
Proof.
  induction 1 as [|n l Hn F IH]; [constructor|].
  destruct l as [|m l]; [constructor; [exact Hn|constructor]|].
  change (attachOnended (n :: m :: l)) with (n :: attachOnended (m :: l)).
  constructor; assumption.
Qed.

Lemma scheduleAll_buffer (g : nat) (bufs : list AudioBuffer.t) (t : num) :
  map buffer (scheduleAll g bufs t) = bufs.
Proof.
  revert t. induction bufs as [|b bufs IH]; intros t; [reflexivity|].
  simpl. rewrite IH. reflexivity.
Qed.

Lemma scheduleAll_destination (g : nat) (bufs : list AudioBuffer.t) (t : num) :
  Forall (fun n => destination n = g) (scheduleAll g bufs t).
Proof.
  revert t. induction bufs as [|b bufs IH]; intros t; simpl; constructor;
    [reflexivity|apply IH].
Qed.

Lemma scheduleAll_first (g : nat) (bufs : list AudioBuffer.t) (t : num)
    (b : AudioBuffer.t) :
  bufs !! 0%nat = Some b ->
  map when (scheduleAll g bufs t) !! 0%nat = Some t.
Proof. destruct bufs; [discriminate|reflexivity]. Qed.

Lemma scheduleAll_next (g : nat) (bufs : list AudioBuffer.t) (t0 : num)
    (i : nat) (b : AudioBuffer.t) (t : num) :
  bufs !! i = Some b ->
  map when (scheduleAll g bufs t0) !! i = Some t ->
  (S i < length bufs)%nat ->
  map when (scheduleAll g bufs t0) !! S i
  = Some (add t (AudioBuffer.duration b)).
Proof.
  revert t0 i. induction bufs as [|b0 bufs IH]; intros t0 i Hb Ht Hlt;
    [discriminate|].
  destruct i as [|i].
  - simpl in Hb, Ht. injection Hb as ->. injection Ht as ->.
    destruct bufs as [|b1 bufs]; [simpl in Hlt; lia|reflexivity].
  - simpl in Hb, Ht, Hlt. simpl.
    apply (IH (add t0 (AudioBuffer.duration b0)) i Hb Ht). lia.
Qed.

Lemma totalDurationOf_sumOf (bufs : list AudioBuffer.t) :
  totalDurationOf bufs = sumOf (map AudioBuffer.duration bufs).
Proof.
  unfold totalDurationOf, sumOf. generalize zero.
  induction bufs as [|b bufs IH]; intros z; [reflexivity|].
  simpl. apply IH.
Qed.

End SchedulerFacts.

(** ** The scheduler: the properties of the design document *)

Section SchedulerProperties.
Context `{Engine : AudioEngine}.
Context `{Codec : Json}.
Import StitchAudio.

(** C1 (gapless property, timeline duration).  When the play button
    prepares a session from the payloads [data], decoded into the buffers
    [bufs], the call succeeds and the context holds one started source per
    buffer, in order; the first starts at the audio-clock time [t0] read at
    preparation, each next one starts at the start of its predecessor plus
    the predecessor's duration, exactly; and the session's total duration,
    both the one shown and the one the polling loop uses, is the sum
    [d1 + ... + dn] of the buffers' durations. *)
Theorem gapless_timeline (t0 t1 : num) (w w' : World) (s : Store)
    (data : list (AudioMetadata * list byte)) (bufs : list AudioBuffer.t) :
  state (fst (getAudioContext s)) <> suspended ->
  isPlaying s = false ->
  useOpfsDirectories.getAllFiles w = (Ok data, w') ->
  Forall2 (fun item b => decodeAudioData (snd item) = Some b) data bufs ->
  exists s' c,
    onPlayClick t0 t1 (w, s) = (Ok tt, (w', s'))
    /\ audioCtxRef s' = Some c
    /\ map buffer (sources c) = bufs
    /\ (forall b, bufs !! 0%nat = Some b -> startOffsets c !! 0%nat = Some t0)
    /\ (forall i b t,
          bufs !! i = Some b -> startOffsets c !! i = Some t ->
          (S i < length bufs)%nat ->
          startOffsets c !! S i = Some (add t (AudioBuffer.duration b)))
    /\ duration s' = sumOf (map AudioBuffer.duration bufs)
    /\ Timer.duration (playbackTimerRef s')
       = sumOf (map AudioBuffer.duration bufs)
    /\ Timer.startTime (playbackTimerRef s') = t0.
Proof.
  intros Hs Hp Hg Hd.
  rewrite (onPlayClick_prepares t0 t1 w w' s data bufs Hs Hp Hg Hd).
  set (s0 := laidOut t0 (length data) bufs s).
  assert (Hrun : state (fst (getAudioContext s0)) <> closed) by (simpl; congruence).
  pose proof (updatePlaybackTime_ok t1 s0 Hrun) as Hok.
  destruct (updatePlaybackTime_frame t1 s0)
    as (_ & _ & Ht & Hdur & _ & c & Hc & Hsrc).
  destruct (updatePlaybackTime t1 s0) as [r s'] eqn:E. simpl in *. subst r.
  exists s', c. split; [reflexivity|]. split; [exact Hc|].
  unfold startOffsets. rewrite Hsrc, Ht, Hdur.
  rewrite attachOnended_buffer, attachOnended_when, scheduleAll_buffer.
  rewrite <- totalDurationOf_sumOf.
  repeat split.
  - intros b Hb. eapply scheduleAll_first; eassumption.
  - intros i b t Hb Hi Hlt. eapply scheduleAll_next; eassumption.
Qed.

(** C4, the general shape of the failing inputs: when one payload does not
    decode, the preparation fails and no source is scheduled, yet the store
    is left in the preparing state: [isStitching] is still true, and the
    entries stay tracked. *)
Theorem decode_failure_stays_preparing (t0 t1 : num) (w w' : World)
    (s : Store) (data : list (AudioMetadata * list byte)) :
  state (fst (getAudioContext s)) <> suspended ->
  isPlaying s = false ->
  useOpfsDirectories.getAllFiles w = (Ok data, w') ->
  Exists (fun item => decodeAudioData (snd item) = None) data ->
  exists s',
    onPlayClick t0 t1 (w, s) = (Err EncodingError, (w', s'))
    /\ audioCtxRef s' = Some newAudioContext
    /\ isPlaying s' = false
    /\ isStitching s' = true
    /\ Timer.filesLen (playbackTimerRef s') = length data.
Proof.
  intros Hs Hp Hg Hd.
  rewrite (onPlayClick_decode_fails t0 t1 w w' s data Hs Hp Hg Hd).
  exists (abandoned (length data) s). repeat split.
Qed.


(** C10.  [stopPlayback] and [endPlayback] keep the stored volume,
    [handleVolumeChange] stores the new one, the first value is 80, and
    the gain node of a newly prepared session is set from the stored volume
    divided by 100, with every source of the session connected to it. *)
Theorem volume_kept_across_sessions (s : Store) :
  Timer.volume (playbackTimerRef (snd (stopPlayback s)))
  = Timer.volume (playbackTimerRef s)
  /\ Timer.volume (playbackTimerRef (endPlayback s))
     = Timer.volume (playbackTimerRef s)
  /\ Timer.volume (playbackTimerRef initialStore) = ofZ 80
  /\ (forall v, Timer.volume (playbackTimerRef (handleVolumeChange v s)) = v)
  /\ (forall t0 t1 w w' data bufs,
        state (fst (getAudioContext s)) <> suspended ->
        isPlaying s = false ->
        useOpfsDirectories.getAllFiles w = (Ok data, w') ->
        Forall2 (fun item b => decodeAudioData (snd item) = Some b) data bufs ->
        exists s' c g,
          onPlayClick t0 t1 (w, s) = (Ok tt, (w', s'))
          /\ gainNodeRef s' = Some g
          /\ gainNodes s' !! g
             = Some (div (Timer.volume (playbackTimerRef s)) (ofZ 100))
          /\ audioCtxRef s' = Some c
          /\ Forall (fun n => destination n = g) (sources c)
          /\ Timer.volume (playbackTimerRef s')
             = Timer.volume (playbackTimerRef s)).
Proof.
  split; [|split; [|split; [|split]]].
  - destruct (stopPlayback_fields s) as (_ & _ & -> & _). reflexivity.
  - destruct (endPlayback_fields s) as (_ & _ & _ & -> & _). reflexivity.
  - reflexivity.
  - intros v. unfold handleVolumeChange. simpl.
    destruct (gainNodeRef s); reflexivity.
  - intros t0 t1 w w' data bufs Hs Hp Hg Hd.
    rewrite (onPlayClick_prepares t0 t1 w w' s data bufs Hs Hp Hg Hd).
    set (s0 := laidOut t0 (length data) bufs s).
    assert (Hrun : state (fst (getAudioContext s0)) <> closed)
      by (simpl; congruence).
    pose proof (updatePlaybackTime_ok t1 s0 Hrun) as Hok.
    destruct (updatePlaybackTime_frame t1 s0)
      as (Hgn & Hgr & Ht & _ & _ & c & Hc & Hsrc).
    destruct (updatePlaybackTime t1 s0) as [r s'] eqn:E. simpl in *. subst r.
    exists s', c, (length (gainNodes s)).
    rewrite Hgn, Hgr, Ht. repeat split; try assumption.
    + apply list_lookup_middle. reflexivity.
    + rewrite Hsrc. apply attachOnended_connected, scheduleAll_destination.
Qed.

End SchedulerProperties.

(** ** The reported time stays within the session *)

Section ReportedTime.
Context `{Engine : AudioEngine}.
Context `{Codec : Json}.
Import StitchAudio.

Lemma onPlayClick_listing_fails (t0 t1 : num) (w w' : World) (s : Store)
    (e : Error) :
  state (fst (getAudioContext s)) <> suspended ->
  isPlaying s = false ->
  useOpfsDirectories.getAllFiles w = (Err e, w') ->
  onPlayClick t0 t1 (w, s) = (Err e, (w', setIsStitching true (endPlayback s))).
Proof.
  intros Hs Hp Hg.
  unfold onPlayClick, bind, inStore, inWorld, modify, get. cbn [fst snd].
  destruct s as [[[st srcs]|] gn gr [[|n]|] fr t ip ct d ist];
    simpl in *; subst ip; try (destruct st; try congruence);
    simpl; rewrite Hg; reflexivity.
Qed.

Lemma onPlayClick_resumes (t0 t1 : num) (w : World) (s : Store) :
  state (fst (getAudioContext s)) = suspended ->
  onPlayClick t0 t1 (w, s)
  = let '(r, s') :=
      updatePlaybackTime t0
        (setIsPlaying true
           (setAudioCtx (Some (withState running (fst (getAudioContext s))))
              (snd (getAudioContext s)))) in
    (r, (w, s')).
Proof.
  intros Hs.
  unfold onPlayClick, bind, inStore, inWorld, modify, get. cbn [fst snd].
  rewrite getAudioContext_idem. cbn [fst snd]. rewrite Hs. reflexivity.
Qed.

Lemma onPlayClick_stops (t0 t1 : num) (w : World) (s : Store) :
  state (fst (getAudioContext s)) <> suspended ->
  isPlaying s = true ->
  onPlayClick t0 t1 (w, s)
  = let '(r, s') := stopPlayback (snd (getAudioContext s)) in (r, (w, s')).
Proof.
  intros Hs Hp.
  unfold onPlayClick, bind, inStore, inWorld, modify, get. cbn [fst snd].
  rewrite getAudioContext_idem. cbn [fst snd].
  destruct (getAudioContext_fields s) as (_ & _ & _ & _ & _ & _ & -> & _).
  rewrite Hp.
  destruct (state (fst (getAudioContext s))); first [reflexivity|congruence].
Qed.

Lemma decode_cases (data : list (AudioMetadata * list byte)) :
  (exists bufs,
      Forall2 (fun item b => decodeAudioData (snd item) = Some b) data bufs)
  \/ Exists (fun item => decodeAudioData (snd item) = None) data.
Proof.
  induction data as [|item data [[bufs F]|E]].
  - left. exists []. constructor.
  - destruct (decodeAudioData (snd item)) as [b|] eqn:Hd.
    + left. exists (b :: bufs). constructor; assumption.
    + right. constructor. exact Hd.
  - right. apply Exists_cons_tl. exact E.
Qed.

Lemma timeInvariant_getAudioContext (s : Store) :
  timeInvariant s -> timeInvariant (snd (getAudioContext s)).
Proof.
  unfold timeInvariant, withinDuration.
  destruct (getAudioContext_fields s)
    as (_ & _ & _ & _ & _ & -> & _ & -> & -> & _).
  tauto.
Qed.

Lemma timeInvariant_stopPlayback (s : Store) :
  timeInvariant s -> timeInvariant (snd (stopPlayback s)).
Proof.
  unfold timeInvariant, withinDuration.
  destruct (stopPlayback_fields s) as (_ & _ & -> & _ & -> & -> & _). tauto.
Qed.

Lemma timeInvariant_tick (now : num) (s : Store) :
  timeInvariant s -> timeInvariant (snd (updatePlaybackTime now s)).
Proof.
  intros I. rewrite updatePlaybackTime_eq. cbv zeta.
  destruct (ltb _ _).
  - apply timeInvariant_stopPlayback, timeInvariant_getAudioContext, I.
  - apply timeInvariant_getAudioContext in I.
    destruct I as [[I0 I1] I2].
    destruct (getAudioContext_fields s) as (_ & _ & _ & _ & _ & Ht & _).
    rewrite <- Ht.
    destruct (leb _ _ && leb _ _) eqn:G; simpl.
    + apply andb_true_iff in G as [G1 G2].
      unfold timeInvariant, withinDuration. simpl.
      rewrite <- I2. auto.
    + unfold timeInvariant, withinDuration. simpl. auto.
Qed.

Lemma timeInvariant_endPlayback {NN : NonNegative} (s : Store) :
  timeInvariant (endPlayback s).
Proof.
  unfold timeInvariant, withinDuration.
  destruct (endPlayback_fields s) as (_ & _ & _ & -> & _ & -> & -> & _).
  simpl. pose proof zero_le_zero as Z0. unfold zero in Z0. auto.
Qed.

Lemma totalDurationOf_nonneg {NN : NonNegative} (bufs : list AudioBuffer.t) :
  Forall (fun b => leb zero (AudioBuffer.duration b) = true) bufs ->
  leb zero (totalDurationOf bufs) = true.
Proof.
  unfold totalDurationOf. intros F.
  assert (G : forall z, leb zero z = true ->
            leb zero (fold_left (fun sum b => add sum (AudioBuffer.duration b))
                                bufs z) = true).
  { induction F as [|b bufs Hb F IH]; intros z Hz; [exact Hz|].
    simpl. apply IH. apply add_nonneg; assumption. }
  apply G, zero_le_zero.
Qed.

Lemma decoded_all_nonneg {NN : NonNegative}
    (data : list (AudioMetadata * list byte)) (bufs : list AudioBuffer.t) :
  Forall2 (fun item b => decodeAudioData (snd item) = Some b) data bufs ->
  Forall (fun b => leb zero (AudioBuffer.duration b) = true) bufs.
Proof.
  induction 1 as [|item b data bufs Hd F IH]; constructor;
    [eapply decoded_nonneg; exact Hd|exact IH].
Qed.

Lemma timeInvariant_laidOut {NN : NonNegative} (t0 : num) (n : nat)
    (bufs : list AudioBuffer.t) (s : Store) :
  Forall (fun b => leb zero (AudioBuffer.duration b) = true) bufs ->
  timeInvariant (laidOut t0 n bufs s).
Proof.
  intros F. unfold timeInvariant, withinDuration. simpl.
  pose proof zero_le_zero as Z0. unfold zero in Z0.
  repeat split; try assumption. apply totalDurationOf_nonneg, F.
Qed.

Lemma timeInvariant_snd {A} (f : Eff Store A) (s : Store) :
  timeInvariant (snd (f s)) ->
  forall w : World,
    timeInvariant (snd (snd (let '(r, s') := f s in (r, (w, s'))))).
Proof. destruct (f s); simpl; auto. Qed.

Lemma timeInvariant_prepare {NN : NonNegative} (t0 t1 : num) (w : World)
    (s : Store) :
  state (fst (getAudioContext s)) <> suspended ->
  timeInvariant s -> timeInvariant (snd (snd (onPlayClick t0 t1 (w, s)))).
Proof.
  intros Hn I.
  destruct (isPlaying s) eqn:Hp.
  - rewrite onPlayClick_stops by assumption. apply timeInvariant_snd.
    apply timeInvariant_stopPlayback, timeInvariant_getAudioContext, I.
  - destruct (useOpfsDirectories.getAllFiles w) as [[data|e] w'] eqn:Hg.
    + destruct (decode_cases data) as [[bufs F]|E].
      * rewrite (onPlayClick_prepares t0 t1 w w' s data bufs Hn Hp Hg F).
        apply timeInvariant_snd, timeInvariant_tick, timeInvariant_laidOut.
        eapply decoded_all_nonneg, F.
      * rewrite (onPlayClick_decode_fails t0 t1 w w' s data Hn Hp Hg E).
        unfold timeInvariant, withinDuration. simpl.
        pose proof zero_le_zero as Z0. unfold zero in Z0. auto.
    + rewrite (onPlayClick_listing_fails t0 t1 w w' s e Hn Hp Hg). simpl.
      pose proof (timeInvariant_endPlayback s) as J.
      unfold timeInvariant, withinDuration in *. simpl. exact J.
Qed.

Lemma timeInvariant_click {NN : NonNegative} (t0 t1 : num) (w : World)
    (s : Store) :
  timeInvariant s -> timeInvariant (snd (snd (onPlayClick t0 t1 (w, s)))).
Proof.
  intros I.
  destruct (state (fst (getAudioContext s))) eqn:Hs.
  - apply timeInvariant_prepare; [congruence|exact I].
  - rewrite onPlayClick_resumes by assumption.
    apply timeInvariant_snd, timeInvariant_tick.
    apply timeInvariant_getAudioContext in I.
    unfold timeInvariant, withinDuration in *. simpl. exact I.
  - apply timeInvariant_prepare; [congruence|exact I].
Qed.

Lemma timeInvariant_volume (v : num) (s : Store) :
  timeInvariant s -> timeInvariant (handleVolumeChange v s).
Proof.
  unfold timeInvariant, withinDuration, handleVolumeChange. simpl.
  destruct (gainNodeRef s); simpl; tauto.
Qed.

Lemma timeInvariant_folders {NN : NonNegative} (folders : list AudioMetadata)
    (s : Store) :
  timeInvariant s -> timeInvariant (foldersEffect folders s).
Proof.
  intros I. unfold foldersEffect.
  destruct (_ || _); [exact I|apply timeInvariant_endPlayback].
Qed.

Lemma timeInvariant_ended (s : Store) :
  timeInvariant s -> timeInvariant (snd (sourceEnded s)).
Proof.
  intros I. apply timeInvariant_stopPlayback in I.
  unfold sourceEnded, bind.
  destruct (stopPlayback s) as [[[]|e] s1]; simpl in *; [|exact I].
  apply timeInvariant_getAudioContext in I.
  destruct (getAudioContext s1) as [c s2]. simpl in I.
  destruct (state c); simpl; exact I.
Qed.

Lemma reachable_timeInvariant {NN : NonNegative} (ws : World * Store) :
  reachable ws -> timeInvariant (snd ws).
Proof.
  induction 1 as [w|ws ws' R I S].
  - unfold timeInvariant, withinDuration. simpl.
    pose proof zero_le_zero as Z0. unfold zero in Z0. auto.
  - destruct S as [t0 t1 [w s]|now w s|v w s|folders w s|w s|w w' s];
      simpl in *.
    + apply timeInvariant_click, I.
    + apply timeInvariant_tick, I.
    + apply timeInvariant_volume, I.
    + apply timeInvariant_folders, I.
    + apply timeInvariant_ended, I.
    + exact I.
Qed.

(** C9.  A run of the polling loop stops playback when the elapsed time
    exceeds the total duration, and reports the elapsed time only when it
    lies between 0 and the total duration, both included; and in any state
    the component can reach, the reported time lies between 0 and the
    reported total duration. *)
Theorem reported_time_within_duration :
  (forall (now : num) (s : Store),
     let total := Timer.duration (playbackTimerRef s) in
     let elapsed := sub now (Timer.startTime (playbackTimerRef s)) in
     let s' := snd (updatePlaybackTime now s) in
     (ltb total elapsed = true ->
        updatePlaybackTime now s = stopPlayback (snd (getAudioContext s))
        /\ isPlaying s' = false /\ currTime s' = currTime s)
     /\ (ltb total elapsed = false -> leb elapsed total = true ->
         leb zero elapsed = true -> currTime s' = elapsed)
     /\ (currTime s' = currTime s
         \/ (currTime s' = elapsed /\ ltb total elapsed = false
             /\ leb zero elapsed = true /\ leb elapsed total = true)))
  /\ (NonNegative ->
      forall ws : World * Store, reachable ws -> withinDuration (snd ws)).
Proof.
  split.
  - intros now s total elapsed s'. subst s'.
    rewrite updatePlaybackTime_eq. cbv zeta. fold total. fold elapsed.
    destruct (getAudioContext_fields s)
      as (_ & _ & _ & _ & _ & _ & _ & Hct & _).
    destruct (ltb total elapsed) eqn:L.
    + destruct (stopPlayback_fields (snd (getAudioContext s)))
        as (_ & _ & _ & Hp & Hc & _).
      simpl in Hp, Hc.
      split; [|split].
      * intros _. split; [reflexivity|]. split; congruence.
      * discriminate.
      * left. congruence.
    + split; [discriminate|].
      destruct (leb elapsed total) eqn:L1; destruct (leb zero elapsed) eqn:L2;
        simpl; (split; [try discriminate; auto|]);
        first [left; exact Hct | right; auto].
  - intros NN ws R. apply (reachable_timeInvariant ws R).
Qed.

End ReportedTime.

(** ** Uploads *)

Section PathFacts.

Lemma contains_append (c : ascii) (a b : string) :
  contains c (a +:+ b) = contains c a || contains c b.
Proof.
  induction a as [|x a IH]; [reflexivity|].
  simpl. rewrite IH. apply orb_assoc.
Qed.

Lemma String_split_none (sep : ascii) (s : string) :
  contains sep s = false -> String_split sep s = [s].
Proof.
  induction s as [|c s IH]; [reflexivity|].
  simpl. intros H. apply orb_false_iff in H as [Hc Hs].
  rewrite Hc, (IH Hs). reflexivity.
Qed.

Lemma String_split_append (sep : ascii) (a b : string) :
  contains sep a = false ->
  String_split sep (a +:+ String sep b) = a :: String_split sep b.
Proof.
  induction a as [|c a IH]; intros H.
  - simpl. rewrite Ascii.eqb_refl. reflexivity.
  - simpl in H. apply orb_false_iff in H as [Hc Ha].
    simpl. rewrite Hc, (IH Ha). reflexivity.
Qed.

(** The parts of ["folder/name"]. *)
Lemma pathParts_join (folder n : string) :
  contains "/" folder = false -> contains "/" n = false ->
  pathParts (folder +:+ "/" +:+ n) = List.filter truthy [folder; n].
Proof.
  intros Hf Hn. unfold pathParts.
  change ("/" +:+ n) with (String "/" n).
  rewrite String_split_append, String_split_none by assumption.
  reflexivity.
Qed.

Lemma pathParts_single (n : string) :
  validName n = true -> pathParts n = [n].
Proof.
  unfold validName, pathParts. intros H.
  apply andb_true_iff in H as [H _].
  apply andb_true_iff in H as [H Hs].
  apply andb_true_iff in H as [H _].
  apply andb_true_iff in H as [Ht _].
  apply negb_true_iff in Hs.
  rewrite String_split_none by assumption. simpl. rewrite Ht. reflexivity.
Qed.

Lemma stripExtension_prefix (s s' : string) :
  stripExtension s = Some s' -> exists ext, s = s' +:+ String "." ext.
Proof.
  revert s'. induction s as [|c s IH]; intros s'; [discriminate|].
  simpl. destruct (stripExtension s) as [r|].
  - intros [= <-]. destruct (IH r eq_refl) as [ext ->].
    exists ext. reflexivity.
  - destruct (Ascii.eqb_spec c "."); simpl; [|discriminate].
    destruct (truthy s && negb (contains "/" s) && negb (contains "." s));
      [|discriminate].
    intros [= <-]. subst c. exists s. reflexivity.
Qed.

Lemma withoutExtension_slashfree (s : string) :
  contains "/" s = false -> contains "/" (withoutExtension s) = false.
Proof.
  unfold withoutExtension. destruct (stripExtension s) as [s'|] eqn:E; [|auto].
  apply stripExtension_prefix in E as [ext ->].
  rewrite contains_append. intros H. apply orb_false_iff in H. tauto.
Qed.

(** A name without separators whose folder is a valid name is a valid
    name itself. *)
Lemma validName_of_folder (n : string) :
  contains "/" n = false -> contains "\" n = false ->
  validName (withoutExtension n) = true -> validName n = true.
Proof.
  intros Hs Hb Hv. unfold validName. rewrite Hs, Hb.
  destruct (String.eqb_spec n ".") as [->|N1]; [discriminate Hv|].
  destruct (String.eqb_spec n "..") as [->|N2]; [discriminate Hv|].
  destruct n as [|c n]; [discriminate Hv|reflexivity].
Qed.

End PathFacts.

Section UploadFacts.
Context `{Codec : Json}.
Import OpfsStorage.

Lemma ensureInit_wellRooted (w : World) :
  wellRooted w -> wellRooted (snd (_ensureInit w)).
Proof.
  unfold wellRooted, _ensureInit. intros [R|R]; rewrite R; simpl; auto.
  destruct (initPromise w); simpl; auto.
  destruct (_getExecutionContext (realm w));
    try destruct (getDirectorySupported w); simpl; auto.
Qed.

Lemma saveFile_rootDir (path : string) (data : Data) (w : World) :
  rootDir (snd (saveFile path data w)) = rootDir (snd (_ensureInit w)).
Proof.
  rewrite saveFile_eq.
  destruct (_ensureInit w) as [[[]|e] w1]; [|reflexivity]. simpl.
  destruct (rootDir w1) as [root|] eqn:R; [|exact R].
  destruct (pop (pathParts path)) as [[fileName|] dirs]; [|exact R].
  destruct (walk true dirs root (disk w1)) as [[h|e] d1]; [|exact R].
  destruct (getFileHandle h fileName true d1) as [[f|e] d2]; [|exact R].
  match goal with |- context [emitChange ?ev ?x] =>
    destruct (emitChange_frame ev x) as (_ & _ & _ & -> & _)
  end. exact R.
Qed.

Lemma saveFile_wellRooted (path : string) (data : Data) (w : World) :
  wellRooted w -> wellRooted (snd (saveFile path data w)).
Proof.
  intros R. unfold wellRooted. rewrite saveFile_rootDir.
  apply ensureInit_wellRooted, R.
Qed.

(** A save to a path without parts fails and changes no file. *)
Lemma saveFile_nowhere (path : string) (data : Data) (w : World) :
  pathParts path = [] ->
  fst (saveFile path data w) <> Ok tt
  /\ disk (snd (saveFile path data w)) = disk w.
Proof.
  intros P. rewrite saveFile_eq, P.
  destruct (ensureInit_frame w) as (_ & Hd & _).
  destruct (_ensureInit w) as [[[]|e] w1]; simpl in *; [|split; congruence].
  destruct (rootDir w1); simpl; split; congruence.
Qed.

(** A save to a file at the root: it fails and changes no file, or it
    succeeds and sets the content of that file. *)
Lemma saveFile_at_root (path n : string) (data : Data) (w : World) :
  wellRooted w -> pathParts path = [n] ->
  (fst (saveFile path data w) <> Ok tt
   /\ disk (snd (saveFile path data w)) = disk w)
  \/ (fst (saveFile path data w) = Ok tt
      /\ disk w !! [n] <> Some DirNode
      /\ disk (snd (saveFile path data w))
         = <[[n] := FileNode (dataBytes data)]> (disk w)).
Proof.
  intros R P. rewrite saveFile_eq, P.
  destruct (ensureInit_frame w) as (_ & Hd & _).
  pose proof (ensureInit_wellRooted w R) as R1.
  destruct (_ensureInit w) as [[[]|e] w1]; simpl in *;
    [|left; split; congruence].
  destruct R1 as [R1|R1]; rewrite R1; [left; split; simpl; congruence|].
  change (walk true [] [] (disk w1)) with (@Ok (list string) [], disk w1).
  cbv iota beta.
  destruct (getFileHandle [] n true (disk w1)) as [[f|e] d2] eqn:G.
  - right.
    pose proof (getFileHandle_ok _ _ _ _ _ _ G) as (-> & _ & [c Hc] & Hd2).
    simpl in *.
    match goal with |- context [emitChange ?ev ?x] =>
      destruct (emitChange_frame ev x) as (-> & _ & -> & _)
    end. simpl. rewrite <- Hd.
    split; [reflexivity|].
    destruct Hd2 as [->|(_ & Hn & ->)].
    + split; [congruence|reflexivity].
    + split; [congruence|apply insert_insert_eq].
  - left. simpl. split; [congruence|].
    pose proof G as G'. unfold getFileHandle in G'.
    destruct (validName n); simpl in G'; [|congruence].
    destruct (disk w1 !! [n]) as [[c|]|]; congruence.
Qed.

(** A save to a file in a folder at the root, in a shallow store: it fails
    and changes no file, or it succeeds, having made the folder if needed,
    and sets the content of that file.  It fails only without a root, on
    an invalid folder name, or when the folder's name is that of a file. *)
Lemma saveFile_in_folder (path folder n : string) (data : Data) (w : World) :
  wellRooted w -> shallow (disk w) -> pathParts path = [folder; n] ->
  (validName folder = true -> validName n = true) ->
  (fst (saveFile path data w) <> Ok tt
   /\ disk (snd (saveFile path data w)) = disk w
   /\ (rootDir (snd (_ensureInit w)) <> Some []
       \/ validName folder = false
       \/ exists c, disk w !! [folder] = Some (FileNode c)))
  \/ (fst (saveFile path data w) = Ok tt
      /\ validName folder = true
      /\ (forall c, disk w !! [folder] <> Some (FileNode c))
      /\ rootDir (snd (saveFile path data w)) = Some []
      /\ disk (snd (saveFile path data w))
         = <[[folder; n] := FileNode (dataBytes data)]>
             (<[[folder] := DirNode]> (disk w))).
Proof.
  intros R Sh P V. rewrite saveFile_rootDir, saveFile_eq, P.
  destruct (ensureInit_frame w) as (_ & Hd & _).
  pose proof (ensureInit_wellRooted w R) as R1.
  pose proof (ensureInit_gives_root w []) as Gr.
  destruct (_ensureInit w) as [[[]|e] w1]; simpl in *.
  2:{ left. repeat split; try congruence. left. intros Hr.
      specialize (Gr Hr). discriminate. }
  destruct R1 as [R1|R1]; rewrite R1;
    [left; repeat split; simpl; try congruence; left; congruence|].
  rewrite walk_cons. rewrite Hd in *. clear Hd.
  unfold getDirectoryHandle.
  destruct (validName folder) eqn:Vf; simpl;
    [|left; repeat split; simpl; try congruence; auto].
  specialize (V eq_refl).
  assert (NoSub : forall d', d' = disk w \/ d' = <[[folder] := DirNode]> (disk w) ->
            exists d2,
              getFileHandle [folder] n true d'
              = (Ok [folder; n], d2)
              /\ <[[folder; n] := FileNode (dataBytes data)]> d2
                 = <[[folder; n] := FileNode (dataBytes data)]> d').
  { intros d' Hd'. unfold getFileHandle. rewrite V. simpl.
    assert (L : d' !! [folder; n] = disk w !! [folder; n]).
    { destruct Hd' as [->| ->]; [reflexivity|].
      apply lookup_insert_ne. discriminate. }
    rewrite L.
    destruct (disk w !! [folder; n]) as [v|] eqn:Lk.
    - destruct (Sh _ _ Lk) as [[m [=]]|(dir & m & c & [= <- <-] & -> & _)].
      eauto.
    - eexists. split; [reflexivity|]. apply insert_insert_eq. }
  destruct (disk w !! [folder]) as [[c|]|] eqn:Lf.
  - left. simpl. repeat split; try congruence. eauto.
  - right. cbv iota beta.
    change (walk true [] [folder] (disk w))
      with (@Ok (list string) [folder], disk w). cbv iota beta.
    destruct (NoSub (disk w)) as (d2 & -> & E); [auto|].
    match goal with |- context [emitChange ?ev ?x] =>
      destruct (emitChange_frame ev x) as (-> & _ & -> & _)
    end. simpl. rewrite E, (insert_id (disk w) [folder] DirNode Lf).
    repeat split; congruence.
  - right. cbv iota beta.
    change (walk true [] [folder] (<[[folder] := DirNode]> (disk w)))
      with (@Ok (list string) [folder], <[[folder] := DirNode]> (disk w)).
    cbv iota beta.
    destruct (NoSub (<[[folder] := DirNode]> (disk w))) as (d2 & -> & E);
      [auto|].
    match goal with |- context [emitChange ?ev ?x] =>
      destruct (emitChange_frame ev x) as (-> & _ & -> & _)
    end. simpl. rewrite E.
    repeat split; congruence.
Qed.

(** *** The invariants of the store under these saves *)

Lemma furnished_more (d : gmap (list string) Node) (names names' : list string) :
  (forall n, In n names -> In n names') ->
  furnished d names -> furnished d names'.
Proof.
  intros Sub F dir Hd. destruct (F dir Hd) as (M & (n & In_n & St & Pr) & Only).
  split; [exact M|]. split; [eauto|].
  intros m Hm. destruct (Only m Hm) as [->|[I St']]; auto.
Qed.

Lemma shallow_root_file (d : gmap (list string) Node) (n : string)
    (c : list byte) :
  shallow d -> d !! [n] <> Some DirNode ->
  shallow (<[[n] := FileNode c]> d).
Proof.
  intros Sh Hn k v. rewrite lookup_insert.
  destruct (decide ([n] = k)) as [<-|Ne]; [eauto|].
  intros Hk. destruct (Sh k v Hk) as [L|(dir & m & c' & -> & -> & Hd)]; [auto|].
  right. exists dir, m, c'. repeat split.
  rewrite lookup_insert_ne; [exact Hd|]. intros [= ->]. congruence.
Qed.

Lemma validFolders_root_file (d : gmap (list string) Node) (n : string)
    (c : list byte) :
  validFolders d -> validFolders (<[[n] := FileNode c]> d).
Proof.
  intros V dir. rewrite lookup_insert.
  destruct (decide ([n] = [dir])); [discriminate|apply V].
Qed.

Lemma furnished_root_file (d : gmap (list string) Node) (n : string)
    (c : list byte) (names : list string) :
  furnished d names -> furnished (<[[n] := FileNode c]> d) names.
Proof.
  intros F dir. rewrite lookup_insert.
  destruct (decide ([n] = [dir])); [discriminate|].
  intros Hd. destruct (F dir Hd) as (M & (m & I & St & Pr) & Only).
  rewrite !lookup_insert_ne by discriminate.
  split; [exact M|]. split.
  - exists m. rewrite lookup_insert_ne by discriminate. auto.
  - intros m'. rewrite lookup_insert_ne by discriminate. apply Only.
Qed.

Lemma shallow_folder_file (d : gmap (list string) Node) (folder n : string)
    (c : list byte) :
  shallow d -> (forall c', d !! [folder] <> Some (FileNode c')) ->
  shallow (<[[folder; n] := FileNode c]> (<[[folder] := DirNode]> d)).
Proof.
  intros Sh Hf k v. rewrite lookup_insert.
  destruct (decide ([folder; n] = k)) as [<-|Ne].
  - intros [= <-]. right. exists folder, n, c. repeat split.
    rewrite lookup_insert_ne by discriminate. apply lookup_insert_eq.
  - rewrite lookup_insert.
    destruct (decide ([folder] = k)) as [<-|Ne']; [eauto|].
    intros Hk. destruct (Sh k v Hk) as [L|(dir & m & c' & -> & -> & Hd)]; [auto|].
    right. exists dir, m, c'. repeat split.
    rewrite lookup_insert_ne by discriminate.
    rewrite lookup_insert. destruct (decide ([folder] = [dir])); auto.
Qed.

Lemma validFolders_folder_file (d : gmap (list string) Node)
    (folder n : string) (c : list byte) :
  validName folder = true -> validFolders d ->
  validFolders (<[[folder; n] := FileNode c]> (<[[folder] := DirNode]> d)).
Proof.
  intros Vf V dir. rewrite lookup_insert_ne by discriminate.
  rewrite lookup_insert.
  destruct (decide ([folder] = [dir])) as [[= <-]|Ne]; [auto|apply V].
Qed.

Lemma furnished_upload (d : gmap (list string) Node) (folder n : string)
    (b j : list byte) (names : list string) :
  shallow d -> furnished d names -> withoutExtension n = folder ->
  furnished
    (<[[folder; "metadata.json"] := FileNode j]>
       (<[[folder] := DirNode]>
          (<[[folder; n] := FileNode b]> (<[[folder] := DirNode]> d))))
    (n :: names).
Proof.
  intros Sh F St.
  set (d2 := <[[folder; "metadata.json"] := FileNode j]> _).
  assert (Lmeta : d2 !! [folder; "metadata.json"] = Some (FileNode j))
    by apply lookup_insert_eq.
  assert (Lname : d2 !! [folder; n] <> None).
  { unfold d2. rewrite lookup_insert.
    destruct (decide ([folder; "metadata.json"] = [folder; n])); [discriminate|].
    rewrite lookup_insert_ne by discriminate. rewrite lookup_insert_eq.
    discriminate. }
  assert (Lfile : forall dir m, d2 !! [dir; m] <> None ->
            (dir = folder /\ (m = "metadata.json" \/ m = n))
            \/ d !! [dir; m] <> None).
  { intros dir m. unfold d2. rewrite lookup_insert.
    destruct (decide ([folder; "metadata.json"] = [dir; m])) as [[= <- <-]|_];
      [auto|].
    rewrite lookup_insert_ne by discriminate. rewrite lookup_insert.
    destruct (decide ([folder; n] = [dir; m])) as [[= <- <-]|_]; [auto|].
    rewrite lookup_insert_ne by discriminate. auto. }
  assert (Lother : forall dir k, dir <> folder ->
            d2 !! (dir :: k) = d !! (dir :: k)).
  { intros dir k Ne. unfold d2.
    rewrite !lookup_insert_ne; [reflexivity| | | |];
      intros [= E]; congruence. }
  intros dir Hdir.
  destruct (String.eqb_spec dir folder) as [->|Ne].
  - split; [eauto|]. split.
    + exists n. simpl. auto.
    + intros m Hm. destruct (Lfile folder m Hm) as [[_ [->| ->]]|Old].
      * auto.
      * right. simpl. auto.
      * destruct (d !! [folder; m]) as [v|] eqn:Lk; [|congruence].
        destruct (Sh _ _ Lk) as [[x [=]]|(dir & m' & c & [= <- <-] & -> & Hd)].
        destruct (F folder Hd) as (_ & _ & Only).
        destruct (Only m) as [->|[I St']]; [congruence|auto|].
        right. simpl. auto.
  - rewrite Lother in Hdir by assumption.
    destruct (F dir Hdir) as (M & (m & I & St' & Pr) & Only).
    rewrite !Lother by assumption.
    split; [exact M|]. split.
    + exists m. rewrite Lother by assumption. simpl. auto.
    + intros m'. rewrite Lother by assumption. intros Hm.
      destruct (Only m' Hm) as [->|[I' St'']]; simpl; auto.
Qed.

(** The store after an upload: that of the second save when the first one
    succeeds, that of the first one otherwise. *)
Lemma handleFileUpload_store (env : Ambient) (file : File) (w : World) :
  snd (AddNew.handleFileUpload env file w)
  = if isValidAudioFile file
    then
      let folder := withoutExtension (file_name file) in
      let first :=
        saveFile (folder +:+ "/" +:+ file_name file)
                 (DBlob (file_content file)) w in
      match fst first with
      | Ok _ =>
          snd (saveFile (folder +:+ "/metadata.json")
                 (DString (JSON_stringify
                    (createAudioMetadata env file folder
                       (location_origin env +:+ "/audio-thumbnail.jpg"))))
                 (snd first))
      | Err _ => snd first
      end
    else w.
Proof.
  unfold AddNew.handleFileUpload, AddNew.getAudioFolderName, bind.
  destruct (isValidAudioFile file); simpl; [|reflexivity].
  destruct (saveFile _ (DBlob _) w) as [[[]|e] wa]; simpl; [|reflexivity].
  destruct (saveFile _ _ wa) as [[[]|e] wb]; reflexivity.
Qed.

(** An upload keeps the store well rooted, shallow, with valid folder
    names, and furnished for the names uploaded so far. *)
Lemma upload_keeps_invariants (env : Ambient) (file : File) (w : World)
    (names : list string) :
  contains "/" (file_name file) = false ->
  contains "\" (file_name file) = false ->
  wellRooted w -> shallow (disk w) -> validFolders (disk w) ->
  furnished (disk w) names ->
  let w' := snd (AddNew.handleFileUpload env file w) in
  wellRooted w' /\ shallow (disk w') /\ validFolders (disk w')
  /\ furnished (disk w') (file_name file :: names).
Proof.
  intros Sl Bs R Sh V F.
  assert (F' : furnished (disk w) (file_name file :: names))
    by (eapply furnished_more; [|exact F]; simpl; auto).
  rewrite handleFileUpload_store.
  destruct (isValidAudioFile file); [|auto].
  cbv zeta.
  set (folder := withoutExtension (file_name file)).
  set (n := file_name file) in *.
  set (p1 := folder +:+ "/" +:+ n).
  set (p2 := folder +:+ "/metadata.json").
  set (data1 := DBlob (file_content file)).
  set (data2 := DString _).
  assert (Sf : contains "/" folder = false)
    by (apply withoutExtension_slashfree, Sl).
  assert (P1 : pathParts p1 = List.filter truthy [folder; n])
    by (apply pathParts_join; assumption).
  assert (P2 : pathParts p2 = List.filter truthy [folder; "metadata.json"])
    by (apply (pathParts_join folder "metadata.json"); [assumption|reflexivity]).
  pose proof (saveFile_wellRooted p1 data1 w R) as R1.
  assert (St : withoutExtension n = folder) by reflexivity.
  clearbody folder n data1 data2.
  destruct folder as [|fc fr].
  - (* no folder: the files go to the root *)
    destruct n as [|nc nr].
    + destruct (saveFile_nowhere p1 data1 w P1) as [Fail Same].
      destruct (saveFile p1 data1 w) as [[[]|e] wa]; simpl in *;
        [congruence|]. rewrite Same. auto.
    + simpl in P1, P2.
      assert (Step : forall p data w0 m,
                pathParts p = [m] -> wellRooted w0 -> shallow (disk w0) ->
                validFolders (disk w0) ->
                furnished (disk w0) (String nc nr :: names) ->
                shallow (disk (snd (saveFile p data w0)))
                /\ validFolders (disk (snd (saveFile p data w0)))
                /\ furnished (disk (snd (saveFile p data w0)))
                     (String nc nr :: names)).
      { intros p data w0 m Pm R0 Sh0 V0 F0.
        destruct (saveFile_at_root p m data w0 R0 Pm)
          as [[_ ->]|(_ & Hm & ->)]; [auto|].
        split; [apply shallow_root_file; assumption|].
        split; [apply validFolders_root_file; assumption|].
        apply furnished_root_file; assumption. }
      destruct (Step p1 data1 w _ P1 R Sh V F') as (Sh1 & V1 & F1).
      destruct (saveFile p1 data1 w) as [[[]|e] wa]; simpl in *; [|auto].
      pose proof (saveFile_wellRooted p2 data2 wa R1) as R2.
      destruct (Step p2 data2 wa _ P2 R1 Sh1 V1 F1) as (Sh2 & V2 & F2).
      auto.
  - (* a folder *)
    set (folder := String fc fr) in *.
    assert (Tn : truthy n = true).
    { destruct n as [|nc nr]; [discriminate St|reflexivity]. }
    simpl in P1, P2. rewrite Tn in P1.
    assert (Vn : validName folder = true -> validName n = true)
      by (rewrite <- St; apply validName_of_folder; assumption).
    destruct (saveFile_in_folder p1 folder n data1 w R Sh P1 Vn)
      as [(Fail & Same & _)|(Ok1 & Vf & NotFile & Root1 & D1)].
    + destruct (saveFile p1 data1 w) as [[[]|e] wa]; simpl in *;
        [congruence|]. rewrite Same. auto.
    + destruct (saveFile p1 data1 w) as [r wa]; simpl in *. subst r.
      assert (Sh1 : shallow (disk wa))
        by (rewrite D1; apply shallow_folder_file; assumption).
      destruct (saveFile_in_folder p2 folder "metadata.json" data2 wa R1 Sh1 P2
                  (fun _ => eq_refl))
        as [(_ & _ & [Bad|[Bad|[c Bad]]])|(_ & _ & _ & Root2 & D2)].
      * rewrite (ensureInit_rooted wa [] Root1) in Bad. simpl in Bad.
        congruence.
      * congruence.
      * rewrite D1 in Bad. rewrite lookup_insert_ne in Bad by discriminate.
        rewrite lookup_insert_eq in Bad. discriminate.
      * split; [right; exact Root2|]. rewrite D2, D1.
        split; [apply shallow_folder_file;
                [apply shallow_folder_file; assumption|]|].
        { intros c. rewrite lookup_insert_ne by discriminate.
          rewrite lookup_insert_eq. discriminate. }
        split; [apply validFolders_folder_file; [assumption|];
                apply validFolders_folder_file; assumption|].
        apply furnished_upload; assumption.
Qed.

End UploadFacts.

(** ** Listings *)

Section ListingFacts.
Import OpfsStorage.

Lemma childName_spec (dir k : list string) (n : string) :
  childName dir k = Some n <-> k = dir ++ [n].
Proof.
  revert k. induction dir as [|a dir IH]; intros k.
  - destruct k as [|b [|c k]]; simpl; split; intros H;
      try discriminate; congruence.
  - destruct k as [|b k]; simpl; [split; discriminate|].
    destruct (String.eqb_spec a b) as [->|Ne].
    + rewrite IH. split; [intros ->; reflexivity|intros [= ->]; reflexivity].
    + split; [discriminate|]. intros [= E _]. congruence.
Qed.

Lemma children_In (dir : list string) (d : gmap (list string) Node)
    (n : string) (v : Node) :
  In (n, v) (children dir d) <-> d !! (dir ++ [n]) = Some v.
Proof.
  unfold children. rewrite <- list_elem_of_In, list_elem_of_omap. split.
  - intros ([k v'] & Hk & E). simpl in E.
    destruct (childName dir k) as [m|] eqn:C; [|discriminate].
    injection E as -> ->. apply childName_spec in C as ->.
    apply elem_of_map_to_list, Hk.
  - intros L. exists (dir ++ [n], v). split; [apply elem_of_map_to_list, L|].
    simpl. rewrite (proj2 (childName_spec dir (dir ++ [n]) n) eq_refl).
    reflexivity.
Qed.

Lemma children_names_NoDup (dir : list string) (d : gmap (list string) Node) :
  List.NoDup (map fst (children dir d)).
Proof.
  unfold children.
  pose proof (NoDup_fst_map_to_list d) as N. apply NoDup_ListNoDup in N.
  revert N. generalize (map_to_list d). intros l.
  induction l as [|[k v] l IH]; intros N; [constructor|].
  simpl in N. apply List.NoDup_cons_iff in N as [Nk N].
  simpl. destruct (childName dir k) as [n|] eqn:C; [|apply IH, N].
  simpl. constructor; [|apply IH, N].
  intros I. apply in_map_iff in I as ([n' v'] & E & I). simpl in E. subst n'.
  apply list_elem_of_In, list_elem_of_omap in I as ([k' v''] & Hk' & E).
  simpl in E. destruct (childName dir k') as [m|] eqn:C'; [|discriminate].
  injection E as -> ->.
  apply childName_spec in C as ->. apply childName_spec in C' as ->.
  apply Nk. apply in_map_iff. exists (dir ++ [n], v'). split; [reflexivity|].
  apply list_elem_of_In, Hk'.
Qed.

Lemma filter_names_NoDup {X} (f : string * X -> bool) (l : list (string * X)) :
  List.NoDup (map fst l) -> List.NoDup (map fst (List.filter f l)).
Proof.
  induction l as [|x l IH]; intros N; [constructor|].
  simpl in N. apply List.NoDup_cons_iff in N as [Nx N].
  simpl. destruct (f x); [|apply IH, N].
  simpl. constructor; [|apply IH, N].
  intros I. apply Nx. apply in_map_iff in I as (y & E & I).
  apply filter_In in I as [I _]. apply in_map_iff. eauto.
Qed.

(** The names of the files, and of the folders, below [dir]. *)
Lemma fileNames_In (dir : list string) (d : gmap (list string) Node)
    (n : string) :
  In n (map fst (List.filter isFile (children dir d)))
  <-> exists c, d !! (dir ++ [n]) = Some (FileNode c).
Proof.
  rewrite in_map_iff. split.
  - intros ([m v] & E & I). simpl in E. subst m.
    apply filter_In in I as [I F]. apply children_In in I.
    destruct v as [c|]; [eauto|discriminate].
  - intros [c L]. exists (n, FileNode c). split; [reflexivity|].
    apply filter_In. split; [apply children_In, L|reflexivity].
Qed.

Lemma folderNames_In (dir : list string) (d : gmap (list string) Node)
    (n : string) :
  In n (map fst (List.filter isDirectory (children dir d)))
  <-> d !! (dir ++ [n]) = Some DirNode.
Proof.
  rewrite in_map_iff. split.
  - intros ([m v] & E & I). simpl in E. subst m.
    apply filter_In in I as [I F]. apply children_In in I.
    destruct v as [c|]; [discriminate|exact I].
  - intros L. exists (n, DirNode). split; [reflexivity|].
    apply filter_In. split; [apply children_In, L|reflexivity].
Qed.

Lemma listDirectories_root_eq (w : World) :
  wellRooted w ->
  listDirectories "" w
  = match _ensureInit w with
    | (Ok _, w1) =>
        match rootDir w1 with
        | Some _ =>
            (Ok (map fst (List.filter isDirectory (children [] (disk w1)))), w1)
        | None => (Err OpfsNotInitialized, w1)
        end
    | (Err e, w1) => (Err e, w1)
    end.
Proof.
  intros R. pose proof (ensureInit_wellRooted w R) as R1.
  unfold listDirectories, navigate, bind, requireRoot. simpl.
  destruct (_ensureInit w) as [[[]|e] w1]; [|reflexivity]. simpl in R1.
  destruct R1 as [-> | ->]; [reflexivity|].
  unfold ret, fsCall, entries. simpl. rewrite setDisk_same. reflexivity.
Qed.

Lemma listFiles_folder (dir : string) (w : World) :
  rootDir w = Some [] -> validName dir = true ->
  disk w !! [dir] = Some DirNode ->
  listFiles dir w
  = (Ok (map fst (List.filter isFile (children [dir] (disk w)))), w).
Proof.
  intros R V L.
  unfold listFiles, navigate. unfold bind at 1.
  rewrite (ensureInit_rooted w [] R).
  unfold bind at 1. unfold bind at 1. unfold requireRoot. rewrite R.
  assert (T : truthy dir = true).
  { unfold validName in V. destruct (truthy dir); [reflexivity|discriminate]. }
  rewrite T, (pathParts_single dir V), forEachM_fsCall.
  change (forEachM (fun b a => getDirectoryHandle b a false) [dir] [])
    with (walk false [dir] []).
  unfold fsCall at 1. rewrite walk_cons.
  rewrite (getDirectoryHandle_found [] dir false (disk w) V L).
  unfold fsCall, walk, forEachM, ret, bind, entries. simpl.
  rewrite !setDisk_same. reflexivity.
Qed.

Lemma filter_only {X} (f : X -> bool) (l : list X) (x : X) :
  List.NoDup l -> In x l -> f x = true ->
  (forall y, In y l -> f y = true -> y = x) ->
  List.filter f l = [x].
Proof.
  induction l as [|a l IH]; intros N I Fx U; [destruct I|].
  apply List.NoDup_cons_iff in N as [Na N]. simpl.
  destruct I as [->|I].
  - rewrite Fx. f_equal.
    assert (E : forall y, In y l -> f y = false).
    { intros y Hy. destruct (f y) eqn:Fy; [|reflexivity].
      exfalso. apply Na. rewrite <- (U y); simpl; auto. }
    clear -E. induction l as [|b l IH]; [reflexivity|].
    simpl. rewrite (E b) by (simpl; auto). apply IH.
    intros y Hy. apply E. simpl. auto.
  - destruct (f a) eqn:Fa.
    + exfalso. apply Na. rewrite (U a); simpl; auto.
    + apply IH; try assumption. intros y Hy. apply U. simpl. auto.
Qed.

End ListingFacts.

(** ** Uploads: the properties of the design document *)

Section UploadProperties.
Context `{Codec : Json}.
Import OpfsStorage.

Lemma uploadAll_invariants (ups : list (Ambient * File)) (w : World)
    (names : list string) :
  Forall (fun u => contains "/" (file_name (snd u)) = false
                   /\ contains "\" (file_name (snd u)) = false) ups ->
  wellRooted w -> shallow (disk w) -> validFolders (disk w) ->
  furnished (disk w) names ->
  let w' := AddNew.uploadAll ups w in
  wellRooted w' /\ shallow (disk w') /\ validFolders (disk w')
  /\ furnished (disk w') (map (fun u => file_name (snd u)) ups ++ names).
Proof.
  intros Sl. revert w names.
  induction Sl as [|[env file] ups Hu Sl IH]; intros w names R Sh V F;
    [simpl; auto|].
  simpl in Hu. destruct Hu as [Hu Hb].
  destruct (upload_keeps_invariants env file w names Hu Hb R Sh V F)
    as (R1 & Sh1 & V1 & F1).
  destruct (IH _ _ R1 Sh1 V1 F1) as (R2 & Sh2 & V2 & F2).
  simpl. split; [exact R2|]. split; [exact Sh2|]. split; [exact V2|].
  eapply furnished_more; [|exact F2].
  intros n I. apply in_app_iff in I as [I|[<-|I]]; simpl;
    rewrite ?in_app_iff; auto.
Qed.

(** C7, as stated, fails: two uploads whose names differ only in the
    extension go to one folder, which then holds two payload files. *)
Lemma two_payloads_in_one_folder :
  fst (listDirectories "" Sample.namesakes) = Ok ["song"]
  /\ exists files,
       fst (listFiles "song" Sample.namesakes) = Ok files
       /\ In "song.mp3" (payloadFiles files)
       /\ In "song.wav" (payloadFiles files)
       /\ length (payloadFiles files) = 2%nat.
Proof.
  vm_compute. split; [reflexivity|].
  eexists. split; [reflexivity|]. simpl. auto.
Qed.

(** C7, amended.  In every store reached from an empty one by a sequence
    of uploads of files whose names hold no slash and no backslash, the
    folders listed at the root have distinct names, each holds exactly one
    sidecar, and its other files are files that were uploaded under the
    folder's name, the file name without its extension.  There is exactly
    one of them when the uploads that share a folder name share the file
    name and none is named as the sidecar. *)
Theorem uploads_furnish_folders (ups : list (Ambient * File)) (w : World) :
  disk w = ∅ -> wellRooted w ->
  Forall (fun u => contains "/" (file_name (snd u)) = false
                   /\ contains "\" (file_name (snd u)) = false) ups ->
  forall dirs w1,
    listDirectories "" (AddNew.uploadAll ups w) = (Ok dirs, w1) ->
    List.NoDup dirs
    /\ forall dir, In dir dirs ->
         exists files,
           listFiles dir w1 = (Ok files, w1)
           /\ sidecars files = ["metadata.json"]
           /\ (forall n, In n (payloadFiles files) ->
                 exists u, In u ups /\ file_name (snd u) = n
                           /\ withoutExtension n = dir)
           /\ ((forall u u', In u ups -> In u' ups ->
                  withoutExtension (file_name (snd u))
                  = withoutExtension (file_name (snd u')) ->
                  file_name (snd u) = file_name (snd u')) ->
               (forall u, In u ups -> file_name (snd u) <> "metadata.json") ->
               exists n, payloadFiles files = [n]).
Proof.
  intros Empty R Sl dirs w1 L.
  destruct (uploadAll_invariants ups w [] Sl R) as (R' & Sh & V & F).
  { rewrite Empty. intros k v. rewrite lookup_empty. discriminate. }
  { rewrite Empty. intros dir. rewrite lookup_empty. discriminate. }
  { rewrite Empty. intros dir. rewrite lookup_empty. discriminate. }
  rewrite app_nil_r in F.
  set (w' := AddNew.uploadAll ups w) in *.
  rewrite (listDirectories_root_eq w' R') in L.
  destruct (ensureInit_frame w') as (_ & Hd & _).
  pose proof (ensureInit_wellRooted w' R') as Rw.
  destruct (_ensureInit w') as [[[]|e] w0]; [|discriminate]. simpl in *.
  destruct (rootDir w0) as [root|] eqn:Rt; [|discriminate].
  injection L as <- <-.
  assert (root = []) as -> by (destruct Rw as [Rw|Rw]; congruence).
  rewrite Hd.
  split; [apply filter_names_NoDup, children_names_NoDup|].
  intros dir Hdir. apply folderNames_In in Hdir. simpl in Hdir.
  destruct (F dir Hdir) as ([c Meta] & (n0 & In0 & St0 & Pr0) & Only).
  set (files := map fst (List.filter isFile (children [dir] (disk w')))).
  assert (Nd : List.NoDup files)
    by apply filter_names_NoDup, children_names_NoDup.
  assert (Mem : forall n, In n files <-> exists c, disk w' !! [dir; n] = Some (FileNode c))
    by (intros n; apply (fileNames_In [dir])).
  assert (Pay : forall n, In n (payloadFiles files) ->
            In n (map (fun u => file_name (snd u)) ups)
            /\ withoutExtension n = dir).
  { intros n Hn. apply filter_In in Hn as [Hn Ne].
    apply Mem in Hn as [c' Hn].
    destruct (Only n) as [->|H']; [congruence|discriminate Ne|exact H']. }
  exists files. split; [|split; [|split]].
  - rewrite (listFiles_folder dir w0 Rt (V dir Hdir)), Hd;
      [reflexivity|rewrite Hd; exact Hdir].
  - apply (filter_only _ files "metadata.json"); try assumption.
    + apply Mem. eauto.
    + reflexivity.
    + intros y _ Ey. apply String.eqb_eq, Ey.
  - intros n Hn. destruct (Pay n Hn) as [I St].
    apply in_map_iff in I as (u & E & I). eauto.
  - intros Same NotMeta.
    apply in_map_iff in In0 as (u0 & E0 & I0).
    exists n0.
    apply (filter_only _ files n0); try assumption.
    + apply Mem. destruct (disk w' !! [dir; n0]) as [v|] eqn:Lk; [|congruence].
      destruct (Sh _ _ Lk) as [[x [=]]|(dir' & m & c' & [= <- <-] & -> & _)].
      eauto.
    + apply negb_true_iff, String.eqb_neq. rewrite <- E0.
      apply NotMeta, I0.
    + intros y Hy Ey.
      destruct (Pay y) as [I St]; [apply filter_In; auto|].
      apply in_map_iff in I as (u & E & I).
      rewrite <- E, <- E0. apply Same; try assumption.
      rewrite E, E0. congruence.
Qed.

End UploadProperties.

(** * Further properties of the code *)

(** ** The storage engine: initialisation, reads, and what a save keeps *)

Section StorageMore.
Import OpfsStorage.

Lemma ensureInit_again (w : World) :
  _ensureInit (snd (_ensureInit w)) = _ensureInit w.
Proof.
  unfold _ensureInit at 2 3.
  destruct (rootDir w) as [root|] eqn:R.
  - simpl. unfold _ensureInit. rewrite R. reflexivity.
  - destruct (initPromise w) as [settled|] eqn:P.
    + simpl. unfold _ensureInit. rewrite R, P. reflexivity.
    + destruct (_getExecutionContext (realm w));
        try destruct (getDirectorySupported w); reflexivity.
Qed.

(** X1.  Initialisation settles once: a second [_ensureInit] returns what
    the first one returned, success or failure, and changes nothing. *)
Theorem ensureInit_settles_once (w : World) :
  _ensureInit (snd (_ensureInit w)) = _ensureInit w.
Proof. apply ensureInit_again. Qed.

(** [_ensureDirectory] without [create], step by step: it changes
    nothing. *)
Lemma ensureDirectory_find (path : string) (w : World) :
  _ensureDirectory path false w
  = match rootDir w with
    | None => (Err OpfsNotInitialized, w)
    | Some root =>
        match pop (pathParts path) with
        | (None, _) => (Err InvalidFilePath, w)
        | (Some fileName, dirs) =>
            match walk false dirs root (disk w) with
            | (Ok h, _) => (Ok (h, fileName), w)
            | (Err e, _) => (Err e, w)
            end
        end
    end.
Proof.
  unfold _ensureDirectory. unfold bind at 1. unfold requireRoot.
  destruct (rootDir w) as [root|]; [|reflexivity].
  destruct (pop (pathParts path)) as [[fileName|] dirs]; [|reflexivity].
  unfold bind. rewrite forEachM_fsCall.
  change (forEachM (fun b a => getDirectoryHandle b a false) dirs root)
    with (walk false dirs root).
  unfold fsCall. pose proof (walk_pure dirs root (disk w)) as P.
  destruct (walk false dirs root (disk w)) as [[h|e] d1]; simpl in P;
    subst d1; rewrite setDisk_same; reflexivity.
Qed.

Lemma navigate_find (path : string) (w : World) :
  navigate path w
  = match rootDir w with
    | None => (Err OpfsNotInitialized, w)
    | Some root =>
        match walk false (pathParts path) root (disk w) with
        | (Ok h, _) => (Ok h, w)
        | (Err e, _) => (Err e, w)
        end
    end.
Proof.
  unfold navigate. unfold bind at 1. unfold requireRoot.
  destruct (rootDir w) as [root|]; [|reflexivity].
  destruct path as [|c path].
  - reflexivity.
  - cbn [truthy]. rewrite forEachM_fsCall.
    change (forEachM (fun b a => getDirectoryHandle b a false)
              (pathParts (String c path)) root)
      with (walk false (pathParts (String c path)) root).
    unfold fsCall.
    pose proof (walk_pure (pathParts (String c path)) root (disk w)) as P.
    destruct (walk false _ root (disk w)) as [[h|e] d1]; simpl in P;
      subst d1; rewrite setDisk_same; reflexivity.
Qed.

Lemma listDirectories_pure (path : string) (w : World) :
  snd (listDirectories path w) = snd (_ensureInit w).
Proof.
  unfold listDirectories. unfold bind at 1.
  destruct (_ensureInit w) as [[[]|e] w1]; [|reflexivity]. simpl.
  unfold bind at 1. rewrite navigate_find.
  destruct (rootDir w1) as [root|]; [|reflexivity].
  destruct (walk false (pathParts path) root (disk w1)) as [[h|e] d1];
    [|reflexivity].
  unfold bind, fsCall, entries, ret. simpl. apply setDisk_same.
Qed.

Lemma listFiles_pure (path : string) (w : World) :
  snd (listFiles path w) = snd (_ensureInit w).
Proof.
  unfold listFiles. unfold bind at 1.
  destruct (_ensureInit w) as [[[]|e] w1]; [|reflexivity]. simpl.
  unfold bind at 1. rewrite navigate_find.
  destruct (rootDir w1) as [root|]; [|reflexivity].
  destruct (walk false (pathParts path) root (disk w1)) as [[h|e] d1];
    [|reflexivity].
  unfold bind, fsCall, entries, ret. simpl. apply setDisk_same.
Qed.

Lemma readFile_settled (path : string) (w : World) :
  snd (readFile path w) = snd (_ensureInit w).
Proof.
  rewrite readFile_eq.
  destruct (_ensureInit w) as [[[]|e] w1]; [|reflexivity]. simpl.
  destruct (rootDir w1) as [root|]; [|reflexivity].
  destruct (pop (pathParts path)) as [[fileName|] dirs]; [|reflexivity].
  destruct (walk false dirs root (disk w1)) as [[h|e] d1]; [|reflexivity].
  destruct (getFileHandle h fileName false (disk w1)) as [[f|e] d2];
    [|reflexivity].
  destruct (disk w1 !! f) as [[c|]|]; reflexivity.
Qed.

(** [getFileDetails], step by step. *)
Lemma getFileDetails_eq (path : string) (w : World) :
  getFileDetails path w
  = match _ensureInit w with
    | (Err _, w1) => ({| exists_ := false; size_ := 0 |}, w1)
    | (Ok _, w1) =>
        match rootDir w1 with
        | None => ({| exists_ := false; size_ := 0 |}, w1)
        | Some root =>
            match pop (pathParts path) with
            | (None, _) => ({| exists_ := false; size_ := 0 |}, w1)
            | (Some fileName, dirs) =>
                match walk false dirs root (disk w1) with
                | (Err _, _) => ({| exists_ := false; size_ := 0 |}, w1)
                | (Ok h, _) =>
                    match getFileHandle h fileName false (disk w1) with
                    | (Err _, _) => ({| exists_ := false; size_ := 0 |}, w1)
                    | (Ok f, _) =>
                        match disk w1 !! f with
                        | Some (FileNode c) =>
                            ({| exists_ := true; size_ := length c |}, w1)
                        | _ => ({| exists_ := false; size_ := 0 |}, w1)
                        end
                    end
                end
            end
        end
    end.
Proof.
  unfold getFileDetails, getFileDetailsTry. unfold bind at 1.
  destruct (_ensureInit w) as [[[]|e] w1]; [|reflexivity].
  unfold bind at 1. unfold get at 1.
  destruct (rootDir w1) as [root|] eqn:R; [|reflexivity].
  unfold bind at 1. rewrite ensureDirectory_find, R.
  destruct (pop (pathParts path)) as [[fileName|] dirs]; [|reflexivity].
  destruct (walk false dirs root (disk w1)) as [[h|e] d1]; [|reflexivity].
  unfold bind at 1. unfold fsCall at 1.
  pose proof (getFileHandle_pure h fileName (disk w1)) as P.
  destruct (getFileHandle h fileName false (disk w1)) as [[f|e] d2];
    simpl in P; subst d2; rewrite setDisk_same; [|reflexivity].
  unfold bind at 1. unfold get at 1.
  destruct (context w1);
    unfold bind, fsCall, sync_getSize, getFile_size, fileContent, bind, ret;
    destruct (disk w1 !! f) as [[c|]|] eqn:L; simpl;
    rewrite ?setDisk_same; reflexivity.
Qed.

(** X2.  Reading never writes: [readFile], [listDirectories], [listFiles]
    and [getFileDetails] leave every file and directory as it was, create
    nothing on the way, and publish no event. *)
Theorem reads_change_nothing (path : string) (w : World) :
  (disk (snd (readFile path w)) = disk w
   /\ dispatched (snd (readFile path w)) = dispatched w)
  /\ (disk (snd (listDirectories path w)) = disk w
      /\ dispatched (snd (listDirectories path w)) = dispatched w)
  /\ (disk (snd (listFiles path w)) = disk w
      /\ dispatched (snd (listFiles path w)) = dispatched w)
  /\ (disk (snd (getFileDetails path w)) = disk w
      /\ dispatched (snd (getFileDetails path w)) = dispatched w).
Proof.
  destruct (ensureInit_frame w) as (_ & Hd & He & _).
  assert (G : snd (getFileDetails path w) = snd (_ensureInit w)).
  { rewrite getFileDetails_eq.
    destruct (_ensureInit w) as [[[]|e] w1]; [|reflexivity]. simpl.
    destruct (rootDir w1) as [root|]; [|reflexivity].
    destruct (pop (pathParts path)) as [[fileName|] dirs]; [|reflexivity].
    destruct (walk false dirs root (disk w1)) as [[h|e] d1]; [|reflexivity].
    destruct (getFileHandle h fileName false (disk w1)) as [[f|e] d2];
      [|reflexivity].
    destruct (disk w1 !! f) as [[c|]|]; reflexivity. }
  rewrite readFile_settled, listDirectories_pure, listFiles_pure, G.
  auto 10.
Qed.

(** X3.  [getFileDetails] agrees with [readFile]: it reports a file exactly
    where [readFile] succeeds, with the length of what [readFile] returns
    as its size, and ["exists: false, size: 0"] wherever [readFile]
    fails. *)
Theorem details_agree_with_read (path : string) (w : World) :
  fst (getFileDetails path w)
  = match fst (readFile path w) with
    | Ok c => {| exists_ := true; size_ := length c |}
    | Err _ => {| exists_ := false; size_ := 0 |}
    end.
Proof.
  rewrite getFileDetails_eq, readFile_eq.
  destruct (_ensureInit w) as [[[]|e] w1]; [|reflexivity].
  destruct (rootDir w1) as [root|]; [|reflexivity].
  destruct (pop (pathParts path)) as [[fileName|] dirs]; [|reflexivity].
  destruct (walk false dirs root (disk w1)) as [[h|e] d1]; [|reflexivity].
  destruct (getFileHandle h fileName false (disk w1)) as [[f|e] d2];
    [|reflexivity].
  destruct (disk w1 !! f) as [[c|]|]; reflexivity.
Qed.

(** *** What a save keeps, and where the saved file shows up *)

Lemma pop_snoc {A} (l r : list A) (x : A) :
  pop l = (Some x, r) -> l = r ++ [x].
Proof.
  revert r. induction l as [|a l IH]; intros r; [discriminate|].
  destruct l as [|b l].
  - intros [= <- <-]. reflexivity.
  - change (pop (a :: b :: l)) with (let '(o, r') := pop (b :: l) in (o, a :: r')).
    destruct (pop (b :: l)) as [o r'] eqn:P. intros [= -> <-].
    rewrite (IH r' eq_refl). reflexivity.
Qed.

Lemma pop_app {A} (r : list A) (x : A) : pop (r ++ [x]) = (Some x, r).
Proof.
  induction r as [|a r IH]; [reflexivity|].
  change (pop ((a :: r) ++ [x]))
    with (match r ++ [x] with
          | [] => (Some a, [])
          | _ :: _ => let '(o, r') := pop (r ++ [x]) in (o, a :: r')
          end).
  rewrite IH. destruct r; reflexivity.
Qed.

Lemma getDirectoryHandle_keeps (dir : list string) (n : string)
    (create : bool) (d : gmap (list string) Node) (k : list string) (v : Node) :
  d !! k = Some v -> snd (getDirectoryHandle dir n create d) !! k = Some v.
Proof.
  intros Hk. unfold getDirectoryHandle.
  destruct (validName n); simpl; [|exact Hk].
  destruct (d !! (dir ++ [n])) as [[c|]|] eqn:L; simpl; try exact Hk.
  destruct create; simpl; [|exact Hk].
  rewrite lookup_insert_ne; [exact Hk|]. intros <-. congruence.
Qed.

Lemma walk_keeps (create : bool) (parts : list string) (dir : list string)
    (d : gmap (list string) Node) (k : list string) (v : Node) :
  d !! k = Some v -> snd (walk create parts dir d) !! k = Some v.
Proof.
  revert dir d. induction parts as [|p ps IH]; intros dir d Hk; [exact Hk|].
  rewrite walk_cons.
  pose proof (getDirectoryHandle_keeps dir p create d k v Hk) as K.
  destruct (getDirectoryHandle dir p create d) as [[h|e] d1]; simpl in K;
    [apply IH, K|exact K].
Qed.

Lemma saveFile_keeps (path : string) (data : Data) (w : World)
    (k : list string) (v : Node) :
  disk w !! k = Some v ->
  (forall root, rootDir (snd (_ensureInit w)) = Some root ->
                k <> root ++ pathParts path) ->
  disk (snd (saveFile path data w)) !! k = Some v.
Proof.
  intros Hk Ne. rewrite saveFile_eq.
  destruct (ensureInit_frame w) as (_ & Hd & _).
  destruct (_ensureInit w) as [[[]|e] w1]; simpl in *; rewrite <- Hd in Hk;
    [|exact Hk].
  destruct (rootDir w1) as [root|] eqn:R; [|exact Hk].
  specialize (Ne root eq_refl).
  destruct (pop (pathParts path)) as [[fileName|] dirs] eqn:P; [|exact Hk].
  apply pop_snoc in P. rewrite P in Ne.
  pose proof (walk_keeps true dirs root (disk w1) k v Hk) as K1.
  destruct (walk true dirs root (disk w1)) as [[h|e] d1] eqn:W; simpl in K1;
    [|exact K1].
  apply walk_ok in W as (-> & _).
  destruct (getFileHandle (root ++ dirs) fileName true d1) as [[f|e] d2] eqn:G.
  - pose proof (getFileHandle_ok _ _ _ _ _ _ G) as (-> & _ & _ & Hd2).
    match goal with |- context [emitChange ?ev ?x] =>
      destruct (emitChange_frame ev x) as (_ & _ & -> & _)
    end. simpl.
    rewrite lookup_insert_ne by (rewrite <- app_assoc; congruence).
    destruct Hd2 as [->|(_ & Hn & ->)]; [exact K1|].
    rewrite lookup_insert_ne; [exact K1|]. rewrite <- app_assoc. congruence.
  - simpl. unfold getFileHandle in G.
    destruct (validName fileName); simpl in G; [|congruence].
    destruct (d1 !! ((root ++ dirs) ++ [fileName])) as [[c|]|]; congruence.
Qed.

(** X4.  A save keeps the rest of the store: whether it succeeds or fails,
    every file and every directory other than the file it writes stays as
    it was (directories on the way are only added). *)
Theorem save_keeps_the_rest (path : string) (data : Data) (w : World)
    (k : list string) (v : Node) :
  disk w !! k = Some v ->
  (forall root, rootDir (snd (_ensureInit w)) = Some root ->
                k <> root ++ pathParts path) ->
  disk (snd (saveFile path data w)) !! k = Some v.
Proof. apply saveFile_keeps. Qed.

(** [listFiles] and [listDirectories], step by step. *)
Lemma listFiles_eq (path : string) (w : World) :
  listFiles path w
  = match _ensureInit w with
    | (Err e, w1) => (Err e, w1)
    | (Ok _, w1) =>
        match rootDir w1 with
        | None => (Err OpfsNotInitialized, w1)
        | Some root =>
            match walk false (pathParts path) root (disk w1) with
            | (Ok h, _) =>
                (Ok (map fst (List.filter isFile (children h (disk w1)))), w1)
            | (Err e, _) => (Err e, w1)
            end
        end
    end.
Proof.
  unfold listFiles. unfold bind at 1.
  destruct (_ensureInit w) as [[[]|e] w1]; [|reflexivity].
  unfold bind at 1. rewrite navigate_find.
  destruct (rootDir w1) as [root|]; [|reflexivity].
  destruct (walk false (pathParts path) root (disk w1)) as [[h|e] d1];
    [|reflexivity].
  unfold bind, fsCall, entries, ret. simpl. rewrite setDisk_same. reflexivity.
Qed.

Lemma listDirectories_eq (path : string) (w : World) :
  listDirectories path w
  = match _ensureInit w with
    | (Err e, w1) => (Err e, w1)
    | (Ok _, w1) =>
        match rootDir w1 with
        | None => (Err OpfsNotInitialized, w1)
        | Some root =>
            match walk false (pathParts path) root (disk w1) with
            | (Ok h, _) =>
                (Ok (map fst (List.filter isDirectory (children h (disk w1)))),
                 w1)
            | (Err e, _) => (Err e, w1)
            end
        end
    end.
Proof.
  unfold listDirectories. unfold bind at 1.
  destruct (_ensureInit w) as [[[]|e] w1]; [|reflexivity].
  unfold bind at 1. rewrite navigate_find.
  destruct (rootDir w1) as [root|]; [|reflexivity].
  destruct (walk false (pathParts path) root (disk w1)) as [[h|e] d1];
    [|reflexivity].
  unfold bind, fsCall, entries, ret. simpl. rewrite setDisk_same. reflexivity.
Qed.

Lemma walk_first (create : bool) (p : string) (ps : list string)
    (dir : list string) (d d' : gmap (list string) Node) (h : list string) :
  walk create (p :: ps) dir d = (Ok h, d') -> d' !! (dir ++ [p]) = Some DirNode.
Proof.
  rewrite walk_cons.
  destruct (getDirectoryHandle dir p create d) as [[h1|e] d1] eqn:G;
    [|discriminate].
  intros W. apply getDirectoryHandle_ok in G as (-> & _ & Hd & _).
  apply walk_ok in W as (_ & K & _). apply K, Hd.
Qed.

(** X5.  Listing consistency after a save: the saved file is among the
    files of its directory, and for a path with directories the first one
    is among the directories of the root. *)
Theorem saved_file_is_listed (path : string) (data : Data) (w w' : World) :
  saveFile path data w = (Ok tt, w') ->
  (forall dirPath n,
     pathParts path = pathParts dirPath ++ [n] ->
     exists files, listFiles dirPath w' = (Ok files, w') /\ In n files)
  /\ (forall first rest,
        pathParts path = first :: rest -> rest <> [] ->
        exists dirs, listDirectories "" w' = (Ok dirs, w') /\ In first dirs).
Proof.
  intros S.
  apply saveFile_ok in S
    as (w1 & root & fileName & dirs & d1 & d2 & I & R & P & W & G & ->).
  apply pop_snoc in P.
  match goal with |- context [emitChange ?ev ?x] =>
    destruct (emitChange_frame ev x) as (_ & _ & Hd & Hr & _);
    set (w' := snd (emitChange ev x)) in *
  end.
  simpl in Hd, Hr. rewrite R in Hr.
  pose proof (getFileHandle_ok _ _ _ _ _ _ G) as (_ & Hv & [c Hc] & _).
  assert (K : keepsDirs d1 (disk w')).
  { rewrite Hd. eapply keepsDirs_trans; [eapply getFileHandle_keeps, G|].
    eapply keepsDirs_insert_file, Hc. }
  split.
  - intros dirPath n E. rewrite P in E. apply app_inj_tail in E as [E <-].
    rewrite listFiles_eq, (ensureInit_rooted w' root Hr), Hr, <- E.
    rewrite (walk_again true false dirs root (disk w1) d1 _ _ W K).
    eexists. split; [reflexivity|].
    apply fileNames_In. exists (dataBytes data).
    rewrite Hd, <- app_assoc. apply lookup_insert_eq.
  - intros first rest E Hrest.
    rewrite listDirectories_eq, (ensureInit_rooted w' root Hr), Hr.
    change (walk false (pathParts "") root (disk w'))
      with (@Ok (list string) root, disk w').
    eexists. split; [reflexivity|].
    apply folderNames_In.
    destruct dirs as [|p ps].
    + rewrite P in E. simpl in E. injection E as _ <-. congruence.
    + rewrite P in E. simpl in E. injection E as <- _.
      apply K. eapply walk_first, W.
Qed.

End StorageMore.

(** ** The storage engine: deleting *)

Section StorageDelete.
Import OpfsStorage.

Lemma isPrefix_spec (t k : list string) :
  isPrefix t k = true <-> exists rest, k = t ++ rest.
Proof.
  revert k. induction t as [|a t IH]; intros k.
  - simpl. split; [eauto|reflexivity].
  - destruct k as [|b k]; simpl.
    + split; [discriminate|]. intros [rest E]. discriminate.
    + rewrite andb_true_iff, IH. split.
      * intros [E [rest ->]]. apply String.eqb_eq in E as ->. eauto.
      * intros [rest [= -> ->]]. split; [apply String.eqb_refl|eauto].
Qed.

Lemma isPrefix_self (t : list string) : isPrefix t t = true.
Proof. apply isPrefix_spec. exists []. symmetry. apply app_nil_r. Qed.

Lemma isPrefix_longer (t k : list string) :
  (length k < length t)%nat -> isPrefix t k = false.
Proof.
  intros L. destruct (isPrefix t k) eqn:E; [|reflexivity].
  apply isPrefix_spec in E as [rest ->]. rewrite length_app in L. lia.
Qed.

Lemma lookup_filter_below (t k : list string) (d : gmap (list string) Node) :
  filter (fun kv => isPrefix t (fst kv) = false) d !! k
  = if isPrefix t k then None else d !! k.
Proof.
  destruct (isPrefix t k) eqn:E.
  - apply map_lookup_filter_None. right. intros x _ H. simpl in H. congruence.
  - destruct (d !! k) as [v|] eqn:L.
    + apply map_lookup_filter_Some. split; [exact L|exact E].
    + apply map_lookup_filter_None. left. exact L.
Qed.

(** What [removeEntry] does: on an error nothing; otherwise the entry is
    gone, what lies beside it stays, and what lay below a directory is gone
    with it. *)
Lemma removeEntry_spec (dir : list string) (n : string) (recursive : bool)
    (d : gmap (list string) Node) :
  match removeEntry dir n recursive d with
  | (Some _, d') => d' = d
  | (None, d') =>
      validName n = true
      /\ (exists v, d !! (dir ++ [n]) = Some v)
      /\ d' !! (dir ++ [n]) = None
      /\ (forall k, isPrefix (dir ++ [n]) k = false -> d' !! k = d !! k)
      /\ (d !! (dir ++ [n]) = Some DirNode ->
          forall k, isPrefix (dir ++ [n]) k = true -> d' !! k = None)
  end.
Proof.
  unfold removeEntry.
  destruct (validName n) eqn:V; simpl; [|reflexivity].
  destruct (d !! (dir ++ [n])) as [[c|]|] eqn:L; [| |reflexivity].
  - split; [reflexivity|]. split; [eauto|].
    split; [apply lookup_delete_eq|]. split; [|discriminate].
    intros k Hk. apply lookup_delete_ne. intros <-.
    rewrite isPrefix_self in Hk. discriminate.
  - assert (forall d', d' = filter (fun kv => isPrefix (dir ++ [n]) (fst kv) = false) d ->
              true = true /\ (exists v : Node, Some DirNode = Some v)
              /\ d' !! (dir ++ [n]) = None
              /\ (forall k, isPrefix (dir ++ [n]) k = false -> d' !! k = d !! k)
              /\ (Some DirNode = Some DirNode ->
                  forall k, isPrefix (dir ++ [n]) k = true -> d' !! k = None))
      as F.
    { intros d' ->. split; [reflexivity|]. split; [eauto|].
      split; [rewrite lookup_filter_below, isPrefix_self; reflexivity|].
      split.
      - intros k Hk. rewrite lookup_filter_below, Hk. reflexivity.
      - intros _ k Hk. rewrite lookup_filter_below, Hk. reflexivity. }
    destruct (children (dir ++ [n]) d); [apply F; reflexivity|].
    destruct recursive; [apply F|]; reflexivity.
Qed.

(** A walk that creates nothing reads the store only at the directories
    it passes. *)
Lemma walk_local (parts : list string) (dir : list string)
    (d d' : gmap (list string) Node) :
  (forall k, (length k <= length dir + length parts)%nat -> d' !! k = d !! k) ->
  fst (walk false parts dir d') = fst (walk false parts dir d).
Proof.
  revert dir. induction parts as [|p ps IH]; intros dir H; [reflexivity|].
  rewrite !walk_cons. unfold getDirectoryHandle.
  rewrite (H (dir ++ [p])) by (rewrite length_app; simpl; lia).
  destruct (validName p); simpl; [|reflexivity].
  destruct (d !! (dir ++ [p])) as [[c|]|]; try reflexivity.
  apply IH. intros k Hk. apply H. rewrite length_app in Hk. simpl in *. lia.
Qed.

(** [deleteDirectory] and [deleteFile], step by step. *)
Lemma deleteDirectory_eq (path : string) (w : World) :
  deleteDirectory path w
  = match _ensureInit w with
    | (Err e, w1) => (Some (Raised e), w1)
    | (Ok _, w1) =>
        match rootDir w1 with
        | None => (Some (Raised OpfsNotInitialized), w1)
        | Some root =>
            match pop (pathParts path) with
            | (None, _) => (Some InvalidDirectoryPath, w1)
            | (Some dirName, parts) =>
                match walk false parts root (disk w1) with
                | (Err e, _) => (Some (Raised e), w1)
                | (Ok h, _) =>
                    match removeEntry h dirName true (disk w1) with
                    | (Some e, _) => (Some e, w1)
                    | (None, d) =>
                        (None,
                         snd (emitChange {| type_ := directory_deleted;
                                            path_ := path |} (setDisk d w1)))
                    end
                end
            end
        end
    end.
Proof.
  unfold deleteDirectory, raising.
  destruct (_ensureInit w) as [[[]|e] w1]; [|reflexivity].
  unfold requireRoot. destruct (rootDir w1) as [root|]; [|reflexivity].
  destruct (pop (pathParts path)) as [[dirName|] parts]; [|reflexivity].
  rewrite forEachM_fsCall.
  change (forEachM (fun b a => getDirectoryHandle b a false) parts root)
    with (walk false parts root).
  unfold fsCall. pose proof (walk_pure parts root (disk w1)) as P.
  destruct (walk false parts root (disk w1)) as [[h|e] d1]; simpl in P;
    subst d1; rewrite setDisk_same; [|reflexivity].
  pose proof (removeEntry_spec h dirName true (disk w1)) as S.
  destruct (removeEntry h dirName true (disk w1)) as [[e|] d]; [|reflexivity].
  subst d. rewrite setDisk_same. reflexivity.
Qed.

Lemma deleteFile_eq (path : string) (w : World) :
  deleteFile path w
  = match _ensureInit w with
    | (Err e, w1) => (Some (Raised e), w1)
    | (Ok _, w1) =>
        match rootDir w1 with
        | None => (Some (Raised OpfsNotInitialized), w1)
        | Some root =>
            match pop (pathParts path) with
            | (None, _) => (Some (Raised InvalidFilePath), w1)
            | (Some fileName, dirs) =>
                match walk false dirs root (disk w1) with
                | (Err e, _) => (Some (Raised e), w1)
                | (Ok h, _) =>
                    match removeEntry h fileName false (disk w1) with
                    | (Some e, _) => (Some e, w1)
                    | (None, d) =>
                        (None,
                         snd (emitChange {| type_ := file_deleted;
                                            path_ := path |} (setDisk d w1)))
                    end
                end
            end
        end
    end.
Proof.
  unfold deleteFile, raising.
  destruct (_ensureInit w) as [[[]|e] w1]; [|reflexivity].
  unfold requireRoot at 1. destruct (rootDir w1) as [root|] eqn:R; [|reflexivity].
  rewrite ensureDirectory_find, R.
  destruct (pop (pathParts path)) as [[fileName|] dirs]; [|reflexivity].
  destruct (walk false dirs root (disk w1)) as [[h|e] d1]; [|reflexivity].
  pose proof (removeEntry_spec h fileName false (disk w1)) as S.
  destruct (removeEntry h fileName false (disk w1)) as [[e|] d]; [|reflexivity].
  subst d. rewrite setDisk_same. reflexivity.
Qed.

(** A removal that went through, seen from the world after it. *)
Lemma removal_outcome (recursive : bool) (ev : OpfsChangeDetail) (w1 : World)
    (root parts : list string) (name : string) (h : list string)
    (d0 d : gmap (list string) Node) :
  walk false parts root (disk w1) = (Ok h, d0) ->
  removeEntry h name recursive (disk w1) = (None, d) ->
  let w' := snd (emitChange ev (setDisk d w1)) in
  let t := root ++ parts ++ [name] in
  rootDir w' = rootDir w1
  /\ validName name = true
  /\ (exists v, disk w1 !! t = Some v)
  /\ disk w' !! t = None
  /\ (forall k, isPrefix t k = false -> disk w' !! k = disk w1 !! k)
  /\ (disk w1 !! t = Some DirNode ->
      forall k, isPrefix t k = true -> disk w' !! k = None)
  /\ dispatched w'
     = (if windowDefined (realm w1) then dispatched w1 ++ [ev]
        else dispatched w1)
  /\ walk false parts root (disk w') = (Ok h, disk w').
Proof.
  intros W Rm w' t.
  pose proof (walk_ok _ _ _ _ _ _ W) as (-> & _).
  pose proof (removeEntry_spec (root ++ parts) name recursive (disk w1)) as S.
  rewrite Rm in S. rewrite <- app_assoc in S. fold t in S.
  destruct S as (V & Ex & Gone & Beside & Below).
  destruct (emitChange_frame ev (setDisk d w1)) as (_ & _ & Hd & Hr & _ & _ & Hev).
  fold w' in Hd, Hr, Hev. simpl in Hd, Hr, Hev.
  rewrite Hd. repeat (split; [assumption|]).
  pose proof (walk_local parts root (disk w1) d) as L.
  pose proof (walk_pure parts root d) as P.
  rewrite W in L. destruct (walk false parts root d) as [r d']. simpl in *.
  subst d'. rewrite L; [reflexivity|].
  intros k Hk. apply Beside, isPrefix_longer. unfold t.
  rewrite !length_app. simpl. lia.
Qed.

Lemma deleteDirectory_ok (path : string) (w w' : World) :
  deleteDirectory path w = (None, w') ->
  exists w1 root dirName parts d0 d,
    _ensureInit w = (Ok tt, w1) /\ rootDir w1 = Some root
    /\ pathParts path = parts ++ [dirName]
    /\ walk false parts root (disk w1) = (Ok (root ++ parts), d0)
    /\ removeEntry (root ++ parts) dirName true (disk w1) = (None, d)
    /\ w' = snd (emitChange {| type_ := directory_deleted; path_ := path |}
                   (setDisk d w1)).
Proof.
  rewrite deleteDirectory_eq.
  destruct (_ensureInit w) as [[[]|e] w1]; [|discriminate].
  destruct (rootDir w1) as [root|] eqn:R; [|discriminate].
  destruct (pop (pathParts path)) as [[dirName|] parts] eqn:P; [|discriminate].
  apply pop_snoc in P.
  destruct (walk false parts root (disk w1)) as [[h|e] d0] eqn:W; [|discriminate].
  pose proof (walk_ok _ _ _ _ _ _ W) as (-> & _).
  destruct (removeEntry (root ++ parts) dirName true (disk w1)) as [[e|] d] eqn:Rm;
    [discriminate|].
  intros [= <-]. exists w1, root, dirName, parts, d0, d. auto 10.
Qed.

Lemma deleteFile_ok (path : string) (w w' : World) :
  deleteFile path w = (None, w') ->
  exists w1 root fileName dirs d0 d,
    _ensureInit w = (Ok tt, w1) /\ rootDir w1 = Some root
    /\ pathParts path = dirs ++ [fileName]
    /\ walk false dirs root (disk w1) = (Ok (root ++ dirs), d0)
    /\ removeEntry (root ++ dirs) fileName false (disk w1) = (None, d)
    /\ w' = snd (emitChange {| type_ := file_deleted; path_ := path |}
                   (setDisk d w1)).
Proof.
  rewrite deleteFile_eq.
  destruct (_ensureInit w) as [[[]|e] w1]; [|discriminate].
  destruct (rootDir w1) as [root|] eqn:R; [|discriminate].
  destruct (pop (pathParts path)) as [[fileName|] dirs] eqn:P; [|discriminate].
  apply pop_snoc in P.
  destruct (walk false dirs root (disk w1)) as [[h|e] d0] eqn:W; [|discriminate].
  pose proof (walk_ok _ _ _ _ _ _ W) as (-> & _).
  destruct (removeEntry (root ++ dirs) fileName false (disk w1)) as [[e|] d] eqn:Rm;
    [discriminate|].
  intros [= <-]. exists w1, root, fileName, dirs, d0, d. auto 10.
Qed.

(** X6.  A successful [deleteDirectory] removes the entry at the path and,
    for a directory, everything below it; every entry elsewhere stays as it
    was; the change is announced as [directory-deleted] where there is a
    window. *)
Theorem deleteDirectory_removes (path : string) (w w' : World) :
  deleteDirectory path w = (None, w') ->
  exists root,
    rootDir w' = Some root
    /\ (exists v, disk w !! (root ++ pathParts path) = Some v)
    /\ disk w' !! (root ++ pathParts path) = None
    /\ (forall k, isPrefix (root ++ pathParts path) k = false ->
                  disk w' !! k = disk w !! k)
    /\ (disk w !! (root ++ pathParts path) = Some DirNode ->
        forall k, isPrefix (root ++ pathParts path) k = true ->
                  disk w' !! k = None)
    /\ dispatched w'
       = (if windowDefined (realm w)
          then dispatched w ++ [{| type_ := directory_deleted; path_ := path |}]
          else dispatched w).
Proof.
  intros D.
  apply deleteDirectory_ok in D as (w1 & root & n & parts & d0 & d & I & R & P & W & Rm & ->).
  destruct (ensureInit_frame w) as (Hre & Hd & Hev & _). rewrite I in *. simpl in *.
  destruct (removal_outcome true {| type_ := directory_deleted; path_ := path |}
              _ _ _ _ _ _ _ W Rm) as (Hr & _ & Ex & Gone & Beside & Below & Ev & _).
  exists root. rewrite P, <- Hd, <- Hev, <- Hre, Hr. auto 10.
Qed.

(** X7.  A delete that fails changes nothing: after a [deleteDirectory] or
    a [deleteFile] that throws, the store is what it was and no event has
    been dispatched. *)
Theorem failed_delete_changes_nothing (path : string) (w : World) :
  (fst (deleteDirectory path w) <> None ->
   disk (snd (deleteDirectory path w)) = disk w
   /\ dispatched (snd (deleteDirectory path w)) = dispatched w)
  /\ (fst (deleteFile path w) <> None ->
      disk (snd (deleteFile path w)) = disk w
      /\ dispatched (snd (deleteFile path w)) = dispatched w).
Proof.
  rewrite deleteDirectory_eq, deleteFile_eq.
  destruct (ensureInit_frame w) as (_ & Hd & Hev & _).
  destruct (_ensureInit w) as [[[]|e] w1]; simpl in Hd, Hev; [|auto].
  destruct (rootDir w1) as [root|]; [|auto].
  destruct (pop (pathParts path)) as [[n|] parts]; [|auto].
  destruct (walk false parts root (disk w1)) as [[h|e] d0]; [|auto].
  split.
  - destruct (removeEntry h n true (disk w1)) as [[e|] d]; [auto|].
    intros N. exfalso. apply N. reflexivity.
  - destruct (removeEntry h n false (disk w1)) as [[e|] d]; [auto|].
    intros N. exfalso. apply N. reflexivity.
Qed.

Lemma walk_snoc (ps : list string) (n : string) (dir : list string)
    (d d' : gmap (list string) Node) (h : list string) :
  walk false (ps ++ [n]) dir d = (Ok h, d') ->
  walk false ps dir d = (Ok (dir ++ ps), d)
  /\ validName n = true /\ d !! (dir ++ ps ++ [n]) = Some DirNode.
Proof.
  revert dir. induction ps as [|q ps IH]; intros dir.
  - simpl app. rewrite walk_cons.
    destruct (getDirectoryHandle dir n false d) as [[h1|e] d1] eqn:G;
      [|discriminate].
    intros _. pose proof (getDirectoryHandle_pure dir n d) as P.
    rewrite G in P. simpl in P. subst d1.
    apply getDirectoryHandle_ok in G as (-> & V & L & _).
    rewrite app_nil_r. auto.
  - simpl app. rewrite !walk_cons.
    destruct (getDirectoryHandle dir q false d) as [[h1|e] d1] eqn:G;
      [|discriminate].
    pose proof (getDirectoryHandle_pure dir q d) as P.
    rewrite G in P. simpl in P. subst d1.
    apply getDirectoryHandle_ok in G as (-> & _).
    intros W. apply IH in W as (W & V & L).
    rewrite W, <- !app_assoc in *. auto.
Qed.

(** X8.  [deleteFile] does not delete a directory that has entries: where
    a path lists at least one file or directory, [deleteFile] on it throws
    [InvalidModificationError] and removes nothing, whereas
    [deleteDirectory] on it goes through. *)
Theorem deleteFile_spares_full_directory (path : string) (w : World)
    (names : list string) :
  pathParts path <> [] ->
  fst (listFiles path w) = Ok names \/ fst (listDirectories path w) = Ok names ->
  names <> [] ->
  deleteFile path w = (Some InvalidModificationError, snd (_ensureInit w))
  /\ fst (deleteDirectory path w) = None.
Proof.
  intros Ne L Hn.
  rewrite listFiles_eq, listDirectories_eq in L.
  rewrite deleteFile_eq, deleteDirectory_eq.
  destruct (_ensureInit w) as [[[]|e] w1]; [|destruct L; discriminate].
  destruct (rootDir w1) as [root|]; [|destruct L; discriminate].
  destruct (exists_last Ne) as (parts & n & E). rewrite E in *. rewrite pop_app.
  destruct (walk false (parts ++ [n]) root (disk w1)) as [[h|e] d0] eqn:W;
    [|destruct L; discriminate].
  pose proof (walk_ok _ _ _ _ _ _ W) as (-> & _).
  apply walk_snoc in W as (-> & V & T).
  assert (C : children (root ++ parts ++ [n]) (disk w1) <> []).
  { intros C. rewrite C in L. simpl in L. destruct L as [[= <-]|[= <-]]; auto. }
  unfold removeEntry. rewrite V. simpl. rewrite <- app_assoc, T.
  destruct (children (root ++ parts ++ [n]) (disk w1)); [congruence|].
  split; reflexivity.
Qed.

(** X9.  After a successful [deleteDirectory], the parent directory lists
    the directories it listed before except the deleted one, and the
    deleted path can no longer be listed or deleted again: both fail with
    [NotFoundError]. *)
Theorem deleted_folder_is_unlisted (path parentPath : string) (n : string)
    (w w' : World) :
  deleteDirectory path w = (None, w') ->
  pathParts path = pathParts parentPath ++ [n] ->
  (exists dirs0 dirs,
     fst (listDirectories parentPath w) = Ok dirs0
     /\ listDirectories parentPath w' = (Ok dirs, w')
     /\ forall m, In m dirs <-> In m dirs0 /\ m <> n)
  /\ listFiles path w' = (Err NotFoundError, w')
  /\ listDirectories path w' = (Err NotFoundError, w')
  /\ deleteDirectory path w' = (Some (Raised NotFoundError), w').
Proof.
  intros D E.
  apply deleteDirectory_ok in D as (w1 & root & n' & parts & d0 & d & I & R & P & W & Rm & ->).
  rewrite P in E. apply app_inj_tail in E as [E ->].
  destruct (removal_outcome true {| type_ := directory_deleted; path_ := path |}
              _ _ _ _ _ _ _ W Rm)
    as (Hr & V & Ex & Gone & Beside & Below & Ev & W').
  match type of W' with context [disk ?x] => set (w' := x) in * end.
  rewrite R in Hr.
  assert (Wp : walk false (pathParts path) root (disk w')
               = (Err NotFoundError, disk w')).
  { rewrite P. clear -W' Gone V.
    assert (G : forall (ps : list string) (dir : list string) (dd : gmap (list string) Node),
              walk false ps dir dd = (Ok (dir ++ ps), dd) ->
              dd !! (dir ++ ps ++ [n]) = None ->
              walk false (ps ++ [n]) dir dd = (Err NotFoundError, dd)).
    { induction ps as [|q ps IH]; intros dir dd Hw Hn.
      - simpl app. rewrite walk_cons. unfold getDirectoryHandle.
        simpl in Hn. rewrite V, Hn. reflexivity.
      - simpl app. rewrite walk_cons. rewrite walk_cons in Hw.
        destruct (getDirectoryHandle dir q false dd) as [[h1|e] d1] eqn:G1;
          [|discriminate].
        pose proof (getDirectoryHandle_pure dir q dd) as Pu. rewrite G1 in Pu.
        simpl in Pu. subst d1.
        apply getDirectoryHandle_ok in G1 as (-> & _).
        apply IH.
        + rewrite Hw. rewrite <- app_assoc. reflexivity.
        + rewrite <- app_assoc. exact Hn. }
    apply G; assumption. }
  split; [|split; [|split]].
  - rewrite !listDirectories_eq, I, R, (ensureInit_rooted w' root Hr), Hr.
    rewrite <- E, W, W'. simpl. eexists _, _.
    split; [reflexivity|]. split; [reflexivity|].
    intros m. rewrite !folderNames_In.
    destruct (String.eqb_spec m n) as [->|Ne].
    + rewrite <- app_assoc, Gone. split; [discriminate|]. intros [_ F]. congruence.
    + rewrite Beside.
      * split; [intros H; split; assumption|intros [H _]; exact H].
      * destruct (isPrefix (root ++ parts ++ [n]) ((root ++ parts) ++ [m])) eqn:Pf;
          [|reflexivity].
        apply isPrefix_spec in Pf as [rest Pf].
        rewrite <- !app_assoc in Pf. apply app_inv_head in Pf.
        apply app_inv_head in Pf. simpl in Pf. congruence.
  - rewrite listFiles_eq, (ensureInit_rooted w' root Hr), Hr, Wp. reflexivity.
  - rewrite listDirectories_eq, (ensureInit_rooted w' root Hr), Hr, Wp.
    reflexivity.
  - rewrite deleteDirectory_eq, (ensureInit_rooted w' root Hr), Hr, P, pop_app, W'.
    unfold removeEntry. rewrite V. simpl. rewrite <- app_assoc, Gone. reflexivity.
Qed.

(** X10.  After a successful [deleteFile] the file is gone for the
    readers: [readFile] fails with [NotFoundError] and [getFileDetails]
    reports that it does not exist; entries elsewhere stay as they were,
    and the change is announced as [file-deleted] where there is a
    window. *)
Theorem deleted_file_is_gone (path : string) (w w' : World) :
  deleteFile path w = (None, w') ->
  readFile path w' = (Err NotFoundError, w')
  /\ getFileDetails path w' = ({| exists_ := false; size_ := 0 |}, w')
  /\ (forall root k, rootDir w' = Some root ->
                     isPrefix (root ++ pathParts path) k = false ->
                     disk w' !! k = disk w !! k)
  /\ dispatched w'
     = (if windowDefined (realm w)
        then dispatched w ++ [{| type_ := file_deleted; path_ := path |}]
        else dispatched w).
Proof.
  intros D.
  apply deleteFile_ok in D as (w1 & root & n & dirs & d0 & d & I & R & P & W & Rm & ->).
  destruct (ensureInit_frame w) as (Hre & Hd & Hev & _). rewrite I in *. simpl in *.
  destruct (removal_outcome false {| type_ := file_deleted; path_ := path |}
              _ _ _ _ _ _ _ W Rm)
    as (Hr & V & Ex & Gone & Beside & Below & Ev & W').
  match type of W' with context [disk ?x] => set (w' := x) in * end.
  rewrite R in Hr.
  assert (G : getFileHandle (root ++ dirs) n false (disk w')
              = (Err NotFoundError, disk w')).
  { unfold getFileHandle. rewrite V. simpl. rewrite <- app_assoc, Gone.
    reflexivity. }
  split; [|split; [|split]].
  - rewrite readFile_eq, (ensureInit_rooted w' root Hr), Hr, P, pop_app, W', G.
    reflexivity.
  - rewrite getFileDetails_eq, (ensureInit_rooted w' root Hr), Hr, P, pop_app,
      W', G. reflexivity.
  - intros root' k Hr' Hk. rewrite Hr in Hr'. injection Hr' as <-.
    rewrite <- Hd. apply Beside. rewrite <- P. exact Hk.
  - rewrite Ev, Hev, Hre. reflexivity.
Qed.

End StorageDelete.

(** ** The storage engine: paths *)

Section StoragePaths.
Import OpfsStorage.

Lemma String_split_nonempty (sep : ascii) (s : string) :
  String_split sep s <> [].
Proof.
  destruct s as [|c s]; simpl; [discriminate|].
  destruct (Ascii.eqb c sep); [discriminate|].
  destruct (String_split sep s); discriminate.
Qed.

Lemma String_split_clean (sep : ascii) (s : string) :
  Forall (fun p => contains sep p = false) (String_split sep s).
Proof.
  induction s as [|c s IH]; [repeat constructor|].
  simpl. destruct (Ascii.eqb c sep) eqn:E; [constructor; [reflexivity|exact IH]|].
  destruct (String_split sep s) as [|seg segs];
    [repeat constructor; simpl; rewrite E; reflexivity|].
  inversion IH as [|? ? Hseg Hsegs]; subst.
  constructor; [simpl; rewrite E; exact Hseg|exact Hsegs].
Qed.

Lemma String_split_trailing (sep : ascii) (s : string) :
  String_split sep (s +:+ String sep EmptyString)
  = String_split sep s ++ [EmptyString].
Proof.
  induction s as [|c s IH].
  - simpl. rewrite Ascii.eqb_refl. reflexivity.
  - simpl. rewrite IH. destruct (Ascii.eqb c sep); [reflexivity|].
    pose proof (String_split_nonempty sep s) as N.
    destruct (String_split sep s); [congruence|reflexivity].
Qed.

(** The parts of a path are not empty and hold no slash: each is a valid
    name unless it is "." or ".." or holds a backslash. *)
Lemma pathParts_names (path : string) (p : string) :
  In p (pathParts path) ->
  validName p
  = negb (String.eqb p ".") && negb (String.eqb p "..")
    && negb (contains "\" p).
Proof.
  unfold pathParts. intros I. apply filter_In in I as [I T].
  pose proof (String_split_clean "/" path) as C.
  rewrite List.Forall_forall in C. specialize (C p I).
  unfold validName. rewrite T, C. simpl. rewrite andb_true_r. reflexivity.
Qed.

Lemma pathParts_slashes (p : string) :
  pathParts ("/" +:+ p +:+ "/") = pathParts p.
Proof.
  unfold pathParts. change ("/" +:+ p +:+ "/") with (String "/" (p +:+ "/")).
  change (String_split "/" (String "/" (p +:+ "/")))
    with (EmptyString :: String_split "/" (p +:+ "/")).
  rewrite String_split_trailing. cbn [List.filter truthy].
  rewrite List.filter_app. simpl. apply app_nil_r.
Qed.

(** The operations read a path through its parts only. *)
Lemma same_parts (p q : string) (data : Data) (w : World) :
  pathParts p = pathParts q ->
  readFile p w = readFile q w
  /\ getFileDetails p w = getFileDetails q w
  /\ listFiles p w = listFiles q w
  /\ listDirectories p w = listDirectories q w
  /\ fst (saveFile p data w) = fst (saveFile q data w)
  /\ disk (snd (saveFile p data w)) = disk (snd (saveFile q data w))
  /\ fst (deleteFile p w) = fst (deleteFile q w)
  /\ disk (snd (deleteFile p w)) = disk (snd (deleteFile q w))
  /\ fst (deleteDirectory p w) = fst (deleteDirectory q w)
  /\ disk (snd (deleteDirectory p w)) = disk (snd (deleteDirectory q w)).
Proof.
  intros E.
  rewrite !readFile_eq, !getFileDetails_eq, !listFiles_eq, !listDirectories_eq,
    !saveFile_eq, !deleteFile_eq, !deleteDirectory_eq, E.
  repeat (split; [reflexivity|]).
  destruct (_ensureInit w) as [[[]|e] w1]; [|repeat split].
  destruct (rootDir w1) as [root|]; [|repeat split].
  destruct (pop (pathParts q)) as [[n|] dirs]; [|repeat split].
  split; [|split; [|split; [|split; [|split]]]].
  - destruct (walk true dirs root (disk w1)) as [[h|e] d1]; [|reflexivity].
    destruct (getFileHandle h n true d1) as [[f|e] d2]; [|reflexivity].
    unfold emitChange. simpl. destruct (windowDefined (realm w1)); reflexivity.
  - destruct (walk true dirs root (disk w1)) as [[h|e] d1]; [|reflexivity].
    destruct (getFileHandle h n true d1) as [[f|e] d2]; [|reflexivity].
    unfold emitChange. simpl. destruct (windowDefined (realm w1)); reflexivity.
  - destruct (walk false dirs root (disk w1)) as [[h|e] d1]; [|reflexivity].
    destruct (removeEntry h n false (disk w1)) as [[e|] d]; reflexivity.
  - destruct (walk false dirs root (disk w1)) as [[h|e] d1]; [|reflexivity].
    destruct (removeEntry h n false (disk w1)) as [[e|] d]; [reflexivity|].
    unfold emitChange. simpl. destruct (windowDefined (realm w1)); reflexivity.
  - destruct (walk false dirs root (disk w1)) as [[h|e] d1]; [|reflexivity].
    destruct (removeEntry h n true (disk w1)) as [[e|] d]; reflexivity.
  - destruct (walk false dirs root (disk w1)) as [[h|e] d1]; [|reflexivity].
    destruct (removeEntry h n true (disk w1)) as [[e|] d]; [reflexivity|].
    unfold emitChange. simpl. destruct (windowDefined (realm w1)); reflexivity.
Qed.

(** X11.  Slashes around a path do not matter: with a slash in front and a
    slash behind, a path has the same parts, reads, lists and describes the
    same entry, and a save or a delete has the same outcome and leaves the
    same store. *)
Theorem slashes_around_a_path (p : string) (data : Data) (w : World) :
  pathParts ("/" +:+ p +:+ "/") = pathParts p
  /\ readFile ("/" +:+ p +:+ "/") w = readFile p w
  /\ getFileDetails ("/" +:+ p +:+ "/") w = getFileDetails p w
  /\ listFiles ("/" +:+ p +:+ "/") w = listFiles p w
  /\ listDirectories ("/" +:+ p +:+ "/") w = listDirectories p w
  /\ fst (saveFile ("/" +:+ p +:+ "/") data w) = fst (saveFile p data w)
  /\ disk (snd (saveFile ("/" +:+ p +:+ "/") data w))
     = disk (snd (saveFile p data w))
  /\ fst (deleteFile ("/" +:+ p +:+ "/") w) = fst (deleteFile p w)
  /\ disk (snd (deleteFile ("/" +:+ p +:+ "/") w))
     = disk (snd (deleteFile p w))
  /\ fst (deleteDirectory ("/" +:+ p +:+ "/") w) = fst (deleteDirectory p w)
  /\ disk (snd (deleteDirectory ("/" +:+ p +:+ "/") w))
     = disk (snd (deleteDirectory p w)).
Proof.
  split; [apply pathParts_slashes|].
  apply same_parts, pathParts_slashes.
Qed.

(** X12.  A path without parts (the empty string, or slashes only) names no
    file: once the storage is initialised, [saveFile], [readFile] and
    [deleteFile] fail with "Invalid file path", [deleteDirectory] with
    "Invalid directory path", [getFileDetails] reports no file, nothing is
    changed, and the listings are those of the root. *)
Theorem path_without_parts (path : string) (data : Data) (w : World)
    (root : list string) :
  rootDir (snd (_ensureInit w)) = Some root ->
  pathParts path = [] ->
  saveFile path data w = (Err InvalidFilePath, snd (_ensureInit w))
  /\ readFile path w = (Err InvalidFilePath, snd (_ensureInit w))
  /\ deleteFile path w = (Some (Raised InvalidFilePath), snd (_ensureInit w))
  /\ deleteDirectory path w = (Some InvalidDirectoryPath, snd (_ensureInit w))
  /\ getFileDetails path w
     = ({| exists_ := false; size_ := 0 |}, snd (_ensureInit w))
  /\ listFiles path w = listFiles "" w
  /\ listDirectories path w = listDirectories "" w.
Proof.
  intros R E.
  pose proof (ensureInit_gives_root w root R) as I.
  rewrite saveFile_eq, readFile_eq, deleteFile_eq, deleteDirectory_eq,
    getFileDetails_eq, !listFiles_eq, !listDirectories_eq.
  destruct (_ensureInit w) as [[[]|e] w1]; simpl in *; [|discriminate].
  rewrite R, E. repeat split.
Qed.

(** *** When a save succeeds *)

Lemma isPrefix_cons (pre : list string) (p : string) (ps : list string) :
  isPrefix pre (p :: ps) = true ->
  pre = [] \/ exists pre', pre = p :: pre' /\ isPrefix pre' ps = true.
Proof.
  destruct pre as [|a pre]; [auto|]. simpl. intros H.
  apply andb_true_iff in H as [E H]. apply String.eqb_eq in E as ->. eauto.
Qed.

Lemma walk_true_ok (parts : list string) (dir : list string)
    (d : gmap (list string) Node) :
  Forall (fun p => validName p = true) parts ->
  (forall pre c, pre <> [] -> isPrefix pre parts = true ->
                 d !! (dir ++ pre) <> Some (FileNode c)) ->
  exists d1, walk true parts dir d = (Ok (dir ++ parts), d1).
Proof.
  revert dir d. induction parts as [|p ps IH]; intros dir d V H.
  - exists d. rewrite app_nil_r. reflexivity.
  - inversion V as [|? ? Vp Vps]; subst. rewrite walk_cons.
    unfold getDirectoryHandle. rewrite Vp. simpl.
    assert (Hp : forall c, d !! (dir ++ [p]) <> Some (FileNode c)).
    { intros c. apply H; [discriminate|]. simpl.
      rewrite String.eqb_refl. reflexivity. }
    assert (Hn : forall pre c, pre <> [] -> isPrefix pre ps = true ->
                 d !! ((dir ++ [p]) ++ pre) <> Some (FileNode c)).
    { intros pre c Ne Pf. rewrite <- app_assoc. apply H; [discriminate|].
      simpl. rewrite String.eqb_refl. exact Pf. }
    destruct (d !! (dir ++ [p])) as [[c|]|] eqn:L.
    + destruct (Hp c). reflexivity.
    + destruct (IH (dir ++ [p]) d Vps Hn) as [d1 W].
      exists d1. rewrite W, <- app_assoc. reflexivity.
    + destruct (IH (dir ++ [p]) (<[dir ++ [p] := DirNode]> d) Vps) as [d1 W].
      * intros pre c Ne Pf. rewrite lookup_insert_ne; [apply Hn; assumption|].
        intros E. apply Ne. rewrite <- (app_nil_r (dir ++ [p])) in E at 1.
        apply app_inv_head in E. congruence.
      * exists d1. rewrite W, <- app_assoc. reflexivity.
Qed.

Lemma walk_beyond (create : bool) (parts : list string) (dir : list string)
    (d : gmap (list string) Node) (k : list string) :
  (length dir + length parts < length k)%nat ->
  snd (walk create parts dir d) !! k = d !! k.
Proof.
  revert dir d. induction parts as [|p ps IH]; intros dir d Hk; [reflexivity|].
  rewrite walk_cons. unfold getDirectoryHandle.
  destruct (validName p); simpl; [|reflexivity].
  simpl in Hk.
  destruct (d !! (dir ++ [p])) as [[c|]|] eqn:L; simpl; try reflexivity.
  - apply IH. rewrite length_app. simpl. lia.
  - destruct create; simpl; [|reflexivity].
    rewrite IH by (rewrite length_app; simpl; lia).
    apply lookup_insert_ne. intros <-. rewrite length_app in Hk. simpl in Hk. lia.
Qed.

Lemma walk_made (create : bool) (parts : list string) (dir : list string)
    (d d1 : gmap (list string) Node) (h : list string) :
  walk create parts dir d = (Ok h, d1) ->
  forall pre, pre <> [] -> isPrefix pre parts = true ->
              d1 !! (dir ++ pre) = Some DirNode.
Proof.
  revert dir d. induction parts as [|p ps IH]; intros dir d W pre Ne Pf.
  - destruct pre; [congruence|discriminate].
  - apply isPrefix_cons in Pf as [->|(pre' & -> & Pf)]; [congruence|].
    pose proof (walk_first _ _ _ _ _ _ _ W) as F.
    rewrite walk_cons in W.
    destruct (getDirectoryHandle dir p create d) as [[h1|e] d0] eqn:G;
      [|discriminate].
    apply getDirectoryHandle_ok in G as (-> & _).
    destruct pre' as [|q pre']; [exact F|].
    change (dir ++ p :: q :: pre') with (dir ++ [p] ++ (q :: pre')).
    rewrite app_assoc. eapply IH; [exact W|discriminate|exact Pf].
Qed.

Lemma walk_adds_directories (create : bool) (parts : list string)
    (dir : list string) (d : gmap (list string) Node) (k : list string)
    (v : Node) :
  snd (walk create parts dir d) !! k = Some v ->
  d !! k = Some v \/ (d !! k = None /\ v = DirNode).
Proof.
  revert dir d. induction parts as [|p ps IH]; intros dir d; [auto|].
  rewrite walk_cons. unfold getDirectoryHandle.
  destruct (validName p); simpl; [|auto].
  destruct (d !! (dir ++ [p])) as [[c|]|] eqn:L; simpl; [auto|apply IH|].
  destruct create; simpl; [|auto].
  intros H. apply IH in H as [H|[H ->]].
  - destruct (decide (k = dir ++ [p])) as [->|Ne].
    + rewrite lookup_insert_eq in H. injection H as <-. auto.
    + rewrite lookup_insert_ne in H by congruence. auto.
  - right. split; [|reflexivity].
    destruct (decide (k = dir ++ [p])) as [->|Ne]; [exact L|].
    rewrite lookup_insert_ne in H by congruence. exact H.
Qed.

(** X13.  When a save succeeds.  Once the storage is initialised,
    [saveFile] succeeds exactly when the path has at least one part, no
    part is a name the file system rejects (the parts of a path are not
    empty and hold no slash, so these are ".", ".." and the parts that
    hold a backslash), none of the directories on the way is an existing
    file, and the path itself is not an existing directory. *)
Theorem saveFile_succeeds_iff (path : string) (data : Data) (w : World)
    (root : list string) :
  rootDir (snd (_ensureInit w)) = Some root ->
  fst (saveFile path data w) = Ok tt
  <-> exists dirs n,
        pathParts path = dirs ++ [n]
        /\ (forall p, In p (pathParts path) ->
                      p <> "."%string /\ p <> ".."%string
                      /\ contains "\" p = false)
        /\ (forall pre c, pre <> [] -> isPrefix pre dirs = true ->
                          disk w !! (root ++ pre) <> Some (FileNode c))
        /\ disk w !! (root ++ pathParts path) <> Some DirNode.
Proof.
  intros R.
  pose proof (ensureInit_gives_root w root R) as I.
  destruct (ensureInit_frame w) as (_ & Hd & _).
  rewrite saveFile_eq.
  destruct (_ensureInit w) as [[[]|e] w1]; simpl in *; [|discriminate].
  rewrite R, <- Hd. clear I Hd.
  assert (Names : forall p, In p (pathParts path) ->
            (validName p = true
             <-> p <> "."%string /\ p <> ".."%string
                 /\ contains "\" p = false)).
  { intros p Hp. rewrite (pathParts_names path p Hp), !andb_true_iff,
      !negb_true_iff, !String.eqb_neq. tauto. }
  split.
  - destruct (pop (pathParts path)) as [[n|] dirs] eqn:P; [|discriminate].
    apply pop_snoc in P.
    destruct (walk true dirs root (disk w1)) as [[h|e] d1] eqn:W; [|discriminate].
    pose proof (walk_ok _ _ _ _ _ _ W) as (-> & _ & V).
    destruct (getFileHandle (root ++ dirs) n true d1) as [[f|e] d2] eqn:G;
      [|discriminate].
    intros _. exists dirs, n. split; [exact P|].
    pose proof (getFileHandle_ok _ _ _ _ _ _ G) as (-> & Vn & _ & _).
    split; [|split].
    + intros p Hp. apply Names; [exact Hp|].
      rewrite P in Hp. apply in_app_iff in Hp as [Hp|[<-|[]]]; [|exact Vn].
      rewrite List.Forall_forall in V. apply V, Hp.
    + intros pre c Ne Pf L.
      pose proof (walk_keeps true dirs root (disk w1) _ _ L) as K.
      rewrite W in K. simpl in K.
      rewrite (walk_made _ _ _ _ _ _ W pre Ne Pf) in K. discriminate.
    + intros L. rewrite P, app_assoc in L.
      pose proof (walk_keeps true dirs root (disk w1) _ _ L) as K.
      rewrite W in K. simpl in K.
      unfold getFileHandle in G. rewrite Vn, K in G. discriminate.
  - intros (dirs & n & P & Nm & Way & T).
    rewrite P, pop_app.
    destruct (walk_true_ok dirs root (disk w1)) as [d1 W].
    + apply List.Forall_forall. intros p Hp. apply Names; [|apply Nm];
        rewrite P; apply in_app_iff; auto.
    + exact Way.
    + rewrite W.
      assert (Vn : validName n = true).
      { apply Names; [|apply Nm]; rewrite P; apply in_app_iff; simpl; auto. }
      assert (L : d1 !! ((root ++ dirs) ++ [n]) = disk w1 !! ((root ++ dirs) ++ [n])).
      { pose proof (walk_beyond true dirs root (disk w1) ((root ++ dirs) ++ [n])) as B.
        rewrite W in B. apply B. rewrite !length_app. simpl. lia. }
      rewrite P, app_assoc in T.
      unfold getFileHandle. rewrite Vn, L. simpl.
      destruct (disk w1 !! ((root ++ dirs) ++ [n])) as [[c|]|];
        [|congruence|]; apply emitChange_frame.
Qed.

(** X14.  A save that fails writes no file and announces nothing: no event
    is dispatched, every entry that was there is still there unchanged, and
    whatever is new in the store is a directory (one of those made on the
    way before the failure). *)
Theorem failed_save_writes_no_file (path : string) (data : Data) (w : World)
    (e : Error) :
  fst (saveFile path data w) = Err e ->
  dispatched (snd (saveFile path data w)) = dispatched w
  /\ (forall k v, disk w !! k = Some v ->
                  disk (snd (saveFile path data w)) !! k = Some v)
  /\ (forall k v, disk (snd (saveFile path data w)) !! k = Some v ->
                  disk w !! k = None -> v = DirNode).
Proof.
  rewrite saveFile_eq.
  destruct (ensureInit_frame w) as (_ & Hd & Hev & _).
  destruct (_ensureInit w) as [[[]|e0] w1]; simpl in Hd, Hev; rewrite <- Hd, <- Hev.
  2:{ intros _. split; [reflexivity|]. split; [auto|]. simpl. congruence. }
  destruct (rootDir w1) as [root|].
  2:{ intros _. split; [reflexivity|]. split; [auto|]. simpl. congruence. }
  destruct (pop (pathParts path)) as [[n|] dirs].
  2:{ intros _. split; [reflexivity|]. split; [auto|]. simpl. congruence. }
  pose proof (walk_keeps true dirs root (disk w1)) as K.
  pose proof (walk_adds_directories true dirs root (disk w1)) as A.
  destruct (walk true dirs root (disk w1)) as [[h|e1] d1]; simpl in K, A.
  2:{ intros _. split; [reflexivity|]. split; [exact K|]. simpl.
      intros k v L N. apply A in L as [L|[_ L]]; congruence. }
  destruct (getFileHandle h n true d1) as [[f|e2] d2] eqn:G.
  { intros F. pose proof (emitChange_frame {| type_ := file_added; path_ := path |}
       (setDisk (<[f := FileNode (dataBytes data)]> d2) w1)) as (O & _).
    congruence. }
  assert (d2 = d1) as ->.
  { unfold getFileHandle in G. destruct (validName n); simpl in G; [|congruence].
    destruct (d1 !! (h ++ [n])) as [[c|]|]; congruence. }
  intros _. split; [reflexivity|]. split; [exact K|]. simpl.
  intros k v L N. apply A in L as [L|[_ L]]; congruence.
Qed.

(** *** A failed initialisation *)

(** X15.  A failed initialisation is final.  Once [_ensureInit] has failed
    (no window and no worker, or no [navigator.storage.getDirectory]),
    it is not tried again: every operation fails with the error of the
    first attempt and changes nothing, and [getFileDetails] reports that
    the file does not exist. *)
Theorem failed_init_is_final (w w1 : World) (e : Error) (path : string)
    (data : Data) :
  _ensureInit w = (Err e, w1) ->
  saveFile path data w1 = (Err e, w1)
  /\ readFile path w1 = (Err e, w1)
  /\ listDirectories path w1 = (Err e, w1)
  /\ listFiles path w1 = (Err e, w1)
  /\ deleteFile path w1 = (Some (Raised e), w1)
  /\ deleteDirectory path w1 = (Some (Raised e), w1)
  /\ getFileDetails path w1 = ({| exists_ := false; size_ := 0 |}, w1).
Proof.
  intros I. pose proof (ensureInit_again w) as A. rewrite I in A. simpl in A.
  rewrite saveFile_eq, readFile_eq, listDirectories_eq, listFiles_eq,
    deleteFile_eq, deleteDirectory_eq, getFileDetails_eq, A.
  repeat split.
Qed.

(** *** What a delete leaves readable *)

Lemma isPrefix_app (root a b : list string) :
  isPrefix (root ++ a) (root ++ b) = isPrefix a b.
Proof.
  induction root as [|r root IH]; [reflexivity|].
  simpl. rewrite String.eqb_refl. exact IH.
Qed.

Lemma isPrefix_trans (a b c : list string) :
  isPrefix a b = true -> isPrefix b c = true -> isPrefix a c = true.
Proof.
  rewrite !isPrefix_spec. intros [r1 ->] [r2 ->].
  exists (r1 ++ r2). symmetry. apply app_assoc.
Qed.

Lemma isPrefix_snoc (pre : list string) (n : string) :
  isPrefix pre (pre ++ [n]) = true.
Proof. apply isPrefix_spec. eauto. Qed.

(** A walk that creates nothing reads the store at the directories it
    passes, and nowhere else. *)
Lemma walk_reads (parts : list string) (dir : list string)
    (d d' : gmap (list string) Node) :
  (forall pre, pre <> [] -> isPrefix pre parts = true ->
               d' !! (dir ++ pre) = d !! (dir ++ pre)) ->
  fst (walk false parts dir d') = fst (walk false parts dir d).
Proof.
  revert dir. induction parts as [|p ps IH]; intros dir H; [reflexivity|].
  rewrite !walk_cons. unfold getDirectoryHandle.
  rewrite (H [p]) by (try discriminate; simpl; rewrite String.eqb_refl;
                      reflexivity).
  destruct (validName p); simpl; [|reflexivity].
  destruct (d !! (dir ++ [p])) as [[c|]|]; try reflexivity.
  apply IH. intros pre Ne Pf. rewrite <- !app_assoc.
  apply H; [discriminate|]. simpl. rewrite String.eqb_refl. exact Pf.
Qed.

Lemma readFile_reads (path : string) (w w' : World) (root : list string) :
  rootDir w = Some root -> rootDir w' = Some root ->
  (forall pre, isPrefix pre (pathParts path) = true ->
               disk w' !! (root ++ pre) = disk w !! (root ++ pre)) ->
  fst (readFile path w') = fst (readFile path w).
Proof.
  intros R R' H.
  rewrite !readFile_eq, (ensureInit_rooted w root R),
    (ensureInit_rooted w' root R'), R, R'.
  destruct (pop (pathParts path)) as [[n|] dirs] eqn:P; [|reflexivity].
  apply pop_snoc in P. rewrite P in H.
  assert (W : fst (walk false dirs root (disk w'))
              = fst (walk false dirs root (disk w))).
  { apply walk_reads. intros pre _ Pf. apply H.
    eapply isPrefix_trans; [exact Pf|]. apply isPrefix_spec. eauto. }
  destruct (walk false dirs root (disk w)) as [[h|e] d1] eqn:W1,
           (walk false dirs root (disk w')) as [[h'|e'] d1'];
    simpl in W; try congruence; [|injection W as ->; reflexivity].
  injection W as ->.
  apply walk_ok in W1 as (-> & _).
  unfold getFileHandle.
  assert (L : disk w' !! ((root ++ dirs) ++ [n])
              = disk w !! ((root ++ dirs) ++ [n])).
  { rewrite <- !app_assoc. apply H, isPrefix_self. }
  rewrite L. destruct (validName n); simpl; [|reflexivity].
  destruct (disk w !! ((root ++ dirs) ++ [n])) as [[c|]|] eqn:L1; simpl;
    rewrite ?L, ?L1; reflexivity.
Qed.

(** X16.  Deleting a directory touches no other path: after a successful
    [deleteDirectory], a path that does not lie in the deleted directory
    reads as it read before, with the same bytes or the same error, and a
    path that is the deleted one or lies in it fails to read with
    [NotFoundError]. *)
Theorem delete_leaves_other_paths (path q : string) (w w' : World) :
  deleteDirectory path w = (None, w') ->
  (isPrefix (pathParts path) (pathParts q) = false ->
   fst (readFile q w') = fst (readFile q w))
  /\ (isPrefix (pathParts path) (pathParts q) = true ->
      fst (readFile q w') = Err NotFoundError).
Proof.
  intros D.
  apply deleteDirectory_ok in D
    as (w1 & root & n & parts & d0 & d & I & R & P & W & Rm & ->).
  destruct (removal_outcome true {| type_ := directory_deleted; path_ := path |}
              _ _ _ _ _ _ _ W Rm)
    as (Hr & V & Ex & Gone & Beside & Below & Ev & W').
  match type of W' with context [disk ?x] => set (w' := x) in * end.
  rewrite R in Hr.
  assert (Q : readFile q w = readFile q w1).
  { rewrite !readFile_eq, I, (ensureInit_rooted w1 root R). reflexivity. }
  split.
  - intros Out. rewrite Q.
    apply (readFile_reads q w1 w' root R Hr).
    intros pre Pf. apply Beside. rewrite <- P, isPrefix_app.
    destruct (isPrefix (pathParts path) pre) eqn:E; [|reflexivity].
    rewrite (isPrefix_trans _ _ _ E Pf) in Out. discriminate.
  - intros In. apply isPrefix_spec in In as [rest Eq].
    rewrite readFile_eq, (ensureInit_rooted w' root Hr), Hr, Eq, P.
    destruct rest as [|r rest _] using rev_ind.
    + rewrite app_nil_r, pop_app, W'.
      unfold getFileHandle. rewrite V. simpl. rewrite <- app_assoc, Gone.
      reflexivity.
    + rewrite app_assoc, pop_app.
      assert (F : forall tl, walk false ((parts ++ [n]) ++ tl) root (disk w')
                             = (Err NotFoundError, disk w')).
      { intros tl. clear -W' Gone V.
        assert (G : forall (ps : list string) (dir : list string),
                  walk false ps dir (disk w') = (Ok (dir ++ ps), disk w') ->
                  disk w' !! (dir ++ ps ++ [n]) = None ->
                  walk false ((ps ++ [n]) ++ tl) dir (disk w')
                  = (Err NotFoundError, disk w')).
        { induction ps as [|p ps IH]; intros dir Hw Hn.
          - simpl app. rewrite walk_cons. unfold getDirectoryHandle.
            simpl in Hn. rewrite V, Hn. reflexivity.
          - simpl app. rewrite walk_cons. rewrite walk_cons in Hw.
            destruct (getDirectoryHandle dir p false (disk w'))
              as [[h1|e] d1] eqn:G1; [|discriminate].
            pose proof (getDirectoryHandle_pure dir p (disk w')) as Pu.
            rewrite G1 in Pu. simpl in Pu. subst d1.
            apply getDirectoryHandle_ok in G1 as (-> & _).
            apply IH.
            + rewrite Hw, <- app_assoc. reflexivity.
            + rewrite <- app_assoc. exact Hn. }
        apply G; assumption. }
      rewrite F. reflexivity.
Qed.

End StoragePaths.

(** ** Audio files and their metadata ([audio.ts], [AddNew.tsx]) *)

Section AudioMore.

Lemma lookupKey_In (k : string) (t : list (string * string)) (v : string) :
  lookupKey k t = Some v -> In v (map snd t).
Proof.
  induction t as [|[k' v'] t IH]; [discriminate|].
  simpl. destruct (String.eqb k k'); [intros [= ->]; auto|auto].
Qed.

Lemma table_values_audio (m : string) :
  In m validMimeTypes -> String.prefix "audio/" m = true.
Proof.
  assert (F : forallb (String.prefix "audio/") validMimeTypes = true)
    by (vm_compute; reflexivity).
  rewrite forallb_forall in F. apply F.
Qed.

Lemma getMimeTypeFromExtension_audio (fileName : string) :
  String.prefix "audio/" (getMimeTypeFromExtension fileName) = true.
Proof.
  unfold getMimeTypeFromExtension.
  destruct (lookupKey _ AUDIO_MIME_TYPES) as [m|] eqn:L; [|reflexivity].
  apply table_values_audio. unfold validMimeTypes. eapply lookupKey_In, L.
Qed.

Lemma validity_rule_eq (file : File) :
  isValidAudioFile file
  = if truthy (file_type file)
    then String.prefix "audio/" (file_type file)
    else inAudioMimeTypes (lastSegment (toLowerCase (file_name file))).
Proof.
  unfold isValidAudioFile.
  destruct (truthy (file_type file)).
  - destruct (String.prefix "audio/" (file_type file)) eqn:P; [reflexivity|].
    rewrite orb_false_l.
    destruct (existsb (String.eqb (file_type file)) validMimeTypes) eqn:E;
      [|reflexivity].
    apply existsb_exists in E as (m & I & E). apply String.eqb_eq in E as <-.
    rewrite (table_values_audio _ I) in P. discriminate.
  - destruct (lastSegment (toLowerCase (file_name file))) as [|c ext];
      reflexivity.
Qed.

(** X17.  What makes a file a valid audio file.  For a file that declares
    a type, the prefix "audio/" of the type decides alone (the comparison
    with the values of the table adds nothing, and the name plays no
    role); for a file without a type, the lower-cased extension decides,
    by being a key of the table in the sense of [in]. *)
Theorem validity_rule (file : File) :
  isValidAudioFile file
  = if truthy (file_type file)
    then String.prefix "audio/" (file_type file)
    else inAudioMimeTypes (lastSegment (toLowerCase (file_name file))).
Proof. apply validity_rule_eq. Qed.

(** X18.  The metadata of an accepted file carries an audio type: when
    [isValidAudioFile] holds, the [mimeType] that [createAudioMetadata]
    records starts with "audio/".  (Extensions that spell a key every
    object inherits are left out: there the table yields no string.) *)
Theorem accepted_files_have_audio_type (env : Ambient) (file : File)
    (folderName thumbnail : string) :
  isValidAudioFile file = true ->
  lastSegment (toLowerCase (file_name file)) <> "constructor"%string ->
  lastSegment (toLowerCase (file_name file)) <> "__proto__"%string ->
  String.prefix "audio/"
    (mimeType (createAudioMetadata env file folderName thumbnail)) = true.
Proof.
  intros V _ _. rewrite validity_rule_eq in V. simpl.
  destruct (truthy (file_type file)); [exact V|].
  apply getMimeTypeFromExtension_audio.
Qed.

Lemma stripExtension_nodot (s : string) :
  contains "." s = false -> stripExtension s = None.
Proof.
  induction s as [|c s IH]; [reflexivity|].
  simpl. intros H. apply orb_false_iff in H as [Hc Hs].
  rewrite (IH Hs), Hc. reflexivity.
Qed.

Lemma stripExtension_base (base ext : string) :
  truthy ext = true -> contains "/" ext = false -> contains "." ext = false ->
  stripExtension (base +:+ "." +:+ ext) = Some base.
Proof.
  intros T Sl Dt. induction base as [|c base IH].
  - change ("" +:+ "." +:+ ext) with (String "." ext).
    change (stripExtension (String "." ext))
      with (match stripExtension ext with
            | Some r' => Some (String "."%char r')
            | None => if Ascii.eqb "." "." && truthy ext
                         && negb (contains "/" ext) && negb (contains "." ext)
                      then Some EmptyString else None
            end).
    rewrite (stripExtension_nodot ext Dt), T, Sl, Dt. reflexivity.
  - change (String c base +:+ "." +:+ ext)
      with (String c (base +:+ "." +:+ ext)).
    change (stripExtension (String c (base +:+ "." +:+ ext)))
      with (match stripExtension (base +:+ "." +:+ ext) with
            | Some r' => Some (String c r')
            | None => if Ascii.eqb c "." && truthy (base +:+ "." +:+ ext)
                         && negb (contains "/" (base +:+ "." +:+ ext))
                         && negb (contains "." (base +:+ "." +:+ ext))
                      then Some EmptyString else None
            end).
    rewrite IH. reflexivity.
Qed.

(** X19.  The folder of an upload is the name of the file without its last
    extension: for a name [base.ext] with a non-empty extension free of
    dots and slashes it is [base], whatever [base] holds; a name without a
    dot is its own folder; and so is a name whose only dot is its last
    character. *)
Theorem folder_is_the_base_name (file : File) :
  (forall base ext,
     file_name file = (base +:+ "." +:+ ext)%string ->
     truthy ext = true -> contains "/" ext = false ->
     contains "." ext = false ->
     AddNew.getAudioFolderName file = base)
  /\ (contains "." (file_name file) = false ->
      AddNew.getAudioFolderName file = file_name file)
  /\ (forall base,
        file_name file = (base +:+ ".")%string ->
        contains "." base = false ->
        AddNew.getAudioFolderName file = file_name file).
Proof.
  unfold AddNew.getAudioFolderName, withoutExtension.
  split; [|split].
  - intros base ext -> T Sl Dt. rewrite stripExtension_base by assumption.
    reflexivity.
  - intros Dt. rewrite stripExtension_nodot by assumption. reflexivity.
  - intros base -> Dt.
    assert (N : stripExtension (base +:+ ".") = None).
    { clear -Dt. induction base as [|c base IH]; [reflexivity|].
      simpl in Dt. apply orb_false_iff in Dt as [Hc Hb].
      change (String c base +:+ ".") with (String c (base +:+ ".")).
      change (stripExtension (String c (base +:+ ".")))
        with (match stripExtension (base +:+ ".") with
              | Some r' => Some (String c r')
              | None => if Ascii.eqb c "." && truthy (base +:+ ".")
                           && negb (contains "/" (base +:+ "."))
                           && negb (contains "." (base +:+ "."))
                        then Some EmptyString else None
              end).
      rewrite (IH Hb), Hc. reflexivity. }
    rewrite N. reflexivity.
Qed.

End AudioMore.

(** ** An upload, read back *)

Section UploadMore.
Context `{Codec : Json}.
Import OpfsStorage.

Lemma saveFile_keepsDirs (path : string) (data : Data) (w w' : World) :
  saveFile path data w = (Ok tt, w') -> keepsDirs (disk w) (disk w').
Proof.
  intros S.
  apply saveFile_ok in S
    as (w1 & root & fileName & dirs & d1 & d2 & I & R & P & W & G & ->).
  destruct (ensureInit_frame w) as (_ & Hd & _). rewrite I in Hd. simpl in Hd.
  match goal with |- context [emitChange ?ev ?x] =>
    destruct (emitChange_frame ev x) as (_ & _ & -> & _)
  end. simpl. rewrite <- Hd.
  pose proof (walk_ok _ _ _ _ _ _ W) as (_ & K1 & _).
  pose proof (getFileHandle_ok _ _ _ _ _ _ G) as (_ & _ & [c Hc] & _).
  eapply keepsDirs_trans; [exact K1|].
  eapply keepsDirs_trans; [eapply getFileHandle_keeps, G|].
  eapply keepsDirs_insert_file, Hc.
Qed.

(** Where a file is found, [readFile] returns its content. *)
Lemma readFile_found (path : string) (w : World) (root dirs : list string)
    (n : string) (c : list byte) :
  rootDir w = Some root ->
  pathParts path = dirs ++ [n] ->
  walk false dirs root (disk w) = (Ok (root ++ dirs), disk w) ->
  validName n = true ->
  disk w !! (root ++ dirs ++ [n]) = Some (FileNode c) ->
  readFile path w = (Ok c, w).
Proof.
  intros R P W V L.
  rewrite readFile_eq, (ensureInit_rooted w root R), R, P, pop_app, W.
  rewrite (getFileHandle_found (root ++ dirs) n false _ c V);
    rewrite <- app_assoc, L; reflexivity.
Qed.

(** What a completed save leaves for the readers of its file. *)
Lemma saveFile_leaves (path : string) (data : Data) (w w' : World) :
  saveFile path data w = (Ok tt, w') ->
  exists root dirs n,
    rootDir w' = Some root
    /\ rootDir (snd (_ensureInit w)) = Some root
    /\ pathParts path = dirs ++ [n]
    /\ walk false dirs root (disk w') = (Ok (root ++ dirs), disk w')
    /\ validName n = true
    /\ disk w' !! (root ++ dirs ++ [n]) = Some (FileNode (dataBytes data)).
Proof.
  intros S.
  apply saveFile_ok in S
    as (w1 & root & fileName & dirs & d1 & d2 & I & R & P & W & G & ->).
  apply pop_snoc in P.
  match goal with |- context [emitChange ?ev ?x] =>
    destruct (emitChange_frame ev x) as (_ & _ & Hd & Hr & _);
    set (w' := snd (emitChange ev x)) in *
  end.
  simpl in Hd, Hr. rewrite R in Hr.
  pose proof (getFileHandle_ok _ _ _ _ _ _ G) as (_ & Hv & [c Hc] & _).
  assert (K : keepsDirs d1 (disk w')).
  { rewrite Hd. eapply keepsDirs_trans; [eapply getFileHandle_keeps, G|].
    eapply keepsDirs_insert_file, Hc. }
  exists root, dirs, fileName. rewrite I. simpl.
  repeat (split; [assumption|]).
  split; [exact (walk_again true false dirs root (disk w1) d1 _ _ W K)|].
  split; [exact Hv|]. rewrite Hd. apply lookup_insert_eq.
Qed.

(** X20.  After a save that completed, [getFileDetails] reports the file
    as existing, with the number of bytes of the payload as its size. *)
Theorem saved_file_details (path : string) (data : Data) (w w' : World) :
  saveFile path data w = (Ok tt, w') ->
  getFileDetails path w'
  = ({| exists_ := true; size_ := length (dataBytes data) |}, w').
Proof.
  intros S.
  destruct (saveFile_leaves _ _ _ _ S) as (root & dirs & n & R & _ & P & W & V & L).
  rewrite getFileDetails_eq, (ensureInit_rooted w' root R), R, P, pop_app, W.
  rewrite (getFileHandle_found (root ++ dirs) n false _ (dataBytes data) V);
    rewrite <- app_assoc, L; reflexivity.
Qed.

Lemma upload_paths_differ (folder n : string) :
  contains "/" folder = false -> contains "/" n = false ->
  n <> "metadata.json"%string ->
  pathParts (folder +:+ "/" +:+ n) <> pathParts (folder +:+ "/metadata.json").
Proof.
  intros Hf Hn Ne.
  change (folder +:+ "/metadata.json")
    with (folder +:+ "/" +:+ "metadata.json").
  rewrite !pathParts_join by (assumption || reflexivity).
  destruct folder as [|c folder], n as [|d n]; simpl; congruence.
Qed.

Lemma upload_reads (env : Ambient) (file : File) (w w' : World) :
  AddNew.handleFileUpload env file w = ([], w') ->
  JSON_parse (JSON_stringify
                (createAudioMetadata env file (AddNew.getAudioFolderName file)
                   (location_origin env +:+ "/audio-thumbnail.jpg")))
  = Some (createAudioMetadata env file (AddNew.getAudioFolderName file)
            (location_origin env +:+ "/audio-thumbnail.jpg")) ->
  isValidAudioFile file = true
  /\ useOpfsDirectories.readMetadata (AddNew.getAudioFolderName file) w'
     = (Ok (createAudioMetadata env file (AddNew.getAudioFolderName file)
              (location_origin env +:+ "/audio-thumbnail.jpg")), w')
  /\ (contains "/" (file_name file) = false ->
      file_name file <> "metadata.json"%string ->
      readFile (AddNew.getAudioFolderName file +:+ "/" +:+ file_name file) w'
      = (Ok (file_content file), w')).
Proof.
  unfold AddNew.handleFileUpload.
  set (folder := AddNew.getAudioFolderName file).
  set (m := createAudioMetadata env file folder _).
  destruct (isValidAudioFile file); [|discriminate]. simpl negb. cbv iota.
  unfold bind.
  destruct (saveFile (folder +:+ "/" +:+ file_name file)
              (DBlob (file_content file)) w) as [[[]|e] wa] eqn:S1;
    [|discriminate].
  destruct (saveFile (folder +:+ "/metadata.json")
              (DString (JSON_stringify m)) wa) as [[[]|e] wb] eqn:S2;
    [|discriminate].
  intros [= <-] Law. split; [reflexivity|].
  destruct (saveFile_leaves _ _ _ _ S2) as (root & dirs & n & R & R0 & P & W & V & L).
  split.
  - unfold useOpfsDirectories.readMetadata, bind.
    rewrite (readFile_found _ wb root dirs n _ R P W V L).
    unfold dataBytes, TextEncoder_encode, TextDecoder_decode.
    rewrite string_of_list_byte_of_string, Law. reflexivity.
  - intros Sl Ne.
    destruct (saveFile_leaves _ _ _ _ S1)
      as (root1 & dirs1 & n1 & R1 & _ & P1 & W1 & V1 & L1).
    assert (root1 = root) as ->.
    { rewrite (ensureInit_rooted wa root1 R1) in R0. simpl in R0. congruence. }
    apply (readFile_found _ wb root dirs1 n1 _ R P1).
    + eapply walk_again; [exact W1|]. eapply saveFile_keepsDirs, S2.
    + exact V1.
    + pose proof (saveFile_keeps (folder +:+ "/metadata.json")
                    (DString (JSON_stringify m)) wa _ _ L1) as K.
      rewrite S2 in K. apply K. intros root' R'.
      rewrite R0 in R'. injection R' as <-.
      rewrite <- P1. intros E. apply app_inv_head in E.
      revert E. apply upload_paths_differ; [|exact Sl|exact Ne].
      apply withoutExtension_slashfree, Sl.
Qed.

(** X21.  An upload, read back.  When [handleFileUpload] reports no
    failure, the sidecar of the file's folder reads and parses to the
    metadata made for the file (given that the codec reads back what it
    wrote for it), and, for a file name without a slash that is not
    "metadata.json", the payload reads back as the bytes of the file. *)
Theorem upload_then_read_back (env : Ambient) (file : File) (w w' : World) :
  AddNew.handleFileUpload env file w = ([], w') ->
  JSON_parse (JSON_stringify
                (createAudioMetadata env file (AddNew.getAudioFolderName file)
                   (location_origin env +:+ "/audio-thumbnail.jpg")))
  = Some (createAudioMetadata env file (AddNew.getAudioFolderName file)
            (location_origin env +:+ "/audio-thumbnail.jpg")) ->
  isValidAudioFile file = true
  /\ useOpfsDirectories.readMetadata (AddNew.getAudioFolderName file) w'
     = (Ok (createAudioMetadata env file (AddNew.getAudioFolderName file)
              (location_origin env +:+ "/audio-thumbnail.jpg")), w')
  /\ (contains "/" (file_name file) = false ->
      file_name file <> "metadata.json"%string ->
      readFile (AddNew.getAudioFolderName file +:+ "/" +:+ file_name file) w'
      = (Ok (file_content file), w')).
Proof. apply upload_reads. Qed.

End UploadMore.

(** ** The catalog: what is played *)

Section CatalogMore.
Context `{Codec : Json}.
Import OpfsStorage useOpfsDirectories.

Local Abbreviation byItemDesc :=
  (fun a b : AudioMetadata * list byte =>
     (uploadedAt (fst b) - uploadedAt (fst a))%Z).

Lemma listFiles_rooted (path : string) (w : World) (root : list string) :
  rootDir w = Some root -> snd (listFiles path w) = w.
Proof.
  intros R. rewrite listFiles_pure, (ensureInit_rooted w root R). reflexivity.
Qed.

Lemma readFolder_pure (folderName : string) (w : World) (root : list string) :
  rootDir w = Some root -> snd (readFolder folderName w) = w.
Proof.
  intros R. unfold readFolder. unfold bind at 1.
  pose proof (listFiles_rooted folderName w root R) as P.
  destruct (listFiles folderName w) as [[files|e] w1]; simpl in P; subst w1;
    [|reflexivity].
  destruct (find _ files) as [audioFile|]; [|reflexivity].
  unfold bind at 1.
  pose proof (readMetadata_pure folderName w root R) as P.
  destruct (readMetadata folderName w) as [[m|e] w1]; simpl in P; subst w1;
    [|reflexivity].
  unfold bind at 1.
  pose proof (readFile_pure (folderName +:+ "/" +:+ audioFile) w root R) as P.
  destruct (readFile _ w) as [[b|e] w1]; simpl in P; subst w1; reflexivity.
Qed.

Lemma readFolder_metadata (folderName : string) (w : World)
    (root : list string) (m : AudioMetadata) (b : list byte) :
  rootDir w = Some root ->
  fst (readFolder folderName w) = Ok (Some (m, b)) ->
  readMetadata folderName w = (Ok m, w).
Proof.
  intros R. unfold readFolder. unfold bind at 1.
  pose proof (listFiles_rooted folderName w root R) as P.
  destruct (listFiles folderName w) as [[files|e] w1]; simpl in P; subst w1;
    [|discriminate].
  destruct (find _ files) as [audioFile|]; [|discriminate].
  unfold bind at 1.
  pose proof (readMetadata_pure folderName w root R) as P.
  destruct (readMetadata folderName w) as [[m'|e] w1]; simpl in P; subst w1;
    [|discriminate].
  unfold bind at 1.
  destruct (readFile _ w) as [[b'|e] w1]; [|discriminate].
  simpl. intros [= -> _]. reflexivity.
Qed.

Lemma omap_id_map {X Y} (g : X -> option Y) (l : list X) :
  omap id (map g l) = omap g l.
Proof.
  induction l as [|x l IH]; [reflexivity|].
  simpl. destruct (g x); [f_equal|]; exact IH.
Qed.

Lemma omap_length_le {X Y} (g : X -> option Y) (l : list X) :
  (length (omap g l) <= length l)%nat.
Proof.
  induction l as [|x l IH]; [reflexivity|].
  simpl. destruct (g x); simpl; [apply le_n_S, IH|apply Nat.le_le_succ_r, IH].
Qed.

(** [getAllFiles], in one step. *)
Lemma getAllFiles_eq (w : World) :
  getAllFiles w
  = match listDirectories "" w with
    | (Ok dirs, w1) =>
        (Ok (Array_sort byItemDesc (omap (folderItem w1) dirs)), w1)
    | (Err e, w1) => (Err e, w1)
    end.
Proof.
  unfold getAllFiles. unfold bind at 1.
  destruct (listDirectories "" w) as [[dirs|e] w1] eqn:L; [|reflexivity].
  destruct (listDirectories_root w w1 dirs L) as (root & R & _).
  unfold bind at 1.
  rewrite (promiseAll_ok _ dirs (map (folderItem w1) dirs) w1).
  - unfold ret. rewrite omap_id_map. reflexivity.
  - clear L. induction dirs as [|d dirs IH]; constructor; [|exact IH].
    unfold catchNull, folderItem.
    pose proof (readFolder_pure d w1 root R) as P.
    destruct (readFolder d w1) as [[item|e] w2]; simpl in *; subst w2;
      reflexivity.
Qed.

(** X22.  [getAllFiles] never fails because of a folder.  Whenever the
    root can be listed it succeeds: it returns the entries of the folders
    that read, drops the folders that have no payload or fail to read,
    and orders the entries by [uploadedAt], largest first, keeping the
    listing order among entries uploaded at the same time.  It fails only
    when the listing of the root fails, with the error of the listing. *)
Theorem getAllFiles_skips_bad_folders (w : World) :
  (forall dirs w1,
     listDirectories "" w = (Ok dirs, w1) ->
     exists items,
       getAllFiles w = (Ok items, w1)
       /\ Permutation items (omap (folderItem w1) dirs)
       /\ StronglySorted
            (fun a b => (uploadedAt (fst b) <= uploadedAt (fst a))%Z) items
       /\ (forall t,
             List.filter (fun a => (uploadedAt (fst a) =? t)%Z) items
             = List.filter (fun a => (uploadedAt (fst a) =? t)%Z)
                 (omap (folderItem w1) dirs))
       /\ (length items <= length dirs)%nat)
  /\ (forall e w1,
        listDirectories "" w = (Err e, w1) -> getAllFiles w = (Err e, w1)).
Proof.
  rewrite getAllFiles_eq. split.
  - intros dirs w1 ->. eexists. split; [reflexivity|].
    split; [apply Array_sort_perm|].
    split; [apply (Array_sort_sorted (fun a => uploadedAt (fst a)))|].
    split; [intros t;
            apply (Array_sort_stable (fun a => uploadedAt (fst a)))|].
    rewrite (Permutation_length (Array_sort_perm _ _)).
    apply omap_length_le.
  - intros e w1 ->. reflexivity.
Qed.

Lemma sortInsert_map {X Y} (f : X -> Y) (c : Y -> Y -> Z) (x : X)
    (l : list X) :
  map f (sortInsert (fun a b => c (f a) (f b)) x l)
  = sortInsert c (f x) (map f l).
Proof.
  induction l as [|y l IH]; [reflexivity|].
  simpl. destruct (c (f x) (f y) <=? 0)%Z; [reflexivity|].
  simpl. rewrite IH. reflexivity.
Qed.

Lemma Array_sort_map {X Y} (f : X -> Y) (c : Y -> Y -> Z) (l : list X) :
  map f (Array_sort (fun a b => c (f a) (f b)) l) = Array_sort c (map f l).
Proof.
  induction l as [|x l IH]; [reflexivity|].
  simpl. rewrite sortInsert_map, IH. reflexivity.
Qed.

(** X23.  What is played is what is shown.  When every listed folder
    gives an entry, the metadata of the entries that [getAllFiles] hands
    to the player are, in the same order, the folders that [loadFolders]
    shows; the load reports no error. *)
Theorem playlist_follows_catalog (st : State) (w w1 : World)
    (dirs : list string) (items : list (AudioMetadata * list byte)) :
  listDirectories "" w = (Ok dirs, w1) ->
  Forall2 (fun d item => fst (readFolder d w1) = Ok (Some item)) dirs items ->
  exists played,
    getAllFiles w = (Ok played, w1)
    /\ map fst played = folders (fst (loadFolders st w))
    /\ Permutation played items
    /\ error (fst (loadFolders st w)) = None.
Proof.
  intros L F.
  destruct (listDirectories_root w w1 dirs L) as (root & R & _).
  assert (O : omap (folderItem w1) dirs = items).
  { clear L. induction F as [|d item dirs items Hd F IH]; [reflexivity|].
    simpl. unfold folderItem at 1. rewrite Hd. simpl. f_equal. exact IH. }
  assert (P : promiseAll readMetadata dirs w1 = (Ok (map fst items), w1)).
  { apply promiseAll_ok. clear L O.
    induction F as [|d [m b] dirs items Hd F IH]; constructor; [|exact IH].
    apply (readFolder_metadata d w1 root m b R Hd). }
  rewrite getAllFiles_eq, L, O. eexists. split; [reflexivity|].
  unfold loadFolders, loadFoldersTry, bind. rewrite L, P. simpl.
  split; [|split; [apply Array_sort_perm|reflexivity]].
  apply (Array_sort_map fst byUploadedAtDesc).
Qed.

End CatalogMore.

(** ** The player: pause and resume, the end of a session, the slider *)

Section SchedulerMore.
Context `{Engine : AudioEngine}.
Context `{Codec : Json}.
Import StitchAudio.

Lemma withState_same (c : AudioContext) (st : AudioContextState) :
  state c = st -> withState st c = c.
Proof. destruct c. simpl. intros ->. reflexivity. Qed.

(** X24.  Pause and resume.  A click while a session plays pauses it: the
    context is suspended with its sources, nothing is read from the
    store.  The next click resumes the same session: the sources, the
    start time, the durations and the gain node are those laid out when
    the session was prepared, and unless the time has run out the session
    plays again in its context. *)
Theorem pause_then_resume (t0 t1 t2 t3 : num) (w : World) (s : Store)
    (c : AudioContext) :
  audioCtxRef s = Some c -> state c = running -> isPlaying s = true ->
  exists s1 s2,
    onPlayClick t0 t1 (w, s) = (Ok tt, (w, s1))
    /\ isPlaying s1 = false
    /\ audioCtxRef s1 = Some (withState suspended c)
    /\ onPlayClick t2 t3 (w, s1) = (Ok tt, (w, s2))
    /\ scheduled s2 = sources c
    /\ playbackTimerRef s2 = playbackTimerRef s
    /\ duration s2 = duration s
    /\ gainNodes s2 = gainNodes s
    /\ gainNodeRef s2 = gainNodeRef s
    /\ (ltb (Timer.duration (playbackTimerRef s))
            (sub t2 (Timer.startTime (playbackTimerRef s))) = false ->
        isPlaying s2 = true /\ audioCtxRef s2 = Some c).
Proof.
  intros Hc Hst Hp.
  assert (G : getAudioContext s = (c, s)) by (unfold getAudioContext; rewrite Hc; reflexivity).
  rewrite onPlayClick_stops by (rewrite ?G; simpl; congruence).
  rewrite G. cbn [snd]. rewrite stopPlayback_eq, G, Hst.
  set (s1 := cancelFrame _).
  destruct (cancelFrame_fields
              (setAudioCtx (Some (withState suspended c)) (setIsPlaying false s)))
    as (C1 & C2 & C3 & C4 & C5 & C6 & C7 & C8).
  fold s1 in C1, C2, C3, C4, C5, C6, C7, C8. simpl in C1, C2, C3, C4, C5, C6, C7, C8.
  assert (G1 : getAudioContext s1 = (withState suspended c, s1))
    by (unfold getAudioContext; rewrite C1; reflexivity).
  exists s1.
  rewrite onPlayClick_resumes by (rewrite G1; reflexivity).
  rewrite G1. cbn [fst snd].
  set (s1' := setIsPlaying true _).
  pose proof (updatePlaybackTime_ok t2 s1') as Ok2.
  destruct (updatePlaybackTime_frame t2 s1')
    as (F1 & F2 & F3 & F4 & _ & c2 & F5 & F6).
  pose proof (updatePlaybackTime_eq t2 s1') as E2.
  destruct (updatePlaybackTime t2 s1') as [r s2]. simpl in *.
  exists s2. rewrite Ok2 by congruence.
  split; [reflexivity|]. split; [exact C5|]. split; [exact C1|].
  split; [reflexivity|].
  unfold scheduled. rewrite F5, F6, F3, F4, F1, F2, C4, C7, C2, C3.
  repeat (split; [reflexivity|]).
  intros L. rewrite C4, L in E2. injection E2 as _ ->.
  destruct (leb _ _ && leb _ _); simpl in F5 |- *; injection F5 as <-;
    (split; [reflexivity|]); f_equal; destruct c; simpl in *; subst;
    reflexivity.
Qed.

(** X25.  The end of the last source.  When the last source of the
    current context ends and the context is not closed, the [onended]
    handler stops the session and closes the context, keeping its sources;
    the reported time, the durations and the start time are left as they
    were (nothing is reset before the next click), and no frame stays
    requested. *)
Theorem natural_end (s : Store) (c : AudioContext) :
  audioCtxRef s = Some c ->
  Exists (fun src => onended src = true) (sources c) ->
  state c <> closed ->
  fst (sourceEnded s) = Ok tt
  /\ audioCtxRef (snd (sourceEnded s)) = Some (withState closed c)
  /\ isPlaying (snd (sourceEnded s)) = false
  /\ (forall n, animationRef (snd (sourceEnded s)) <> Some (S n))
  /\ currTime (snd (sourceEnded s)) = currTime s
  /\ duration (snd (sourceEnded s)) = duration s
  /\ playbackTimerRef (snd (sourceEnded s)) = playbackTimerRef s
  /\ gainNodes (snd (sourceEnded s)) = gainNodes s.
Proof.
  intros Hc _ Hst.
  destruct s as [ctx gn gr ar fr t ip ct d ist]. simpl in Hc. subst ctx.
  destruct c as [st srcs]. simpl in Hst.
  destruct st; [| |congruence]; destruct ar as [[|n]|]; simpl;
    repeat split; congruence.
Qed.

(** X26.  A session that the polling loop has stopped stays stopped under
    clicks.  When a run of the loop finds the time run out, it suspends the
    context; from then on a click only resumes the context and, as the
    time has run out, suspends it at once: the click changes nothing, does
    not read the catalog and prepares no new session.  (Only the end of
    the last source closes the context; a session prepared over an empty
    catalog has no source.) *)
Theorem click_after_polled_end (now t0 t1 : num) (w : World) (s : Store)
    (c : AudioContext) :
  audioCtxRef s = Some c -> state c <> closed ->
  ltb (Timer.duration (playbackTimerRef s))
      (sub now (Timer.startTime (playbackTimerRef s))) = true ->
  ltb (Timer.duration (playbackTimerRef s))
      (sub t0 (Timer.startTime (playbackTimerRef s))) = true ->
  let s1 := snd (updatePlaybackTime now s) in
  fst (updatePlaybackTime now s) = Ok tt
  /\ isPlaying s1 = false
  /\ audioCtxRef s1 = Some (withState suspended c)
  /\ (animationRef s <> Some 0%nat ->
      onPlayClick t0 t1 (w, s1) = (Ok tt, (w, s1))).
Proof.
  intros Hc Hst L L0.
  destruct s as [ctx gn gr ar fr t ip ct d ist]. simpl in Hc. subst ctx.
  destruct c as [st srcs]. simpl in Hst.
  cbv zeta. rewrite updatePlaybackTime_eq. simpl in L, L0 |- *. rewrite L.
  destruct st; [| |congruence]; destruct ar as [[|n]|]; simpl;
    (split; [reflexivity|]); (split; [reflexivity|]);
    (split; [reflexivity|]); intros Ha; try congruence;
    (rewrite onPlayClick_resumes by reflexivity);
    rewrite updatePlaybackTime_eq; simpl; rewrite L0; reflexivity.
Qed.

(** X27.  When the catalog cannot be listed, a click on an idle player
    fails with the error of the listing and leaves the player preparing:
    [isStitching] stays true, nothing is scheduled and nothing plays. *)
Theorem listing_failure_stays_preparing (t0 t1 : num) (w w' : World)
    (s : Store) (e : Error) :
  state (fst (getAudioContext s)) <> suspended ->
  isPlaying s = false ->
  OpfsStorage.listDirectories "" w = (Err e, w') ->
  exists s',
    onPlayClick t0 t1 (w, s) = (Err e, (w', s'))
    /\ isStitching s' = true
    /\ isPlaying s' = false
    /\ scheduled s' = []
    /\ Timer.filesLen (playbackTimerRef s') = 0%nat.
Proof.
  intros Hs Hp L.
  assert (G : useOpfsDirectories.getAllFiles w = (Err e, w')).
  { rewrite getAllFiles_eq, L. reflexivity. }
  rewrite (onPlayClick_listing_fails t0 t1 w w' s e Hs Hp G).
  eexists. split; [reflexivity|].
  destruct (endPlayback_fields s) as (Hc & _ & _ & Ht & Hpl & _).
  unfold scheduled. simpl. rewrite Hc, Ht, Hpl. simpl. auto.
Qed.

(** *** The slider and what plays *)

Lemma wired_frame (s s' : Store) :
  scheduled s' = scheduled s \/ scheduled s' = [] ->
  gainNodeRef s' = gainNodeRef s ->
  length (gainNodes s') = length (gainNodes s) ->
  wired s -> wired s'.
Proof.
  unfold wired. intros [-> | ->] -> ->; [auto|constructor].
Qed.

Lemma wired_getAudioContext (s : Store) :
  wired s -> wired (snd (getAudioContext s)).
Proof.
  apply wired_frame.
  - unfold scheduled, getAudioContext.
    destruct (audioCtxRef s) eqn:E; simpl; rewrite ?E; auto.
  - apply getAudioContext_fields.
  - f_equal. apply getAudioContext_fields.
Qed.

Lemma scheduled_stopPlayback (s : Store) :
  scheduled (snd (stopPlayback s)) = scheduled s.
Proof.
  destruct s as [[[st srcs]|] gn gr [[|n]|] fr t ip ct d ist];
    try destruct st; reflexivity.
Qed.

Lemma wired_stopPlayback (s : Store) :
  wired s -> wired (snd (stopPlayback s)).
Proof.
  apply wired_frame.
  - left. apply scheduled_stopPlayback.
  - apply stopPlayback_fields.
  - f_equal. apply stopPlayback_fields.
Qed.

Lemma wired_tick (now : num) (s : Store) :
  wired s -> wired (snd (updatePlaybackTime now s)).
Proof.
  destruct (updatePlaybackTime_frame now s) as (F1 & F2 & _ & _ & _ & c & F5 & F6).
  apply wired_frame; [|exact F2|f_equal; exact F1].
  left. unfold scheduled. rewrite F5, F6.
  unfold getAudioContext. destruct (audioCtxRef s); reflexivity.
Qed.

Lemma wired_endPlayback (s : Store) : wired s -> wired (endPlayback s).
Proof.
  destruct (endPlayback_fields s) as (Hc & Hg & Hr & _).
  apply wired_frame; [|exact Hr|f_equal; exact Hg].
  right. unfold scheduled. rewrite Hc. reflexivity.
Qed.

Lemma wired_laidOut (t0 : num) (n : nat) (bufs : list AudioBuffer.t)
    (s : Store) :
  wired (laidOut t0 n bufs s).
Proof.
  unfold wired, scheduled. simpl.
  apply List.Forall_forall. intros src I.
  assert (D : destination src = length (gainNodes s)).
  { pose proof (attachOnended_connected _ _
                  (scheduleAll_destination (length (gainNodes s)) bufs t0))
      as B.
    rewrite List.Forall_forall in B. apply B, I. }
  rewrite D, length_app. simpl. split; [reflexivity|lia].
Qed.

Lemma wired_snd {A} (f : Eff Store A) (s : Store) :
  wired (snd (f s)) ->
  forall w : World, wired (snd (snd (let '(r, s') := f s in (r, (w, s'))))).
Proof. destruct (f s); simpl; auto. Qed.

Lemma wired_prepare (t0 t1 : num) (w : World) (s : Store) :
  state (fst (getAudioContext s)) <> suspended ->
  wired s -> wired (snd (snd (onPlayClick t0 t1 (w, s)))).
Proof.
  intros Hn I.
  destruct (isPlaying s) eqn:Hp.
  - rewrite onPlayClick_stops by assumption. apply wired_snd.
    apply wired_stopPlayback, wired_getAudioContext, I.
  - destruct (useOpfsDirectories.getAllFiles w) as [[data|e] w'] eqn:Hg.
    + destruct (decode_cases data) as [[bufs F]|E].
      * rewrite (onPlayClick_prepares t0 t1 w w' s data bufs Hn Hp Hg F).
        apply wired_snd, wired_tick, wired_laidOut.
      * rewrite (onPlayClick_decode_fails t0 t1 w w' s data Hn Hp Hg E).
        simpl. revert I. apply wired_frame; auto.
    + rewrite (onPlayClick_listing_fails t0 t1 w w' s e Hn Hp Hg). simpl.
      apply wired_endPlayback in I. revert I. apply wired_frame; auto.
Qed.

Lemma wired_click (t0 t1 : num) (w : World) (s : Store) :
  wired s -> wired (snd (snd (onPlayClick t0 t1 (w, s)))).
Proof.
  intros I.
  destruct (state (fst (getAudioContext s))) eqn:Hs.
  - apply wired_prepare; [congruence|exact I].
  - rewrite onPlayClick_resumes by assumption.
    apply wired_snd, wired_tick.
    apply wired_getAudioContext in I. revert I. apply wired_frame; auto.
    left. unfold scheduled. simpl.
    destruct (getAudioContext_fields s) as (-> & _). reflexivity.
  - apply wired_prepare; [congruence|exact I].
Qed.

Lemma wired_volume (v : num) (s : Store) :
  wired s -> wired (handleVolumeChange v s).
Proof.
  intros I. unfold handleVolumeChange. simpl.
  destruct (gainNodeRef s) as [g|] eqn:E; revert I; apply wired_frame; simpl;
    rewrite ?E, ?length_insert; auto.
Qed.

Lemma wired_folders (folders : list AudioMetadata) (s : Store) :
  wired s -> wired (foldersEffect folders s).
Proof.
  intros I. unfold foldersEffect.
  destruct (_ || _); [exact I|apply wired_endPlayback, I].
Qed.

Lemma wired_ended (s : Store) : wired s -> wired (snd (sourceEnded s)).
Proof.
  apply wired_frame;
    destruct s as [[[st srcs]|] gn gr [[|n]|] fr t ip ct d ist];
    try destruct st; simpl; auto.
Qed.

Lemma reachable_wired (ws : World * Store) : reachable ws -> wired (snd ws).
Proof.
  induction 1 as [w|ws ws' R I S].
  - constructor.
  - destruct S as [t0 t1 [w s]|now w s|v w s|folders w s|w s|w w' s];
      simpl in *.
    + apply wired_click, I.
    + apply wired_tick, I.
    + apply wired_volume, I.
    + apply wired_folders, I.
    + apply wired_ended, I.
    + exact I.
Qed.

(** X28.  The slider reaches what plays.  In every state the player can
    reach, every source started in the current context is connected to
    the gain node that the slider writes: after [handleVolumeChange v] the
    gain of each of them is [v / 100], and the sources are the same. *)
Theorem slider_reaches_every_source (ws : World * Store) (v : num) :
  reachable ws ->
  scheduled (handleVolumeChange v (snd ws)) = scheduled (snd ws)
  /\ Forall (fun src =>
               gainNodes (handleVolumeChange v (snd ws)) !! destination src
               = Some (div v (ofZ 100)))
            (scheduled (snd ws)).
Proof.
  intros R. apply reachable_wired in R. destruct ws as [w s]. simpl in *.
  split.
  - unfold scheduled, handleVolumeChange. simpl.
    destruct (gainNodeRef s); reflexivity.
  - eapply Forall_impl; [exact R|].
    intros src [Hr Hl]. simpl in Hr, Hl.
    unfold handleVolumeChange. simpl. rewrite Hr. simpl.
    apply list_lookup_insert_eq. exact Hl.
Qed.

End SchedulerMore.

(** ** From an upload to the player *)

Section FirstUpload.
Context `{Codec : Json}.
Import OpfsStorage useOpfsDirectories.

Lemma only_one {X} (l : list X) (a : X) :
  List.NoDup l -> (forall x, In x l <-> x = a) -> l = [a].
Proof.
  intros N H. destruct l as [|x l].
  - destruct (proj2 (H a) eq_refl).
  - pose proof (proj1 (H x) (or_introl eq_refl)) as ->.
    destruct l as [|y l]; [reflexivity|].
    pose proof (proj1 (H y) (or_intror (or_introl eq_refl))) as ->.
    apply List.NoDup_cons_iff in N as [N _]. destruct N. left. reflexivity.
Qed.

Lemma find_only {X} (f : X -> bool) (l : list X) (a : X) :
  In a l -> f a = true -> (forall x, In x l -> f x = true -> x = a) ->
  find f l = Some a.
Proof.
  induction l as [|x l IH]; intros I Fa U; [destruct I|].
  simpl. destruct (f x) eqn:Fx.
  - f_equal. apply U; [left; reflexivity|exact Fx].
  - destruct I as [->|I]; [congruence|].
    apply IH; [exact I|exact Fa|]. intros y Iy. apply U. right. exact Iy.
Qed.

(** X29.  From the first upload to the player.  After an upload into an
    empty store has gone through, of a file whose name has no slash, a
    non-empty folder name and is not "metadata.json", the catalog shows
    exactly the metadata made for the file, and [getAllFiles] hands to the
    player exactly one entry: that metadata with the bytes of the file. *)
Theorem first_upload_is_played (env : Ambient) (file : File) (st : State)
    (w w' : World) :
  disk w = ∅ -> wellRooted w ->
  contains "/" (file_name file) = false ->
  truthy (AddNew.getAudioFolderName file) = true ->
  file_name file <> "metadata.json"%string ->
  JSON_parse (JSON_stringify
                (createAudioMetadata env file (AddNew.getAudioFolderName file)
                   (location_origin env +:+ "/audio-thumbnail.jpg")))
  = Some (createAudioMetadata env file (AddNew.getAudioFolderName file)
            (location_origin env +:+ "/audio-thumbnail.jpg")) ->
  AddNew.handleFileUpload env file w = ([], w') ->
  getAllFiles w'
  = (Ok [(createAudioMetadata env file (AddNew.getAudioFolderName file)
            (location_origin env +:+ "/audio-thumbnail.jpg"),
          file_content file)], w')
  /\ loadFolders st w'
     = ({| folders :=
             [createAudioMetadata env file (AddNew.getAudioFolderName file)
                (location_origin env +:+ "/audio-thumbnail.jpg")];
           isLoading := false; error := None |}, w').
Proof.
  intros Empty Rt Sl Tf Ne Law Up.
  destruct (upload_reads env file w w' Up Law) as (Valid & RM & RF).
  specialize (RF Sl Ne).
  set (folder := AddNew.getAudioFolderName file) in *.
  set (m := createAudioMetadata env file folder _) in *.
  assert (Sf : contains "/" folder = false)
    by (apply withoutExtension_slashfree, Sl).
  assert (Tn : truthy (file_name file) = true).
  { unfold folder, AddNew.getAudioFolderName, withoutExtension in Tf.
    destruct (file_name file); [discriminate Tf|reflexivity]. }
  (* the two saves *)
  unfold AddNew.handleFileUpload in Up. rewrite Valid in Up.
  simpl negb in Up. cbv iota in Up. unfold bind in Up.
  fold folder in Up. fold m in Up.
  destruct (saveFile (folder +:+ "/" +:+ file_name file)
              (DBlob (file_content file)) w) as [[[]|e] wa] eqn:S1;
    [|discriminate].
  destruct (saveFile (folder +:+ "/metadata.json")
              (DString (JSON_stringify m)) wa) as [[[]|e] wb] eqn:S2;
    [|discriminate].
  injection Up as <-.
  assert (P1 : pathParts (folder +:+ "/" +:+ file_name file)
               = [folder; file_name file]).
  { rewrite pathParts_join by assumption. simpl. rewrite Tf, Tn. reflexivity. }
  assert (P2 : pathParts (folder +:+ "/metadata.json")
               = [folder; "metadata.json"%string]).
  { change (folder +:+ "/metadata.json")
      with (folder +:+ "/" +:+ "metadata.json").
    rewrite pathParts_join by (assumption || reflexivity).
    simpl. rewrite Tf. reflexivity. }
  assert (Sh0 : shallow (disk w)).
  { rewrite Empty. intros k v. rewrite lookup_empty. discriminate. }
  destruct (saveFile_in_folder _ folder (file_name file)
              (DBlob (file_content file)) w Rt Sh0 P1)
    as [(F1 & _)|(_ & Vf & NoF & R1 & D1)].
  { intros _.
    destruct (saveFile_leaves _ _ _ _ S1) as (_ & dirs1 & n1 & _ & _ & E1 & _ & V1 & _).
    rewrite P1 in E1. change [folder; file_name file]
      with ([folder] ++ [file_name file]) in E1.
    apply app_inj_tail in E1 as [_ ->]. exact V1. }
  { rewrite S1 in F1. destruct F1. reflexivity. }
  rewrite S1 in R1, D1. simpl in R1, D1.
  assert (Sha : shallow (disk wa)).
  { rewrite D1. apply shallow_folder_file; assumption. }
  destruct (saveFile_in_folder _ folder "metadata.json"
              (DString (JSON_stringify m)) wa (or_intror R1) Sha P2)
    as [(F2 & _)|(_ & _ & _ & R2 & D2)]; [reflexivity| |].
  { rewrite S2 in F2. destruct F2. reflexivity. }
  rewrite S2 in R2, D2. simpl in R2, D2. rewrite D1, Empty in D2.
  clear D1 R1 Sha Sh0 S1 S2.
  (* the listings *)
  assert (LD : listDirectories "" wb = (Ok [folder], wb)).
  { rewrite listDirectories_eq, (ensureInit_rooted wb [] R2), R2.
    change (walk false (pathParts "") [] (disk wb))
      with (@Ok (list string) [], disk wb).
    cbv iota beta. f_equal. f_equal.
    apply only_one.
    - apply filter_names_NoDup, children_names_NoDup.
    - intros x. rewrite folderNames_In, D2. simpl app.
      rewrite lookup_insert_ne by discriminate.
      rewrite lookup_insert.
      destruct (decide ([folder] = [x])) as [[= <-]|Nx].
      + split; reflexivity.
      + rewrite lookup_insert_ne by discriminate.
        rewrite lookup_insert_ne by exact Nx.
        rewrite lookup_empty. split; [discriminate|]. intros ->. congruence. }
  assert (LF : exists files,
             listFiles folder wb = (Ok files, wb)
             /\ find (fun f => negb (String.eqb f "metadata.json")) files
                = Some (file_name file)).
  { rewrite (listFiles_folder folder wb R2 Vf).
    2:{ rewrite D2. rewrite lookup_insert_ne by discriminate.
        apply lookup_insert_eq. }
    eexists. split; [reflexivity|].
    assert (M : forall x,
              In x (map fst (List.filter isFile (children [folder] (disk wb))))
              <-> x = "metadata.json"%string \/ x = file_name file).
    { intros x. rewrite fileNames_In, D2. simpl app.
      rewrite lookup_insert.
      destruct (decide ([folder; "metadata.json"%string] = [folder; x]))
        as [[= <-]|N1]; [split; eauto|].
      rewrite lookup_insert_ne by discriminate. rewrite lookup_insert.
      destruct (decide ([folder; file_name file] = [folder; x]))
        as [[= <-]|N2]; [split; eauto|].
      rewrite lookup_insert_ne by discriminate. rewrite lookup_empty.
      split; [intros [c [=]]|]. intros [->| ->]; congruence. }
    apply find_only.
    - apply M. right. reflexivity.
    - apply negb_true_iff, String.eqb_neq, Ne.
    - intros x Ix Fx. apply M in Ix as [->| ->]; [discriminate Fx|reflexivity]. }
  destruct LF as (files & LF & Fd).
  assert (RFo : readFolder folder wb
                = (Ok (Some (m, file_content file)), wb)).
  { unfold readFolder, bind. rewrite LF, Fd. fold m in RM. rewrite RM, RF.
    reflexivity. }
  split.
  - rewrite getAllFiles_eq, LD. simpl. unfold folderItem. rewrite RFo.
    reflexivity.
  - unfold loadFolders, loadFoldersTry, bind. rewrite LD. simpl.
    unfold bind. fold m in RM. rewrite RM. reflexivity.
Qed.

(** X30.  Uploading a file again replaces it.  In a store of folders
    (as uploads build it) that already holds the payload and the sidecar of
    a file, an upload of a file of that name that goes through leaves the
    same entries: the payload holds the new bytes, the sidecar the new
    metadata, and every other entry is as it was. *)
Theorem upload_again_replaces (env : Ambient) (file : File) (w w' : World) :
  wellRooted w -> shallow (disk w) ->
  contains "/" (file_name file) = false ->
  truthy (AddNew.getAudioFolderName file) = true ->
  file_name file <> "metadata.json"%string ->
  disk w !! [AddNew.getAudioFolderName file; file_name file] <> None ->
  disk w !! [AddNew.getAudioFolderName file; "metadata.json"%string] <> None ->
  AddNew.handleFileUpload env file w = ([], w') ->
  disk w' !! [AddNew.getAudioFolderName file; file_name file]
  = Some (FileNode (file_content file))
  /\ disk w' !! [AddNew.getAudioFolderName file; "metadata.json"%string]
     = Some (FileNode
               (TextEncoder_encode
                  (JSON_stringify
                     (createAudioMetadata env file
                        (AddNew.getAudioFolderName file)
                        (location_origin env +:+ "/audio-thumbnail.jpg")))))
  /\ (forall k,
        k <> [AddNew.getAudioFolderName file; file_name file] ->
        k <> [AddNew.getAudioFolderName file; "metadata.json"%string] ->
        disk w' !! k = disk w !! k)
  /\ (forall k, disk w' !! k = None <-> disk w !! k = None).
Proof.
  intros Rt Sh0 Sl Tf Ne Had1 Had2 Up.
  set (folder := AddNew.getAudioFolderName file) in *.
  assert (Sf : contains "/" folder = false)
    by (apply withoutExtension_slashfree, Sl).
  assert (Tn : truthy (file_name file) = true).
  { unfold folder, AddNew.getAudioFolderName, withoutExtension in Tf.
    destruct (file_name file); [discriminate Tf|reflexivity]. }
  unfold AddNew.handleFileUpload in Up.
  destruct (isValidAudioFile file); [|discriminate].
  simpl negb in Up. cbv iota in Up. unfold bind in Up. fold folder in Up.
  set (m := createAudioMetadata env file folder _) in *.
  destruct (saveFile (folder +:+ "/" +:+ file_name file)
              (DBlob (file_content file)) w) as [[[]|e] wa] eqn:S1;
    [|discriminate].
  destruct (saveFile (folder +:+ "/metadata.json")
              (DString (JSON_stringify m)) wa) as [[[]|e] wb] eqn:S2;
    [|discriminate].
  injection Up as <-.
  assert (P1 : pathParts (folder +:+ "/" +:+ file_name file)
               = [folder; file_name file]).
  { rewrite pathParts_join by assumption. simpl. rewrite Tf, Tn. reflexivity. }
  assert (P2 : pathParts (folder +:+ "/metadata.json")
               = [folder; "metadata.json"%string]).
  { change (folder +:+ "/metadata.json")
      with (folder +:+ "/" +:+ "metadata.json").
    rewrite pathParts_join by (assumption || reflexivity).
    simpl. rewrite Tf. reflexivity. }
  destruct (saveFile_in_folder _ folder (file_name file)
              (DBlob (file_content file)) w Rt Sh0 P1)
    as [(F1 & _)|(_ & Vf & NoF & R1 & D1)].
  { intros _.
    destruct (saveFile_leaves _ _ _ _ S1) as (_ & dirs1 & n1 & _ & _ & E1 & _ & V1 & _).
    rewrite P1 in E1. change [folder; file_name file]
      with ([folder] ++ [file_name file]) in E1.
    apply app_inj_tail in E1 as [_ ->]. exact V1. }
  { rewrite S1 in F1. destruct F1. reflexivity. }
  rewrite S1 in R1, D1. simpl in R1, D1.
  assert (Sha : shallow (disk wa)).
  { rewrite D1. apply shallow_folder_file; assumption. }
  destruct (saveFile_in_folder _ folder "metadata.json"
              (DString (JSON_stringify m)) wa (or_intror R1) Sha P2)
    as [(F2 & _)|(_ & _ & _ & R2 & D2)]; [reflexivity| |].
  { rewrite S2 in F2. destruct F2. reflexivity. }
  rewrite S2 in R2, D2. simpl in R2, D2. rewrite D1 in D2.
  assert (Dir : disk w !! [folder] = Some DirNode).
  { destruct (disk w !! [folder; file_name file]) as [v|] eqn:L;
      [|congruence].
    destruct (Sh0 _ _ L) as [[n [=]]|(dir & n & c & [= <- <-] & _ & Hd)].
    exact Hd. }
  assert (Look : forall k,
            disk wb !! k
            = if decide (k = [folder; "metadata.json"%string])
              then Some (FileNode (TextEncoder_encode (JSON_stringify m)))
              else if decide (k = [folder; file_name file])
                   then Some (FileNode (file_content file))
                   else disk w !! k).
  { intros k. rewrite D2.
    destruct (decide (k = [folder; "metadata.json"%string])) as [->|N1];
      [apply lookup_insert_eq|].
    rewrite lookup_insert_ne by congruence.
    destruct (decide (k = [folder; file_name file])) as [->|N2].
    - rewrite lookup_insert_ne by discriminate. apply lookup_insert_eq.
    - destruct (decide (k = [folder])) as [->|N3].
      + rewrite lookup_insert_eq. symmetry. exact Dir.
      + rewrite !lookup_insert_ne by congruence. reflexivity. }
  split; [|split; [|split]].
  - rewrite Look. destruct (decide _) as [[= E]|_]; [congruence|].
    destruct (decide _); [reflexivity|congruence].
  - rewrite Look. destruct (decide _); [reflexivity|congruence].
  - intros k N1 N2. rewrite Look.
    destruct (decide _); [congruence|].
    destruct (decide _); [congruence|reflexivity].
  - intros k. rewrite Look.
    destruct (decide _) as [->|_]; [split; [discriminate|intros E; congruence]|].
    destruct (decide _) as [->|_]; [split; [discriminate|intros E; congruence]|].
    reflexivity.
Qed.

End FirstUpload.
(** ** The properties at work on the sample library *)

Section SampleRuns.
Import Sample StitchAudio OpfsStorage.

Lemma sample_nonneg : NonNegative.
Proof.
  split.
  - reflexivity.
  - intros a b Ha Hb. simpl in *. apply Qle_bool_iff in Ha, Hb.
    apply Qle_bool_iff. change (inject_Z 0) with (0 + 0)%Q.
    apply Qplus_le_compat; assumption.
  - intros bytes b. simpl. destruct bytes as [|x bytes]; [discriminate|].
    intros [= <-]. reflexivity.
Defined.

Lemma playing_reached :
  snd (snd (onPlayClick (ofZ 7) (ofZ 7) (library, initialStore))) = playing.
Proof. vm_compute. reflexivity. Qed.

Lemma gapless_timeline_witness :
  exists s' c,
    onPlayClick (ofZ 7) (ofZ 7) (library, initialStore)
    = (Ok tt, (snd (useOpfsDirectories.getAllFiles library), s'))
    /\ audioCtxRef s' = Some c
    /\ map buffer (sources c)
       = libraryBuffers
    /\ (forall b,
          libraryBuffers !! 0%nat = Some b ->
          startOffsets c !! 0%nat = Some (ofZ 7))
    /\ (forall i b t,
          libraryBuffers !! i = Some b ->
          startOffsets c !! i = Some t ->
          (S i < 2)%nat ->
          startOffsets c !! S i = Some (add t (AudioBuffer.duration b)))
    /\ duration s' = sumOf [halves 5; halves 3]
    /\ Timer.duration (playbackTimerRef s') = sumOf [halves 5; halves 3]
    /\ Timer.startTime (playbackTimerRef s') = ofZ 7.
Proof.
  apply (gapless_timeline (ofZ 7) (ofZ 7) library
           (snd (useOpfsDirectories.getAllFiles library)) initialStore
           (payloadsOf library)
           libraryBuffers).
  - vm_compute. discriminate.
  - reflexivity.
  - vm_compute. reflexivity.
  - vm_compute. repeat constructor.
Defined.

Lemma decode_failure_stays_preparing_witness :
  exists s',
    onPlayClick (ofZ 7) (ofZ 7) (brokenLibrary, initialStore)
    = (Err EncodingError,
       (snd (useOpfsDirectories.getAllFiles brokenLibrary), s'))
    /\ audioCtxRef s' = Some newAudioContext
    /\ isPlaying s' = false
    /\ isStitching s' = true
    /\ Timer.filesLen (playbackTimerRef s') = 2%nat.
Proof.
  apply (decode_failure_stays_preparing (ofZ 7) (ofZ 7) brokenLibrary
           (snd (useOpfsDirectories.getAllFiles brokenLibrary)) initialStore
           (payloadsOf brokenLibrary)).
  - vm_compute. discriminate.
  - reflexivity.
  - vm_compute. reflexivity.
  - vm_compute. apply Exists_cons_hd. reflexivity.
Defined.



Lemma reported_time_within_duration_witness :
  currTime (snd (updatePlaybackTime (ofZ 9) playing))
  = sub (ofZ 9) (Timer.startTime (playbackTimerRef playing))
  /\ updatePlaybackTime (ofZ 12) playing
     = stopPlayback (snd (getAudioContext playing))
  /\ withinDuration
       (snd (snd (onPlayClick (ofZ 7) (ofZ 7) (library, initialStore)))).
Proof.
  split; [|split].
  - apply (proj1 (proj2 (proj1 reported_time_within_duration (ofZ 9) playing)));
      vm_compute; reflexivity.
  - apply (proj1 (proj1 reported_time_within_duration (ofZ 12) playing)).
    vm_compute. reflexivity.
  - apply (proj2 reported_time_within_duration sample_nonneg).
    eapply reachable_step; [apply (reachable_start library)|apply step_click].
Defined.

Lemma volume_kept_across_sessions_witness :
  exists s' c g,
    onPlayClick (ofZ 7) (ofZ 7)
      (library, handleVolumeChange (ofZ 35) (endPlayback playing))
    = (Ok tt, (snd (useOpfsDirectories.getAllFiles library), s'))
    /\ gainNodeRef s' = Some g
    /\ gainNodes s' !! g = Some (div (ofZ 35) (ofZ 100))
    /\ audioCtxRef s' = Some c
    /\ Forall (fun n => destination n = g) (sources c)
    /\ Timer.volume (playbackTimerRef s') = ofZ 35.
Proof.
  apply (proj2 (proj2 (proj2 (proj2
           (volume_kept_across_sessions
              (handleVolumeChange (ofZ 35) (endPlayback playing))))))
           (ofZ 7) (ofZ 7) library
           (snd (useOpfsDirectories.getAllFiles library))
           (payloadsOf library)
           libraryBuffers).
  - vm_compute. discriminate.
  - reflexivity.
  - vm_compute. reflexivity.
  - vm_compute. repeat constructor.
Defined.

Lemma save_then_read_witness :
  readFile "first/first.mp3"
    (snd (saveFile "first/first.mp3" (DView [x09; x0a; x0b; x0c] 1 2) library))
  = (Ok [x0a; x0b],
     snd (saveFile "first/first.mp3" (DView [x09; x0a; x0b; x0c] 1 2) library))
  /\ readFile "a/b.txt"
       (snd (saveFile "a/b.txt" (DString "xyz") (freshWorld WorkerRealm)))
     = (Ok ["x"%byte; "y"%byte; "z"%byte],
        snd (saveFile "a/b.txt" (DString "xyz") (freshWorld WorkerRealm)))
  /\ exists w',
       saveFile "a/b.txt" (DString "xyz") (freshWorld WorkerRealm) = (Ok tt, w').
Proof.
  split; [|split].
  - apply (proj1 (save_then_read "first/first.mp3"
                    (DView [x09; x0a; x0b; x0c] 1 2) library)).
    vm_compute. reflexivity.
  - apply (proj1 (save_then_read "a/b.txt" (DString "xyz")
                    (freshWorld WorkerRealm))).
    vm_compute. reflexivity.
  - apply (proj2 (save_then_read "a/b.txt" (DString "xyz")
                    (freshWorld WorkerRealm)) []);
      vm_compute; reflexivity.
Defined.

Lemma save_publishes_in_window_witness :
  dispatched (snd (saveFile "a/b.txt" (DString "xyz") (freshWorld WindowRealm)))
  = dispatched (freshWorld WindowRealm)
    ++ [{| type_ := file_added; path_ := "a/b.txt" |}].
Proof.
  apply (proj1 (save_publishes_in_window "a/b.txt" (DString "xyz")
                  (freshWorld WindowRealm)
                  (snd (saveFile "a/b.txt" (DString "xyz")
                          (freshWorld WindowRealm)))
                  ltac:(vm_compute; reflexivity))).
  reflexivity.
Defined.

Lemma one_bad_sidecar_fails_the_load_witness :
  exists e',
    useOpfsDirectories.loadFolders useOpfsDirectories.initialState halfUploaded
    = ({| useOpfsDirectories.folders := [];
          useOpfsDirectories.isLoading := false;
          useOpfsDirectories.error := Some e' |},
       snd (listDirectories "" halfUploaded)).
Proof.
  apply (one_bad_sidecar_fails_the_load useOpfsDirectories.initialState
           halfUploaded (snd (listDirectories "" halfUploaded))
           ["first"; "third"; "second"] "third" NotFoundError).
  - vm_compute. reflexivity.
  - simpl. auto.
  - vm_compute. reflexivity.
Defined.

Lemma load_sorts_by_upload_time_witness :
  Permutation
    (useOpfsDirectories.folders
       (fst (useOpfsDirectories.loadFolders useOpfsDirectories.initialState
               library)))
    [firstMeta; secondMeta]
  /\ StronglySorted (fun a b => (uploadedAt b < uploadedAt a)%Z)
       (useOpfsDirectories.folders
          (fst (useOpfsDirectories.loadFolders useOpfsDirectories.initialState
                  library))).
Proof.
  destruct (load_sorts_by_upload_time useOpfsDirectories.initialState library
              (snd (listDirectories "" library))
              ["first"; "second"] [firstMeta; secondMeta])
    as (_ & _ & P & _ & S & _).
  - vm_compute. reflexivity.
  - constructor; [vm_compute; reflexivity|].
    constructor; [vm_compute; reflexivity|constructor].
  - split; [exact P|].
    apply S. vm_compute.
    repeat (apply NoDup_cons; split; [rewrite !list_elem_of_In; simpl; intuition discriminate|]).
    apply NoDup_nil. exact I.
Defined.

(** Why the names must hold no backslash: the upload of a file named
    [a.b\c] makes the folder [a], then fails to save the payload, whose
    name the file system rejects, and leaves the folder listed and
    empty. *)
Lemma backslash_leaves_a_bare_folder :
  fst (AddNew.handleFileUpload (ambient 10) (audioFile "a.b\c" [x01])
         (freshWorld WindowRealm))
  = ["Failed to upload audio. Please try again."]
  /\ fst (listDirectories ""
            (snd (AddNew.handleFileUpload (ambient 10)
                    (audioFile "a.b\c" [x01]) (freshWorld WindowRealm))))
     = Ok ["a"]
  /\ fst (listFiles "a"
            (snd (AddNew.handleFileUpload (ambient 10)
                    (audioFile "a.b\c" [x01]) (freshWorld WindowRealm))))
     = Ok [].
Proof. vm_compute. repeat split. Qed.

Lemma uploads_furnish_folders_witness :
  List.NoDup ["first"; "second"]
  /\ exists files n,
       listFiles "first" (snd (listDirectories "" library))
       = (Ok files, snd (listDirectories "" library))
       /\ sidecars files = ["metadata.json"]
       /\ payloadFiles files = [n].
Proof.
  destruct (uploads_furnish_folders libraryUploads (freshWorld WindowRealm)
              eq_refl (or_introl eq_refl)
              ltac:(repeat constructor)
              ["first"; "second"] (snd (listDirectories "" library))
              ltac:(vm_compute; reflexivity))
    as [N Each].
  split; [exact N|].
  destruct (Each "first" (or_introl eq_refl))
    as (files & L & S & _ & One).
  destruct One as [n Hn].
  - intros u u' [<-|[<-|[]]] [<-|[<-|[]]] E; try reflexivity;
      vm_compute in E; discriminate E.
  - intros u [<-|[<-|[]]]; discriminate.
  - exists files, n. auto.
Defined.

End SampleRuns.

(** With IEEE doubles: two buffers of 1.5 s and 2.5 s laid out at audio
    time 0 start at 0 and at 1.5, and last 4 seconds together; the gain of
    the default volume is the double nearest to 0.8. *)
Lemma double_timeline :
  map when (StitchAudio.scheduleAll 0 Double.buffers (Double.fromZ 0))
  = [0%float; 1.5%float]
  /\ StitchAudio.totalDurationOf Double.buffers = 4%float
  /\ PrimFloat.div (Double.fromZ 80) (Double.fromZ 100)
     = 0x1.999999999999ap-1%float.
Proof. vm_compute. repeat split. Qed.

(** ** The further properties at work on the sample library *)

Section MoreSampleRuns.
Import Sample StitchAudio OpfsStorage.

Lemma save_keeps_the_rest_witness :
  disk (snd (saveFile "second/second.mp3" (DString "new") library))
    !! ["first"; "first.mp3"]
  = Some (FileNode [x01; x02; x03]).
Proof.
  apply (save_keeps_the_rest "second/second.mp3" (DString "new") library
           ["first"; "first.mp3"] (FileNode [x01; x02; x03])).
  - vm_compute. reflexivity.
  - intros root R E. vm_compute in R. injection R as <-.
    vm_compute in E. discriminate E.
Defined.

Lemma saved_file_is_listed_witness :
  (exists files,
     listFiles "a"
       (snd (saveFile "a/b.txt" (DString "xyz") (freshWorld WindowRealm)))
     = (Ok files,
        snd (saveFile "a/b.txt" (DString "xyz") (freshWorld WindowRealm)))
     /\ In "b.txt" files)
  /\ (exists dirs,
        listDirectories ""
          (snd (saveFile "a/b.txt" (DString "xyz") (freshWorld WindowRealm)))
        = (Ok dirs,
           snd (saveFile "a/b.txt" (DString "xyz") (freshWorld WindowRealm)))
        /\ In "a" dirs).
Proof.
  destruct (saved_file_is_listed "a/b.txt" (DString "xyz")
              (freshWorld WindowRealm)
              (snd (saveFile "a/b.txt" (DString "xyz")
                      (freshWorld WindowRealm)))
              ltac:(vm_compute; reflexivity)) as [Files Dirs].
  split.
  - apply (Files "a" "b.txt"). vm_compute. reflexivity.
  - apply (Dirs "a" ["b.txt"]); [vm_compute; reflexivity|discriminate].
Defined.

Lemma deleteDirectory_removes_witness :
  disk (snd (deleteDirectory "first" library)) !! ["first"; "first.mp3"] = None
  /\ disk (snd (deleteDirectory "first" library)) !! ["second"; "second.mp3"]
     = disk library !! ["second"; "second.mp3"]
  /\ dispatched (snd (deleteDirectory "first" library))
     = dispatched library
       ++ [{| type_ := directory_deleted; path_ := "first" |}].
Proof.
  destruct (deleteDirectory_removes "first" library
              (snd (deleteDirectory "first" library))
              ltac:(vm_compute; reflexivity))
    as (root & R & _ & _ & Beside & Below & Ev).
  vm_compute in R. injection R as <-.
  split; [|split].
  - apply Below; vm_compute; reflexivity.
  - apply Beside. vm_compute. reflexivity.
  - exact Ev.
Defined.

Lemma failed_delete_changes_nothing_witness :
  disk (snd (deleteDirectory "third" library)) = disk library
  /\ dispatched (snd (deleteFile "first" library)) = dispatched library.
Proof.
  split.
  - apply (proj1 (failed_delete_changes_nothing "third" library)).
    vm_compute. discriminate.
  - apply (proj2 (failed_delete_changes_nothing "first" library)).
    vm_compute. discriminate.
Defined.

Lemma deleteFile_spares_full_directory_witness :
  deleteFile "first" library
  = (Some InvalidModificationError, snd (_ensureInit library))
  /\ fst (deleteDirectory "first" library) = None.
Proof.
  apply (deleteFile_spares_full_directory "first" library
           ["metadata.json"; "first.mp3"]).
  - vm_compute. discriminate.
  - left. vm_compute. reflexivity.
  - discriminate.
Defined.

Lemma deleted_folder_is_unlisted_witness :
  (exists dirs,
     listDirectories "" (snd (deleteDirectory "first" library))
     = (Ok dirs, snd (deleteDirectory "first" library))
     /\ ~ In "first" dirs)
  /\ deleteDirectory "first" (snd (deleteDirectory "first" library))
     = (Some (Raised NotFoundError), snd (deleteDirectory "first" library)).
Proof.
  destruct (deleted_folder_is_unlisted "first" "" "first" library
              (snd (deleteDirectory "first" library))
              ltac:(vm_compute; reflexivity) ltac:(vm_compute; reflexivity))
    as ((dirs0 & dirs & _ & L & M) & _ & _ & Again).
  split; [|exact Again].
  exists dirs. split; [exact L|].
  intros I. apply M in I as [_ Ne]. congruence.
Defined.

Lemma deleted_file_is_gone_witness :
  readFile "first/first.mp3" (snd (deleteFile "first/first.mp3" library))
  = (Err NotFoundError, snd (deleteFile "first/first.mp3" library))
  /\ getFileDetails "first/first.mp3"
       (snd (deleteFile "first/first.mp3" library))
     = ({| exists_ := false; size_ := 0 |},
        snd (deleteFile "first/first.mp3" library)).
Proof.
  destruct (deleted_file_is_gone "first/first.mp3" library
              (snd (deleteFile "first/first.mp3" library))
              ltac:(vm_compute; reflexivity)) as (Rd & Dt & _).
  split; [exact Rd|exact Dt].
Defined.

Lemma path_without_parts_witness :
  saveFile "//" (DString "xyz") (freshWorld WindowRealm)
  = (Err InvalidFilePath, snd (_ensureInit (freshWorld WindowRealm)))
  /\ deleteDirectory "//" (freshWorld WindowRealm)
     = (Some InvalidDirectoryPath, snd (_ensureInit (freshWorld WindowRealm))).
Proof.
  destruct (path_without_parts "//" (DString "xyz") (freshWorld WindowRealm) []
              ltac:(vm_compute; reflexivity) ltac:(vm_compute; reflexivity))
    as (S & _ & _ & D & _).
  split; [exact S|exact D].
Defined.

Lemma saveFile_succeeds_iff_witness :
  fst (saveFile "a/b.txt" (DString "xyz") (freshWorld WindowRealm)) = Ok tt
  /\ fst (saveFile "a/../b.txt" (DString "xyz") (freshWorld WindowRealm))
     <> Ok tt
  /\ fst (saveFile "a\b.txt" (DString "xyz") (freshWorld WindowRealm))
     <> Ok tt.
Proof.
  split; [|split].
  - apply (proj2 (saveFile_succeeds_iff "a/b.txt" (DString "xyz")
                    (freshWorld WindowRealm) []
                    ltac:(vm_compute; reflexivity))).
    exists ["a"], "b.txt".
    split; [vm_compute; reflexivity|].
    split; [|split].
    + intros p I. vm_compute in I.
      destruct I as [<-|[<-|[]]];
        (split; [discriminate|split; [discriminate|reflexivity]]).
    + intros pre c _ _. vm_compute. discriminate.
    + vm_compute. discriminate.
  - intros S.
    apply (proj1 (saveFile_succeeds_iff "a/../b.txt" (DString "xyz")
                    (freshWorld WindowRealm) []
                    ltac:(vm_compute; reflexivity))) in S
      as (dirs & n & _ & Names & _).
    destruct (Names "..") as (_ & N & _); [vm_compute; auto|]. congruence.
  - intros S.
    apply (proj1 (saveFile_succeeds_iff "a\b.txt" (DString "xyz")
                    (freshWorld WindowRealm) []
                    ltac:(vm_compute; reflexivity))) in S
      as (dirs & n & _ & Names & _).
    destruct (Names "a\b.txt") as (_ & _ & N); [vm_compute; auto|].
    vm_compute in N. discriminate N.
Defined.

Lemma failed_save_writes_no_file_witness :
  dispatched (snd (saveFile "a/../b.txt" (DString "xyz")
                     (freshWorld WindowRealm)))
  = dispatched (freshWorld WindowRealm)
  /\ disk (snd (saveFile "a/../b.txt" (DString "xyz")
                  (freshWorld WindowRealm))) !! ["a"]
     = Some DirNode.
Proof.
  destruct (failed_save_writes_no_file "a/../b.txt" (DString "xyz")
              (freshWorld WindowRealm) InvalidNameError
              ltac:(vm_compute; reflexivity)) as (Ev & _ & _).
  split; [exact Ev|]. vm_compute. reflexivity.
Defined.

Lemma failed_init_is_final_witness :
  readFile "a/b.txt" (snd (_ensureInit unsupported))
  = (Err OpfsNotSupported, snd (_ensureInit unsupported))
  /\ getFileDetails "a/b.txt" (snd (_ensureInit unsupported))
     = ({| exists_ := false; size_ := 0 |}, snd (_ensureInit unsupported)).
Proof.
  destruct (failed_init_is_final unsupported (snd (_ensureInit unsupported))
              OpfsNotSupported "a/b.txt" (DString "xyz")
              ltac:(vm_compute; reflexivity))
    as (_ & Rd & _ & _ & _ & _ & Dt).
  split; [exact Rd|exact Dt].
Defined.

Lemma delete_leaves_other_paths_witness :
  fst (readFile "second/second.mp3" (snd (deleteDirectory "first" library)))
  = fst (readFile "second/second.mp3" library)
  /\ fst (readFile "first/first.mp3" (snd (deleteDirectory "first" library)))
     = Err NotFoundError.
Proof.
  split.
  - apply (proj1 (delete_leaves_other_paths "first" "second/second.mp3" library
                    (snd (deleteDirectory "first" library))
                    ltac:(vm_compute; reflexivity))).
    vm_compute. reflexivity.
  - apply (proj2 (delete_leaves_other_paths "first" "first/first.mp3" library
                    (snd (deleteDirectory "first" library))
                    ltac:(vm_compute; reflexivity))).
    vm_compute. reflexivity.
Defined.

Lemma accepted_files_have_audio_type_witness :
  String.prefix "audio/"
    (mimeType
       (createAudioMetadata (ambient 10)
          {| file_name := "Song.FLAC"; file_type := "";
             file_lastModified := 1; file_content := [x01] |}
          "Song" "cover.jpg"))
  = true.
Proof.
  apply accepted_files_have_audio_type.
  - vm_compute. reflexivity.
  - vm_compute. discriminate.
  - vm_compute. discriminate.
Defined.

Lemma folder_is_the_base_name_witness :
  AddNew.getAudioFolderName (audioFile "my.song.mp3" [x01]) = "my.song"
  /\ AddNew.getAudioFolderName (audioFile "song" [x01]) = "song".
Proof.
  split.
  - apply (proj1 (folder_is_the_base_name (audioFile "my.song.mp3" [x01]))
             "my.song" "mp3"); reflexivity.
  - apply (proj1 (proj2 (folder_is_the_base_name (audioFile "song" [x01])))).
    reflexivity.
Defined.

Lemma saved_file_details_witness :
  getFileDetails "a/b.txt"
    (snd (saveFile "a/b.txt" (DString "xyz") (freshWorld WorkerRealm)))
  = ({| exists_ := true; size_ := length (dataBytes (DString "xyz")) |},
     snd (saveFile "a/b.txt" (DString "xyz") (freshWorld WorkerRealm))).
Proof.
  apply (saved_file_details "a/b.txt" (DString "xyz") (freshWorld WorkerRealm)).
  vm_compute. reflexivity.
Defined.

Lemma upload_then_read_back_witness :
  useOpfsDirectories.readMetadata
    (AddNew.getAudioFolderName (audioFile "first.mp3" [x01; x02; x03]))
    (snd (AddNew.handleFileUpload (ambient 10)
            (audioFile "first.mp3" [x01; x02; x03]) (freshWorld WindowRealm)))
  = (Ok (createAudioMetadata (ambient 10)
           (audioFile "first.mp3" [x01; x02; x03])
           (AddNew.getAudioFolderName (audioFile "first.mp3" [x01; x02; x03]))
           (location_origin (ambient 10) +:+ "/audio-thumbnail.jpg")),
     snd (AddNew.handleFileUpload (ambient 10)
            (audioFile "first.mp3" [x01; x02; x03]) (freshWorld WindowRealm))).
Proof.
  destruct (upload_then_read_back (ambient 10)
              (audioFile "first.mp3" [x01; x02; x03]) (freshWorld WindowRealm)
              (snd (AddNew.handleFileUpload (ambient 10)
                      (audioFile "first.mp3" [x01; x02; x03])
                      (freshWorld WindowRealm)))
              ltac:(vm_compute; reflexivity) ltac:(vm_compute; reflexivity))
    as (_ & Meta & _).
  exact Meta.
Defined.

Lemma first_upload_is_played_witness :
  useOpfsDirectories.getAllFiles
    (snd (AddNew.handleFileUpload (ambient 10)
            (audioFile "first.mp3" [x01; x02; x03]) (freshWorld WindowRealm)))
  = (Ok [(createAudioMetadata (ambient 10)
            (audioFile "first.mp3" [x01; x02; x03])
            (AddNew.getAudioFolderName
               (audioFile "first.mp3" [x01; x02; x03]))
            (location_origin (ambient 10) +:+ "/audio-thumbnail.jpg"),
          file_content (audioFile "first.mp3" [x01; x02; x03]))],
     snd (AddNew.handleFileUpload (ambient 10)
            (audioFile "first.mp3" [x01; x02; x03]) (freshWorld WindowRealm))).
Proof.
  destruct (first_upload_is_played (ambient 10)
              (audioFile "first.mp3" [x01; x02; x03])
              useOpfsDirectories.initialState (freshWorld WindowRealm)
              (snd (AddNew.handleFileUpload (ambient 10)
                      (audioFile "first.mp3" [x01; x02; x03])
                      (freshWorld WindowRealm)))
              eq_refl (or_introl eq_refl)
              ltac:(vm_compute; reflexivity) ltac:(vm_compute; reflexivity)
              ltac:(discriminate)
              ltac:(vm_compute; reflexivity) ltac:(vm_compute; reflexivity))
    as (Played & _).
  exact Played.
Defined.

Lemma upload_again_replaces_witness :
  disk (snd (AddNew.handleFileUpload (ambient 30)
               (audioFile "first.mp3" [x09]) library))
    !! [AddNew.getAudioFolderName (audioFile "first.mp3" [x09]);
        file_name (audioFile "first.mp3" [x09])]
  = Some (FileNode (file_content (audioFile "first.mp3" [x09]))).
Proof.
  destruct (uploadAll_invariants libraryUploads (freshWorld WindowRealm) []
              ltac:(repeat constructor) (or_introl eq_refl)
              ltac:(intros k v L; vm_compute in L; discriminate L)
              ltac:(intros dir L; vm_compute in L; discriminate L)
              ltac:(intros dir L; vm_compute in L; discriminate L))
    as (_ & Sh & _).
  assert (Rt : rootDir library = Some []) by (vm_compute; reflexivity).
  destruct (upload_again_replaces (ambient 30) (audioFile "first.mp3" [x09])
              library
              (snd (AddNew.handleFileUpload (ambient 30)
                      (audioFile "first.mp3" [x09]) library))
              (or_intror Rt) Sh
              ltac:(vm_compute; reflexivity) ltac:(vm_compute; reflexivity)
              ltac:(discriminate)
              ltac:(vm_compute; discriminate) ltac:(vm_compute; discriminate)
              ltac:(vm_compute; reflexivity))
    as (Payload & _).
  exact Payload.
Defined.

Lemma getAllFiles_skips_bad_folders_witness :
  exists items,
    useOpfsDirectories.getAllFiles halfUploaded
    = (Ok items, snd (listDirectories "" halfUploaded))
    /\ (length items <= 3)%nat.
Proof.
  destruct (proj1 (getAllFiles_skips_bad_folders halfUploaded)
              ["first"; "third"; "second"]
              (snd (listDirectories "" halfUploaded))
              ltac:(vm_compute; reflexivity))
    as (items & G & _ & _ & _ & Len).
  exists items. split; [exact G|exact Len].
Defined.

Lemma playlist_follows_catalog_witness :
  exists played,
    useOpfsDirectories.getAllFiles library
    = (Ok played, snd (listDirectories "" library))
    /\ map fst played
       = useOpfsDirectories.folders
           (fst (useOpfsDirectories.loadFolders
                   useOpfsDirectories.initialState library)).
Proof.
  destruct (playlist_follows_catalog useOpfsDirectories.initialState library
              (snd (listDirectories "" library)) ["first"; "second"]
              [(firstMeta, [x01; x02; x03]);
               (secondMeta, [x04; x05; x06; x07; x08])])
    as (played & G & M & _).
  - vm_compute. reflexivity.
  - constructor; [vm_compute; reflexivity|].
    constructor; [vm_compute; reflexivity|constructor].
  - exists played. split; [exact G|exact M].
Defined.

Lemma pause_then_resume_witness :
  exists s1 s2,
    onPlayClick (ofZ 8) (ofZ 8) (freshWorld WindowRealm, playing)
    = (Ok tt, (freshWorld WindowRealm, s1))
    /\ isPlaying s1 = false
    /\ onPlayClick (ofZ 9) (ofZ 9) (freshWorld WindowRealm, s1)
       = (Ok tt, (freshWorld WindowRealm, s2))
    /\ isPlaying s2 = true
    /\ playbackTimerRef s2 = playbackTimerRef playing.
Proof.
  destruct (pause_then_resume (ofZ 8) (ofZ 8) (ofZ 9) (ofZ 9)
              (freshWorld WindowRealm) playing (fst (getAudioContext playing))
              eq_refl eq_refl eq_refl)
    as (s1 & s2 & C1 & P1 & _ & C2 & _ & T & _ & _ & _ & Plays).
  exists s1, s2. repeat (split; [assumption|]).
  split; [|exact T]. apply Plays. vm_compute. reflexivity.
Defined.

Lemma natural_end_witness :
  fst (sourceEnded playing) = Ok tt
  /\ isPlaying (snd (sourceEnded playing)) = false
  /\ duration (snd (sourceEnded playing)) = duration playing.
Proof.
  destruct (natural_end playing (fst (getAudioContext playing)) eq_refl)
    as (O & _ & P & _ & _ & D & _).
  - apply Exists_cons_tl, Exists_cons_hd. reflexivity.
  - vm_compute. discriminate.
  - split; [exact O|]. split; [exact P|exact D].
Defined.

Lemma click_after_polled_end_witness :
  onPlayClick (ofZ 9) (ofZ 9)
    (library, snd (updatePlaybackTime (ofZ 8) emptySession))
  = (Ok tt, (library, snd (updatePlaybackTime (ofZ 8) emptySession))).
Proof.
  destruct (click_after_polled_end (ofZ 8) (ofZ 9) (ofZ 9) library
              emptySession newAudioContext
              ltac:(vm_compute; reflexivity) ltac:(vm_compute; discriminate)
              ltac:(vm_compute; reflexivity) ltac:(vm_compute; reflexivity))
    as (_ & _ & _ & Click).
  apply Click. vm_compute. discriminate.
Defined.

Lemma listing_failure_stays_preparing_witness :
  exists s',
    onPlayClick (ofZ 7) (ofZ 7) (unsupported, initialStore)
    = (Err OpfsNotSupported, (snd (listDirectories "" unsupported), s'))
    /\ isStitching s' = true.
Proof.
  destruct (listing_failure_stays_preparing (ofZ 7) (ofZ 7) unsupported
              (snd (listDirectories "" unsupported)) initialStore
              OpfsNotSupported)
    as (s' & C & St & _).
  - vm_compute. discriminate.
  - reflexivity.
  - vm_compute. reflexivity.
  - exists s'. split; [exact C|exact St].
Defined.

Lemma slider_reaches_every_source_witness :
  Forall (fun src =>
            gainNodes
              (handleVolumeChange (ofZ 35)
                 (snd (snd (onPlayClick (ofZ 7) (ofZ 7)
                              (library, initialStore)))))
              !! destination src
            = Some (div (ofZ 35) (ofZ 100)))
         (scheduled (snd (snd (onPlayClick (ofZ 7) (ofZ 7)
                                 (library, initialStore))))).
Proof.
  apply (proj2 (slider_reaches_every_source
                  (snd (onPlayClick (ofZ 7) (ofZ 7) (library, initialStore)))
                  (ofZ 35)
                  (reachable_step _ _ (reachable_start library)
                     (step_click (ofZ 7) (ofZ 7) (library, initialStore))))).
Defined.

End MoreSampleRuns.
